(** * Requestarr: the caching and enrichment core

    A shallow embedding of
      - [internal/cache]              (the expiring key/value cache),
      - [internal/services/ratings.go] (the rating aggregator and its
        fallback matcher),
      - [internal/services/tmdb.go]    (the discovery enrichment pipeline),
      - the library clients [internal/services/radarr.go] and
        [internal/services/sonarr.go] as far as search and discovery use
        them,
      - the ratings, discovery and search entry points of
        [internal/handlers/handlers.go],
    followed by the theorems that settle the specification's claims and by
    further properties of the same code.

    Conventions.
      - Go's [int] is [Z]; no integer arithmetic is performed by the code
        modelled here apart from comparisons.
      - Go's [float64] is Rocq's primitive binary64 [float].
      - [time.Time] is an instant [Z] on the monotonic clock (nanoseconds),
        [time.Duration] a [Z] number of nanoseconds; [t.After u] is [u < t].
      - [map[string]interface{}] is [gmap string json]; the values that
        [encoding/json] produces for [interface{}] are the type [json].
      - A failed type assertion without the comma-ok form panics; functions
        that can panic live in the monad [M]. *)

From Stdlib Require Import ZArith String Floats.
From stdpp Require Import gmap strings list fin_maps pretty.

#[local] Set Warnings "-register-all,-inexact-float".

Open Scope string_scope.
Open Scope list_scope.
Open Scope Z_scope.

(* ===================================================================== *)
(** * Part I: the program *)
(* ===================================================================== *)

(** ** Go primitives used by the services *)

(** [fmt.Sprintf("%d", n)]. *)
Definition fmt_d (n : Z) : string := pretty n.

(** Rounding of the non-negative rational [n/d] to the nearest integer,
    ties to even: the rounding [strconv] applies to the exact binary value
    when it formats with a fixed number of decimals. *)
Definition round_half_even (n d : Z) : Z :=
  let q := n / d in
  let r := n mod d in
  if 2 * r <? d then q
  else if d <? 2 * r then q + 1
  else if Z.even q then q else q + 1.

Definition sign_prefix (s : bool) : string := if s then "-" else "".

(** [fmt.Sprintf("%.0f", f)]. *)
Definition fmt_f0 (f : float) : string :=
  match Prim2SF f with
  | S754_nan => "NaN"
  | S754_infinity s => if s then "-Inf" else "+Inf"
  | S754_zero s => sign_prefix s +:+ "0"
  | S754_finite s m e =>
      let n := if 0 <=? e then Z.pos m * 2 ^ e
               else round_half_even (Z.pos m) (2 ^ (- e)) in
      sign_prefix s +:+ pretty n
  end.

(** [fmt.Sprintf("%.1f", f)]. *)
Definition fmt_f1 (f : float) : string :=
  match Prim2SF f with
  | S754_nan => "NaN"
  | S754_infinity s => if s then "-Inf" else "+Inf"
  | S754_zero s => sign_prefix s +:+ "0.0"
  | S754_finite s m e =>
      let n := if 0 <=? e then 10 * Z.pos m * 2 ^ e
               else round_half_even (10 * Z.pos m) (2 ^ (- e)) in
      sign_prefix s +:+ pretty (n / 10) +:+ "." +:+ pretty (n mod 10)
  end.

Definition int_min : Z := - 2 ^ 63.
Definition int_max : Z := 2 ^ 63 - 1.

(** The conversion [int(f)]: truncation toward zero.  For a value that
    does not fit (and for NaN) the Go specification leaves the result to
    the implementation; amd64 yields the smallest integer. *)
Definition float_to_int (f : float) : Z :=
  match Prim2SF f with
  | S754_zero _ => 0
  | S754_finite s m e =>
      let a := if 0 <=? e then Z.pos m * 2 ^ e else Z.pos m / 2 ^ (- e) in
      let v := if s then - a else a in
      if (int_min <=? v) && (v <=? int_max) then v else int_min
  | _ => int_min
  end.

(** The conversion [float64(n)] of an [int]. *)
Definition float_of_int (n : Z) : float :=
  if n =? int_min then (-9223372036854775808)%float
  else if n <? 0 then PrimFloat.opp (PrimFloat.of_uint63 (Uint63.of_Z (- n)))
  else PrimFloat.of_uint63 (Uint63.of_Z n).

(** [f > 0] on [float64]. *)
Definition float_pos (f : float) : bool := PrimFloat.ltb 0%float f.

(** [len(s) >= 4] and [s[:4]]. *)
Definition str_len (s : string) : Z := Z.of_nat (String.length s).
Definition str_prefix4 (s : string) : string := String.substring 0 4 s.

Definition is_empty (s : string) : bool := bool_decide (s = "").

(** ** Dynamic JSON values: what [encoding/json] stores in [interface{}] *)

Inductive json : Type :=
  | JNull
  | JBool (b : bool)
  | JNum (f : float)
  | JStr (s : string)
  | JArr (l : list json)
  | JObj (m : gmap string json).

Abbreviation object := (gmap string json).

(** [m[key]]: a missing key reads as [nil]. *)
Definition index (m : object) (key : string) : json :=
  default JNull (m !! key).

(** Type assertions [v.(T)]; [None] is the failed assertion. *)
Definition as_string (v : json) : option string :=
  match v with JStr s => Some s | _ => None end.
Definition as_float64 (v : json) : option float :=
  match v with JNum f => Some f | _ => None end.
Definition as_bool (v : json) : option bool :=
  match v with JBool b => Some b | _ => None end.
Definition as_array (v : json) : option (list json) :=
  match v with JArr l => Some l | _ => None end.
Definition as_object (v : json) : option object :=
  match v with JObj m => Some m | _ => None end.

(** [v, _ := x.(T)]: the zero value on failure. *)
Definition string_or_zero (v : json) : string := default "" (as_string v).
Definition float_or_zero (v : json) : float := default 0%float (as_float64 v).

(** ** package cache *)

Module cache.

Record item (V : Type) : Type := mkItem {
  value : V;
  expiration : Z;
}.
Arguments mkItem {V} _ _.
Arguments value {V} _.
Arguments expiration {V} _.

Record Cache (V : Type) : Type := mkCache {
  items : gmap string (item V);
  ttl : Z;
}.
Arguments mkCache {V} _ _.
Arguments items {V} _.
Arguments ttl {V} _.

(** [time.Time.After]. *)
Definition After (t u : Z) : bool := u <? t.

(** [NewCache]; the sweep it starts is [cleanup] below. *)
Definition NewCache {V} (ttl : Z) : Cache V := mkCache ∅ ttl.

(** [Get], read at the instant [now]: [None] is [(nil, false)], [Some v]
    is [(v, true)]. *)
Definition Get {V} (c : Cache V) (now : Z) (key : string) : option V :=
  match items c !! key with
  | None => None
  | Some it => if After now (expiration it) then None else Some (value it)
  end.

(** [Set], executed at the instant [now]. *)
Definition Set_ {V} (c : Cache V) (now : Z) (key : string) (v : V) : Cache V :=
  mkCache (<[key := mkItem v (now + ttl c)]> (items c)) (ttl c).

Definition SetWithTTL {V} (c : Cache V) (now : Z) (key : string) (v : V)
    (d : Z) : Cache V :=
  mkCache (<[key := mkItem v (now + d)]> (items c)) (ttl c).

Definition Delete {V} (c : Cache V) (key : string) : Cache V :=
  mkCache (delete key (items c)) (ttl c).

(** One tick of the [cleanup] loop, at the instant [now]: every entry with
    [now.After(item.expiration)] is deleted. *)
Definition cleanup {V} (c : Cache V) (now : Z) : Cache V :=
  mkCache (filter (λ kv, After now (expiration kv.2) = false) (items c)) (ttl c).

End cache.

(** ** The world the services run in

    The cache is the one datum the services share; the providers and the
    request ledger are external.  Every exchange with them is appended to
    a log, and the answer of a provider may depend on everything that was
    asked before. *)

Inductive call : Type :=
  | MDBListGet (params : gmap string string)
      (* GET https://mdblist.com/api/?<params> *)
  | AlgoliaQuery (payload : object)
      (* POST https://<app>-dsn.algolia.net/1/indexes/content_rt/query *)
  | TMDBGet (endpoint : string) (query : gmap string string)
      (* GET https://api.themoviedb.org/3/<endpoint>?<query> *)
  | ArrGet (url apiKey : string)
      (* GET <url> with header X-Api-Key *)
  | LedgerQuery (query : string).
      (* SELECT on the requests table *)

Inductive error : Type :=
  | Errorf (msg : string)   (* fmt.Errorf(msg) *)
  | ErrTransport            (* the error of client.Get / client.Do *)
  | ErrDecode               (* the error of json.Decoder.Decode *)
  | ErrQuery.               (* the error of db.Query / rows.Scan *)

(** What [client.Get]/[client.Do] hands back: an error, or a response with
    its status code and its body ([None]: the body is not JSON text). *)
Inductive http_reply : Type :=
  | TransportError
  | Response (status : Z) (body : option json).

(** The collaborators held by a service struct: [db] and [client]. *)
Record Service : Type := mkService {
  db_GetSetting : string → string;
  db_Query : list call → string → option (list Z);
  client_Do : list call → call → http_reply;
  elapsed : list call → call → N;
}.

Record RatingsResult : Type := mkRatings {
  RottenTomatoes : option Z;
  RTAudienceScore : option Z;
  RTCertified : bool;
  IMDB : string;
  Metacritic : option Z;
}.

(** The dynamic types of the values the services put in the cache. *)
Inductive any : Type :=
  | AnyRatings (r : RatingsResult)       (* *RatingsResult *)
  | AnyString (s : string)               (* string *)
  | AnyObject (m : object)               (* map[string]interface{} *)
  | AnyIDs (ids : gmap Z bool).          (* map[int]bool *)

Record World : Type := mkWorld {
  w_cache : cache.Cache any;
  w_now : Z;
  w_log : list call;
}.

Inductive result (A : Type) : Type :=
  | Ret (a : A) (w : World)
  | Panic.
Arguments Ret {A} _ _.
Arguments Panic {A}.

Definition M (A : Type) : Type := World → result A.

#[global] Instance M_ret : MRet M := λ A a w, Ret a w.
#[global] Instance M_bind : MBind M := λ A B f m w,
  match m w with
  | Ret a w' => f a w'
  | Panic => Panic
  end.

Definition panic {A} : M A := λ _, Panic.

(** A type assertion [x.(T)] that panics when it fails. *)
Definition must {A} (o : option A) : M A :=
  match o with Some a => mret a | None => panic end.

Definition cache_Get (key : string) : M (option any) :=
  λ w, Ret (cache.Get (w_cache w) (w_now w) key) w.

Definition cache_Set (key : string) (v : any) : M unit :=
  λ w, Ret () (mkWorld (cache.Set_ (w_cache w) (w_now w) key v) (w_now w) (w_log w)).

Definition cache_SetWithTTL (key : string) (v : any) (d : Z) : M unit :=
  λ w, Ret () (mkWorld (cache.SetWithTTL (w_cache w) (w_now w) key v d)
                       (w_now w) (w_log w)).

(** One exchange with a provider: logged, and the clock moves on. *)
Definition roundtrip (s : Service) (c : call) : M http_reply :=
  λ w, Ret (client_Do s (w_log w) c)
           (mkWorld (w_cache w) (w_now w + Z.of_N (elapsed s (w_log w) c))
                    (w_log w ++ [c])).

(** [json.NewDecoder(body).Decode(&data)] with [data map[string]interface{}]:
    JSON [null] leaves the map nil, anything but an object is an error. *)
Definition decode_object (body : option json) : option object :=
  match body with
  | Some (JObj m) => Some m
  | Some JNull => Some ∅
  | _ => None
  end.

(** *** ratings.go *)

Definition emptyRatings : RatingsResult := mkRatings None None false "" None.

Definition set_RottenTomatoes (r : RatingsResult) (v : option Z) :=
  mkRatings v (RTAudienceScore r) (RTCertified r) (IMDB r) (Metacritic r).
Definition set_RTAudienceScore (r : RatingsResult) (v : option Z) :=
  mkRatings (RottenTomatoes r) v (RTCertified r) (IMDB r) (Metacritic r).
Definition set_RTCertified (r : RatingsResult) (b : bool) :=
  mkRatings (RottenTomatoes r) (RTAudienceScore r) b (IMDB r) (Metacritic r).
Definition set_IMDB (r : RatingsResult) (s : string) :=
  mkRatings (RottenTomatoes r) (RTAudienceScore r) (RTCertified r) s (Metacritic r).
Definition set_Metacritic (r : RatingsResult) (v : option Z) :=
  mkRatings (RottenTomatoes r) (RTAudienceScore r) (RTCertified r) (IMDB r) v.

(** The body of the loop over [data["ratings"]] (ratings.go 124-142);
    [None] is the panic of [r.(map[string]interface{})]. *)
Definition applyRating (result : RatingsResult) (r : json) : option RatingsResult :=
  rating ← as_object r;
  let source := string_or_zero (index rating "source") in
  let value := float_or_zero (index rating "value") in
  Some (if bool_decide (source = "imdb") then set_IMDB result (fmt_f1 value)
        else if bool_decide (source = "tomatoes")
          then set_RottenTomatoes result (Some (float_to_int value))
        else if bool_decide (source = "tomatoesaudience")
          then set_RTAudienceScore result (Some (float_to_int value))
        else if bool_decide (source = "metacritic")
          then set_Metacritic result (Some (float_to_int value))
        else result).

Fixpoint applyRatings (result : RatingsResult) (ratings : list json)
    : option RatingsResult :=
  match ratings with
  | [] => Some result
  | r :: rest => result' ← applyRating result r; applyRatings result' rest
  end.

(** ratings.go 102-145: the exchange with MDBList once the parameters are
    set. *)
Definition mdblistLookup (s : Service) (params : gmap string string)
    : M (option RatingsResult * option error) :=
  reply ← roundtrip s (MDBListGet params);
  match reply with
  | TransportError => mret (None, Some ErrTransport)
  | Response status body =>
      if negb (status =? 200)
      then mret (None, Some (Errorf ("MDBList returned " +:+ fmt_d status)))
      else match decode_object body with
           | None => mret (None, Some ErrDecode)
           | Some data =>
               match index data "error" with
               | JNull =>
                   match as_array (index data "ratings") with
                   | Some ratings =>
                       result ← must (applyRatings emptyRatings ratings);
                       mret (Some result, None)
                   | None => mret (Some emptyRatings, None)
                   end
               | _ => mret (None, Some (Errorf "MDBList error"))
               end
           end
  end.

Definition getMDBListRatings (s : Service) (apiKey imdbID : string)
    (tmdbID : Z) (mediaType : string) : M (option RatingsResult * option error) :=
  let params : gmap string string := <["apikey" := apiKey]> ∅ in
  if negb (is_empty imdbID) then
    mdblistLookup s (<["i" := imdbID]> params)
  else if 0 <? tmdbID then
    let params := <["tm" := fmt_d tmdbID]> params in
    if bool_decide (mediaType = "tv") || bool_decide (mediaType = "series")
    then mdblistLookup s (<["m" := "show"]> params)
    else mdblistLookup s (<["m" := "movie"]> params)
  else mret (None, Some (Errorf "no ID provided")).

(** The test that makes the matcher stop (ratings.go 201-202). *)
Definition exactMatch (title year : string) (hit : object) : bool :=
  let hitTitle := string_or_zero (index hit "title") in
  let hitYear := float_or_zero (index hit "releaseYear") in
  bool_decide (hitTitle = title)
  && (negb (is_empty year) && float_pos hitYear
      && bool_decide (fmt_f0 hitYear = year)).

(** The loop "Find best match" (ratings.go 195-211), started with the
    current [bestMatch]; the outer [None] is the panic of
    [h.(map[string]interface{})], [Some None] a nil [bestMatch]. *)
Fixpoint findBestMatch (title year : string) (bestMatch : option object)
    (hits : list json) : option (option object) :=
  match hits with
  | [] => Some bestMatch
  | h :: rest =>
      hit ← as_object h;
      let hitTitle := string_or_zero (index hit "title") in
      let hitYear := float_or_zero (index hit "releaseYear") in
      if bool_decide (hitTitle = title) then
        if negb (is_empty year) && float_pos hitYear
           && bool_decide (fmt_f0 hitYear = year)
        then Some (Some hit)
        else match bestMatch with
             | None => findBestMatch title year (Some hit) rest
             | Some _ => findBestMatch title year bestMatch rest
             end
      else match bestMatch with
           | None => findBestMatch title year (Some hit) rest
           | Some _ => findBestMatch title year bestMatch rest
           end
  end.

(** ratings.go 217-233: the scores of the chosen hit. *)
Definition scoresOf (bestMatch : object) : RatingsResult :=
  match as_object (index bestMatch "rottenTomatoes") with
  | Some rtData =>
      mkRatings (float_to_int <$> as_float64 (index rtData "criticsScore"))
                (float_to_int <$> as_float64 (index rtData "audienceScore"))
                (default false (as_bool (index rtData "certifiedFresh")))
                "" None
  | None => emptyRatings
  end.

(** ratings.go 189-233: from the decoded answer to the result. *)
Definition pickRTRatings (title year : string) (data : object)
    : M (option RatingsResult * option error) :=
  match as_array (index data "hits") with
  | None | Some [] => mret (None, None)
  | Some hits =>
      bestMatch ← must (findBestMatch title year None hits);
      match bestMatch with
      | None => mret (None, None)
      | Some hit => mret (Some (scoresOf hit), None)
      end
  end.

Definition rtPayload (title year mediaType : string) : object :=
  let searchQuery := if negb (is_empty year) then title +:+ " " +:+ year else title in
  let typeFilter :=
    if bool_decide (mediaType = "movie")
    then "isEmsSearchable:true" +:+ " AND type:movie"
    else "isEmsSearchable:true" +:+ " AND type:tvSeries" in
  <["query" := JStr searchQuery]>
    (<["filters" := JStr typeFilter]>
      (<["hitsPerPage" := JNum 5%float]> ∅)).

Definition getRTRatings (s : Service) (title year mediaType : string)
    : M (option RatingsResult * option error) :=
  reply ← roundtrip s (AlgoliaQuery (rtPayload title year mediaType));
  match reply with
  | TransportError => mret (None, Some ErrTransport)
  | Response status body =>
      if negb (status =? 200)
      then mret (None, Some (Errorf ("RT Algolia returned " +:+ fmt_d status)))
      else match decode_object body with
           | None => mret (None, Some ErrDecode)
           | Some data => pickRTRatings title year data
           end
  end.

Definition ratingsKey (title year mediaType : string) : string :=
  "ratings_" +:+ title +:+ "_" +:+ year +:+ "_" +:+ mediaType.

(** ratings.go 52-61: "Try MDBList first". *)
Definition primaryRatings (s : Service) (mediaType imdbID : string) (tmdbID : Z)
    : M RatingsResult :=
  let mdblistKey := db_GetSetting s "mdblist_api_key" in
  if negb (is_empty mdblistKey) then
    '(mdbResult, err) ← getMDBListRatings s mdblistKey imdbID tmdbID mediaType;
    match err, mdbResult with
    | None, Some r => mret r
    | _, _ => mret emptyRatings
    end
  else mret emptyRatings.

(** ratings.go 67-75: what is taken from the Rotten Tomatoes answer. *)
Definition mergeRT (result rtResult : RatingsResult) : RatingsResult :=
  let result :=
    match RottenTomatoes result with
    | None => set_RottenTomatoes result (RottenTomatoes rtResult)
    | Some _ => result
    end in
  let result :=
    match RTAudienceScore result with
    | None => set_RTAudienceScore result (RTAudienceScore rtResult)
    | Some _ => result
    end in
  if RTCertified rtResult then set_RTCertified result (RTCertified rtResult)
  else result.

(** ratings.go 63-77: "Fallback to RT Algolia if no RT data". *)
Definition fallbackRatings (s : Service) (title year mediaType : string)
    (result : RatingsResult) : M RatingsResult :=
  match RottenTomatoes result with
  | None =>
      if negb (is_empty title) then
        '(rtResult, err) ← getRTRatings s title year mediaType;
        match err, rtResult with
        | None, Some rt => mret (mergeRT result rt)
        | _, _ => mret result
        end
      else mret result
  | Some _ => mret result
  end.

Definition GetRatings (s : Service) (title year mediaType imdbID : string)
    (tmdbID : Z) : M (RatingsResult * option error) :=
  let cacheKey := ratingsKey title year mediaType in
  cached ← cache_Get cacheKey;
  match cached with
  | Some v =>
      match v with
      | AnyRatings r => mret (r, None)
      | _ => panic
      end
  | None =>
      result ← primaryRatings s mediaType imdbID tmdbID;
      result ← fallbackRatings s title year mediaType result;
      _ ← cache_Set cacheKey (AnyRatings result);
      mret (result, None)
  end.

(** *** models: the request ledger *)

(** [DB.GetRequestedIDs]: one SELECT on the requests table; a failed query
    or scan gives [(nil, err)], and a nil map reads like an empty one. *)
Definition requestedIDsQuery (mediaType : string) : string :=
  if bool_decide (mediaType = "series")
  then "SELECT tvdb_id FROM requests WHERE media_type = 'series' AND status IN ('pending', 'approved') AND tvdb_id IS NOT NULL"
  else "SELECT tmdb_id FROM requests WHERE media_type = 'movie' AND status IN ('pending', 'approved') AND tmdb_id IS NOT NULL".

Definition GetRequestedIDs (s : Service) (mediaType : string)
    : M (gmap Z bool * option error) :=
  let query := requestedIDsQuery mediaType in
  λ w,
    let w' := mkWorld (w_cache w)
                (w_now w + Z.of_N (elapsed s (w_log w) (LedgerQuery query)))
                (w_log w ++ [LedgerQuery query]) in
    match db_Query s (w_log w) query with
    | None => Ret (∅, Some ErrQuery) w'
    | Some rows => Ret (foldl (λ ids id, <[id := true]> ids) ∅ rows, None) w'
    end.

(** *** tmdb.go *)

Record MediaItem : Type := mkMediaItem {
  TmdbID : Z;
  TvdbID : Z;
  ImdbID : string;
  Title : string;
  Year : string;
  Overview : string;
  Rating : float;
  VoteCount : Z;
  Poster : string;
  Fanart : string;
  Network : string;
  Runtime : Z;
  RequestStatus : string;
  Source : string;
}.

(** The zero value of [MediaItem], as [make([]MediaItem, n)] fills it in. *)
Definition zeroMediaItem : MediaItem :=
  mkMediaItem 0 0 "" "" "" "" 0%float 0 "" "" "" 0 "" "".

Definition tmdbImageURL : string := "https://image.tmdb.org/t/p".

Definition second : Z := 1000000000.
Definition minute : Z := 60 * second.

(** The TTL handed to [cache.NewCache] in [cmd/server/main.go]. *)
Definition defaultTTL : Z := 10 * minute.
(** The TTL of the existing-library sets. *)
Definition existingTTL : Z := 2 * minute.

Definition getString (m : object) (key : string) : string :=
  match as_string (index m key) with Some v => v | None => "" end.

Definition getInt (m : object) (key : string) : Z :=
  match as_float64 (index m key) with Some v => float_to_int v | None => 0 end.

(** [ids[k]] on a [map[int]bool]. *)
Definition has (ids : gmap Z bool) (k : Z) : bool := default false (ids !! k).

(** [TMDBService.request]; a nil map is returned as the empty one. *)
Definition request (s : Service) (endpoint : string) (params : gmap string string)
    : M (object * option error) :=
  let apiKey := db_GetSetting s "tmdb_api_key" in
  if is_empty apiKey then mret (∅, Some (Errorf "TMDB API key not configured"))
  else
    let q : gmap string string := params ∪ {["api_key" := apiKey]} in
    reply ← roundtrip s (TMDBGet endpoint q);
    match reply with
    | TransportError => mret (∅, Some ErrTransport)
    | Response status body =>
        if negb (status =? 200)
        then mret (∅, Some (Errorf ("TMDB returned " +:+ fmt_d status)))
        else match decode_object body with
             | None => mret (∅, Some ErrDecode)
             | Some result => mret (result, None)
             end
    end.

(** tmdb.go 164-169. *)
Definition movieStatus (existingIDs requestedIDs : gmap Z bool) (tmdbID : Z)
    : string :=
  if has existingIDs tmdbID then "exists"
  else if has requestedIDs tmdbID then "requested"
  else "available".

(** tmdb.go 278-283. *)
Definition seriesStatus (existingIDs requestedIDs : gmap Z bool) (tvdbID : Z)
    : string :=
  if (0 <? tvdbID) && has existingIDs tvdbID then "exists"
  else if (0 <? tvdbID) && has requestedIDs tvdbID then "requested"
  else "available".

Definition posterOf (m : object) : string :=
  match as_string (index m "poster_path") with
  | Some p => tmdbImageURL +:+ "/w500" +:+ p
  | None => ""
  end.

Definition backdropOf (m : object) : string :=
  match as_string (index m "backdrop_path") with
  | Some b => tmdbImageURL +:+ "/original" +:+ b
  | None => ""
  end.

Definition yearOf (m : object) (key : string) : string :=
  match as_string (index m key) with
  | Some rd => if 4 <=? str_len rd then str_prefix4 rd else ""
  | None => ""
  end.

Definition ratingOf (m : object) : float :=
  match as_float64 (index m "vote_average") with
  | Some r => r
  | None => 0%float
  end.

Definition movieCacheKey (tmdbID : Z) : string := "tmdb_movie_" +:+ fmt_d tmdbID.
Definition tvCacheKey (tmdbID : Z) : string := "tmdb_tv_" +:+ fmt_d tmdbID.

Definition detailParams : gmap string string :=
  {["append_to_response" := "external_ids"]}.

(** tmdb.go 150-159: the IMDB id found in a movie's details. *)
Definition movieImdbID (details : object) : string :=
  let imdbID :=
    match as_object (index details "external_ids") with
    | Some extIDs =>
        match as_string (index extIDs "imdb_id") with
        | Some id => id
        | None => ""
        end
    | None => ""
    end in
  if is_empty imdbID then
    match as_string (index details "imdb_id") with
    | Some id => id
    | None => imdbID
    end
  else imdbID.

(** tmdb.go 141-162: "Check cache first for external IDs". *)
Definition resolveMovie (s : Service) (tmdbID : Z) : M string :=
  let cacheKey := movieCacheKey tmdbID in
  cached ← cache_Get cacheKey;
  match cached with
  | Some v =>
      match v with
      | AnyString imdbID => mret imdbID
      | _ => panic
      end
  | None =>
      '(details, err) ← request s ("movie/" +:+ fmt_d tmdbID) detailParams;
      match err with
      | None =>
          let imdbID := movieImdbID details in
          _ ← cache_Set cacheKey (AnyString imdbID);
          mret imdbID
      | Some _ => mret ""
      end
  end.

(** tmdb.go 135-202: the goroutine started for one movie. *)
Definition enrichMovie (s : Service) (existingIDs requestedIDs : gmap Z bool)
    (movie : object) : M MediaItem :=
  id ← must (as_float64 (index movie "id"));
  let tmdbID := float_to_int id in
  imdbID ← resolveMovie s tmdbID;
  let status := movieStatus existingIDs requestedIDs tmdbID in
  mret (mkMediaItem tmdbID 0 imdbID (getString movie "title")
          (yearOf movie "release_date") (getString movie "overview")
          (ratingOf movie) (getInt movie "vote_count")
          (posterOf movie) (backdropOf movie) "" 0 status "tmdb").

(** tmdb.go 266-273: the ids found in a show's details. *)
Definition showExternalIDs (details : object) : Z * string :=
  match as_object (index details "external_ids") with
  | Some extIDs =>
      (match as_float64 (index extIDs "tvdb_id") with
       | Some id => float_to_int id
       | None => 0
       end,
       match as_string (index extIDs "imdb_id") with
       | Some id => id
       | None => ""
       end)
  | None => (0, "")
  end.

Definition showIDsEntry (tvdbID : Z) (imdbID : string) : object :=
  <["tvdb" := JNum (float_of_int tvdbID)]> (<["imdb" := JStr imdbID]> ∅).

(** tmdb.go 252-276. *)
Definition resolveShow (s : Service) (tmdbID : Z) : M (Z * string) :=
  let cacheKey := tvCacheKey tmdbID in
  cached ← cache_Get cacheKey;
  match cached with
  | Some v =>
      match v with
      | AnyObject ids =>
          tvdb ← must (as_float64 (index ids "tvdb"));
          mret (float_to_int tvdb, string_or_zero (index ids "imdb"))
      | _ => mret (0, "")
      end
  | None =>
      '(details, err) ← request s ("tv/" +:+ fmt_d tmdbID) detailParams;
      match err with
      | None =>
          let '(tvdbID, imdbID) := showExternalIDs details in
          _ ← cache_Set cacheKey (AnyObject (showIDsEntry tvdbID imdbID));
          mret (tvdbID, imdbID)
      | Some _ => mret (0, "")
      end
  end.

(** tmdb.go 247-317: the goroutine started for one show. *)
Definition enrichShow (s : Service) (existingIDs requestedIDs : gmap Z bool)
    (show : object) : M MediaItem :=
  id ← must (as_float64 (index show "id"));
  let tmdbID := float_to_int id in
  '(tvdbID, imdbID) ← resolveShow s tmdbID;
  let status := seriesStatus existingIDs requestedIDs tvdbID in
  mret (mkMediaItem tmdbID tvdbID imdbID (getString show "name")
          (yearOf show "first_air_date") (getString show "overview")
          (ratingOf show) (getInt show "vote_count")
          (posterOf show) (backdropOf show) "" 0 status "tmdb").

(** The goroutines of one page.  Each writes its own slot [items[idx]];
    [sched] is the order in which the scheduler lets them run, each body
    taken as one step.  [wg.Wait()] returns once every index has had its
    turn. *)
Fixpoint runTasks (task : object → M MediaItem) (raw : list object)
    (sched : list nat) (items : list MediaItem) : M (list MediaItem) :=
  match sched with
  | [] => mret items
  | idx :: rest =>
      match raw !! idx with
      | Some r =>
          item ← task r;
          runTasks task raw rest (<[idx := item]> items)
      | None => runTasks task raw rest items
      end
  end.

(** tmdb.go 129-205: [items := make(...)], the loop that starts a goroutine
    on [r.(map[string]interface{})] for every result, and the barrier. *)
Definition fanOut (task : object → M MediaItem) (results : list json)
    (sched : list nat) : M (list MediaItem) :=
  raw ← must (mapM as_object results);
  runTasks task raw sched (replicate (length results) zeroMediaItem).

(** Decoding into [[]map[string]interface{}]. *)
Definition decode_objects (body : option json) : option (list object) :=
  match body with
  | Some (JArr l) =>
      mapM (λ v, match v with
                 | JObj m => Some m
                 | JNull => Some ∅
                 | _ => None
                 end) l
  | Some JNull => Some []
  | _ => None
  end.

(** The loop that collects the ids of the library (tmdb.go 352-357). *)
Definition collectIDs (field : string) (entries : list object) : gmap Z bool :=
  foldl (λ ids m,
           match as_float64 (index m field) with
           | Some id => <[float_to_int id := true]> ids
           | None => ids
           end) ∅ entries.

(** The part shared by [getExistingMovieIDs] and [getExistingSeriesIDs],
    which differ in the settings read, the cache key, the path and the
    field; [arrURL] is taken to be a well-formed URL. *)
Definition getExistingIDs (s : Service) (urlSetting keySetting cacheKey path
    field : string) : M (gmap Z bool * option error) :=
  let arrURL := db_GetSetting s urlSetting in
  let arrKey := db_GetSetting s keySetting in
  if is_empty arrURL || is_empty arrKey then mret (∅, None)
  else
    cached ← cache_Get cacheKey;
    match cached with
    | Some v =>
        match v with
        | AnyIDs ids => mret (ids, None)
        | _ => panic
        end
    | None =>
        reply ← roundtrip s (ArrGet (arrURL +:+ path) arrKey);
        match reply with
        | TransportError => mret (∅, Some ErrTransport)
        | Response _ body =>
            match decode_objects body with
            | None => mret (∅, Some ErrDecode)
            | Some entries =>
                let ids := collectIDs field entries in
                _ ← cache_SetWithTTL cacheKey (AnyIDs ids) existingTTL;
                mret (ids, None)
            end
        end
    end.

Definition getExistingMovieIDs (s : Service) : M (gmap Z bool * option error) :=
  getExistingIDs s "radarr_url" "radarr_api_key" "existing_movies"
    "/api/v3/movie" "tmdbId".

Definition getExistingSeriesIDs (s : Service) : M (gmap Z bool * option error) :=
  getExistingIDs s "sonarr_url" "sonarr_api_key" "existing_series"
    "/api/v3/series" "tvdbId".

Definition discoverMovieParams (page : Z) (sortBy year : string)
    : gmap string string :=
  let params : gmap string string :=
    <["page" := fmt_d page]>
      (<["sort_by" := sortBy]>
        (<["include_adult" := "false"]>
          (<["include_video" := "false"]>
            (<["with_original_language" := "en"]>
              (<["region" := "US"]>
                (<["vote_count.gte" := "100"]> ∅)))))) in
  let params :=
    if bool_decide (sortBy = "vote_average.desc")
    then <["vote_count.gte" := "500"]> params else params in
  if negb (is_empty year) then <["primary_release_year" := year]> params
  else params.

Definition discoverTVParams (page : Z) (sortBy year : string)
    : gmap string string :=
  let params : gmap string string :=
    <["page" := fmt_d page]>
      (<["sort_by" := sortBy]>
        (<["include_null_first_air_dates" := "false"]>
          (<["with_original_language" := "en"]>
            (<["vote_count.gte" := "50"]> ∅)))) in
  let params :=
    if bool_decide (sortBy = "vote_average.desc")
    then <["vote_count.gte" := "200"]> params else params in
  if negb (is_empty year) then <["first_air_date_year" := year]> params
  else params.

Definition clampPages (totalPages : Z) : Z :=
  if 500 <? totalPages then 500 else totalPages.

Definition DiscoverMovies (s : Service) (sched : list nat) (page : Z)
    (sortBy year : string) : M (list MediaItem * Z * option error) :=
  '(data, err) ← request s "discover/movie" (discoverMovieParams page sortBy year);
  match err with
  | Some e => mret ([], 0, Some e)
  | None =>
      let results := default [] (as_array (index data "results")) in
      tp ← must (as_float64 (index data "total_pages"));
      let totalPages := clampPages (float_to_int tp) in
      '(existingIDs, _) ← getExistingMovieIDs s;
      '(requestedIDs, _) ← GetRequestedIDs s "movie";
      items ← fanOut (enrichMovie s existingIDs requestedIDs) results sched;
      mret (items, totalPages, None)
  end.

Definition DiscoverTV (s : Service) (sched : list nat) (page : Z)
    (sortBy year : string) : M (list MediaItem * Z * option error) :=
  '(data, err) ← request s "discover/tv" (discoverTVParams page sortBy year);
  match err with
  | Some e => mret ([], 0, Some e)
  | None =>
      let results := default [] (as_array (index data "results")) in
      tp ← must (as_float64 (index data "total_pages"));
      let totalPages := clampPages (float_to_int tp) in
      '(existingIDs, _) ← getExistingSeriesIDs s;
      '(requestedIDs, _) ← GetRequestedIDs s "series";
      items ← fanOut (enrichShow s existingIDs requestedIDs) results sched;
      mret (items, totalPages, None)
  end.

(** *** handlers.go, the ratings endpoint *)

Module handlers.

Inductive response : Type :=
  | errorResponse (message : string) (status : Z)
  | jsonRatings (r : RatingsResult)
  | jsonEmptyObject.

(** [Handler.GetRatings], from the query values on ([tmdbID] is what
    [strconv.Atoi] made of the [tmdb_id] parameter). *)
Definition GetRatings (s : Service) (title year mediaType imdbID : string)
    (tmdbID : Z) : M response :=
  if is_empty title && is_empty imdbID && (tmdbID =? 0) then
    mret (errorResponse "Title or ID required" 400)
  else
    '(ratings, err) ← GetRatings s title year mediaType imdbID tmdbID;
    match err with
    | Some _ => mret jsonEmptyObject
    | None => mret (jsonRatings ratings)
    end.

End handlers.

(** *** handlers.go, the discovery endpoints *)

Module discovery.

Inductive response : Type :=
  | errorResponse (err : error) (status : Z)
      (* errorResponse(w, err.Error(), status) *)
  | jsonPage (results : list MediaItem) (page totalPages : Z).
      (* jsonResponse(w, {"results", "page", "totalPages"}) *)

(** [Handler.DiscoverMovies], from the query values on ([page] is what
    [strconv.Atoi] made of the [page] parameter, 0 when it is missing or
    not a number). *)
Definition DiscoverMovies (s : Service) (sched : list nat) (page : Z)
    (sort year : string) : M response :=
  let page := if page <? 1 then 1 else page in
  let sort := if is_empty sort then "popularity.desc" else sort in
  '(items, totalPages, err) ← DiscoverMovies s sched page sort year;
  match err with
  | Some e => mret (errorResponse e 500)
  | None => mret (jsonPage items page totalPages)
  end.


End discovery.

(** *** radarr.go and sonarr.go: the library as the request flow reads it *)

(** [strings.TrimRight(s, "/")]. *)
Fixpoint trimRightSlash (s : string) : string :=
  match s with
  | EmptyString => EmptyString
  | String c rest =>
      let rest := trimRightSlash rest in
      if is_empty rest && bool_decide (String c EmptyString = "/") then EmptyString
      else String c rest
  end.

(** [RadarrService.request] and [SonarrService.request] called with the
    method GET and no data, as [Search] and [GetExisting] call them; the
    two differ in the settings they read and in the name that appears in
    their messages.  The URL built is taken to be one that
    [http.NewRequest] accepts.  The result is
    an [interface{}]: [Some v] on success ([v] may be JSON [null]), [None]
    with the error. *)
Definition arrRequest (s : Service) (name urlSetting keySetting endpoint : string)
    : M (option json * option error) :=
  let arrURL := db_GetSetting s urlSetting in
  let apiKey := db_GetSetting s keySetting in
  if is_empty arrURL || is_empty apiKey
  then mret (None, Some (Errorf (name +:+ " not configured")))
  else
    let url := trimRightSlash arrURL +:+ "/api/v3/" +:+ endpoint in
    reply ← roundtrip s (ArrGet url apiKey);
    match reply with
    | TransportError => mret (None, Some ErrTransport)
    | Response status body =>
        if (status <? 200) || (300 <=? status)
        then mret (None, Some (Errorf (name +:+ " returned " +:+ fmt_d status)))
        else match body with
             | None => mret (None, Some ErrDecode)
             | Some result => mret (Some result, None)
             end
    end.

(** The body shared by [Search] and [GetExisting], which differ in the
    endpoint; a nil slice is returned as the empty one. *)
Definition arrList (s : Service) (name urlSetting keySetting endpoint : string)
    : M (list object * option error) :=
  '(result, err) ← arrRequest s name urlSetting keySetting endpoint;
  match err with
  | Some e => mret ([], Some e)
  | None =>
      match result ≫= as_array with
      | Some arr =>
          items ← must (mapM as_object arr);
          mret (items, None)
      | None => mret ([], None)
      end
  end.

(** The loop of [CheckExists]. *)
Definition existsIn (field : string) (id : Z) (existing : list object) : bool :=
  existsb (λ m, match as_float64 (index m field) with
                | Some v => float_to_int v =? id
                | None => false
                end) existing.

Module radarr.

Definition request (s : Service) (endpoint : string) : M (option json * option error) :=
  arrRequest s "Radarr" "radarr_url" "radarr_api_key" endpoint.

Definition Search (s : Service) (term : string) : M (list object * option error) :=
  arrList s "Radarr" "radarr_url" "radarr_api_key" ("movie/lookup?term=" +:+ term).

Definition GetExisting (s : Service) : M (list object * option error) :=
  arrList s "Radarr" "radarr_url" "radarr_api_key" "movie".

Definition CheckExists (s : Service) (tmdbID : Z) : M (bool * option error) :=
  '(existing, err) ← GetExisting s;
  match err with
  | Some e => mret (false, Some e)
  | None => mret (existsIn "tmdbId" tmdbID existing, None)
  end.

End radarr.

Module sonarr.

Definition request (s : Service) (endpoint : string) : M (option json * option error) :=
  arrRequest s "Sonarr" "sonarr_url" "sonarr_api_key" endpoint.

Definition Search (s : Service) (term : string) : M (list object * option error) :=
  arrList s "Sonarr" "sonarr_url" "sonarr_api_key" ("series/lookup?term=" +:+ term).

Definition GetExisting (s : Service) : M (list object * option error) :=
  arrList s "Sonarr" "sonarr_url" "sonarr_api_key" "series".

Definition CheckExists (s : Service) (tvdbID : Z) : M (bool * option error) :=
  '(existing, err) ← GetExisting s;
  match err with
  | Some e => mret (false, Some e)
  | None => mret (existsIn "tvdbId" tvdbID existing, None)
  end.

End sonarr.

(** *** handlers.go, the search endpoints *)

Module search.

(** One entry of the answer: the map [enhanced]. *)
Record enhanced : Type := mkEnhanced {
  mediaID : Z;                      (* "tvdbId" or "tmdbId" *)
  copied : list (string * json);    (* the fields passed on as they are *)
  rating : float;
  poster : string;
  fanart : string;
  requestStatus : string;
}.

Inductive response : Type :=
  | errorResponse (message : string) (status : Z)
  | serviceError (err : error) (status : Z)
      (* errorResponse(w, err.Error(), status) *)
  | jsonResults (results : list enhanced).

(** handlers.go 213-218 and 291-296. *)
Definition status (existingIDs requestedIDs : gmap Z bool) (id : Z) : string :=
  if has existingIDs id then "exists"
  else if has requestedIDs id then "requested"
  else "available".

(** The body of the loop over the images (handlers.go 231-240). *)
Definition pickImage (acc : string * string) (img : json) : string * string :=
  let '(poster, fanart) := acc in
  match as_object img with
  | Some imgMap =>
      let coverType := string_or_zero (index imgMap "coverType") in
      let remoteUrl := string_or_zero (index imgMap "remoteUrl") in
      if bool_decide (coverType = "poster") && is_empty poster
      then (remoteUrl, fanart)
      else if bool_decide (coverType = "fanart") && is_empty fanart
      then (poster, remoteUrl)
      else (poster, fanart)
  | None => (poster, fanart)
  end.

Definition pickImages (m : object) : string * string :=
  match as_array (index m "images") with
  | Some images => foldl pickImage ("", "") images
  | None => ("", "")
  end.

Definition seriesRating (series : object) : float :=
  match as_object (index series "ratings") with
  | Some ratings =>
      match as_float64 (index ratings "value") with
      | Some v => v
      | None => 0%float
      end
  | None => 0%float
  end.

Definition movieRating (movie : object) : float :=
  match as_object (index movie "ratings") with
  | Some ratings =>
      match as_object (index ratings "tmdb") with
      | Some tmdbRating =>
          match as_float64 (index tmdbRating "value") with
          | Some v => v
          | None => 0%float
          end
      | None =>
          match as_float64 (index ratings "value") with
          | Some v => v
          | None => 0%float
          end
      end
  | None => 0%float
  end.

Definition copy (m : object) (keys : list string) : list (string * json) :=
  (λ key, (key, index m key)) <$> keys.

(** The body of the loop over the results of [SearchSeries]. *)
Definition enhanceSeries (existingIDs requestedIDs : gmap Z bool) (series : object)
    : enhanced :=
  let tvdbID := getInt series "tvdbId" in
  let '(poster, fanart) := pickImages series in
  mkEnhanced tvdbID (copy series ["title"; "year"; "overview"; "network"; "status"])
    (seriesRating series) poster fanart (status existingIDs requestedIDs tvdbID).

(** The body of the loop over the results of [SearchMovies]. *)
Definition enhanceMovie (existingIDs requestedIDs : gmap Z bool) (movie : object)
    : enhanced :=
  let tmdbID := getInt movie "tmdbId" in
  let '(poster, fanart) := pickImages movie in
  mkEnhanced tmdbID
    (copy movie ["imdbId"; "title"; "year"; "overview"; "studio"; "runtime"])
    (movieRating movie) poster fanart (status existingIDs requestedIDs tmdbID).



End search.

(** ** Vocabulary of the statements *)

(** A provider call that fails: no response, a status other than 200, or
    a body that does not decode. *)
Definition failed (r : http_reply) : Prop :=
  match r with
  | TransportError => True
  | Response status body => status ≠ 200 ∨ decode_object body = None
  end.

(** A payload whose ["ratings"] and ["hits"] arrays, when present, hold
    JSON objects: on any other element the loops over them panic. *)
Definition well_formed_payload (data : object) : Prop :=
  ∀ (key : string) (l : list json),
    key = "ratings" ∨ key = "hits" →
    index data key = JArr l → Forall (λ v, is_Some (as_object v)) l.

Definition well_formed_provider (s : Service) : Prop :=
  ∀ (log : list call) (c : call) (body : option json) (data : object),
    client_Do s log c = Response 200 body →
    decode_object body = Some data → well_formed_payload data.

(** The world after one exchange [c]. *)
Definition after_call (s : Service) (c : call) (w : World) : World :=
  mkWorld (w_cache w) (w_now w + Z.of_N (elapsed s (w_log w) c)) (w_log w ++ [c]).

(** What a run may do to the world when it leaves the cache alone: the
    clock does not go back and the log only grows. *)
Definition extends (w w' : World) : Prop :=
  w_cache w' = w_cache w ∧ w_now w ≤ w_now w' ∧ ∃ l, w_log w' = w_log w ++ l.

(** [keeps p r]: every field populated in [p] has the same value in [r]
    (a score that is set, a certified flag that is raised, the IMDB and
    Metacritic fields, which only the primary provider writes). *)
Definition keeps (p r : RatingsResult) : Prop :=
  (∀ v, RottenTomatoes p = Some v → RottenTomatoes r = Some v)
  ∧ (∀ v, RTAudienceScore p = Some v → RTAudienceScore r = Some v)
  ∧ (RTCertified p = true → RTCertified r = true)
  ∧ IMDB r = IMDB p
  ∧ Metacritic r = Metacritic p.

(** The outcome of a run: what was returned, and the exchanges on record
    when it ended. *)
Definition returned {A} (r : result A) : option A :=
  match r with Ret a _ => Some a | Panic => None end.

Definition final {A} (r : result A) : option World :=
  match r with Ret _ w => Some w | Panic => None end.

Definition calls {A} (r : result A) : list call :=
  match r with Ret _ w => w_log w | Panic => [] end.

(** The exchange [TMDBService.request] makes for an endpoint. *)
Definition tmdbCall (s : Service) (endpoint : string) (params : gmap string string)
    : call :=
  TMDBGet endpoint (params ∪ {["api_key" := db_GetSetting s "tmdb_api_key"]}).

(** The world after [cache.Set(key, v)]. *)
Definition after_Set (key : string) (v : any) (w : World) : World :=
  mkWorld (cache.Set_ (w_cache w) (w_now w) key v) (w_now w) (w_log w).




(** The fields of an enriched item that are read off the raw result. *)
Definition displays (dateKey titleKey : string) (m : object) (it : MediaItem) : Prop :=
  TmdbID it = getInt m "id"
  ∧ Title it = getString m titleKey
  ∧ Year it = yearOf m dateKey
  ∧ Overview it = getString m "overview"
  ∧ Rating it = ratingOf m
  ∧ VoteCount it = getInt m "vote_count"
  ∧ Poster it = posterOf m
  ∧ Fanart it = backdropOf m
  ∧ Source it = "tmdb".

(** Sorting the exchanges on record by collaborator. *)
Definition is_tmdb (c : call) : bool :=
  match c with TMDBGet _ _ => true | _ => false end.


(** What an exchange was addressed to. *)
Definition endpoint_of (c : call) : string :=
  match c with
  | MDBListGet _ => "mdblist"
  | AlgoliaQuery _ => "content_rt"
  | TMDBGet endpoint _ => endpoint
  | ArrGet url _ => url
  | LedgerQuery _ => "requests"
  end.


Definition cached_keys {A} (r : result A) : option (list string) :=
  match final r with
  | Some w => Some (map fst (map_to_list (cache.items (w_cache w))))
  | None => None
  end.






(** The worlds the server can be in: it starts with the empty cache of
    [main.go]; time passes; the sweep runs; the services are called. *)
Inductive reachable (s : Service) : World → Prop :=
  | reach_start (now : Z) :
      reachable s (mkWorld (cache.NewCache defaultTTL) now [])
  | reach_wait (w : World) (d : N) :
      reachable s w →
      reachable s (mkWorld (w_cache w) (w_now w + Z.of_N d) (w_log w))
  | reach_sweep (w : World) :
      reachable s w →
      reachable s (mkWorld (cache.cleanup (w_cache w) (w_now w)) (w_now w) (w_log w))
  | reach_ratings (w w' : World) (title year mediaType imdbID : string)
      (tmdbID : Z) (x : RatingsResult * option error) :
      reachable s w →
      GetRatings s title year mediaType imdbID tmdbID w = Ret x w' →
      reachable s w'
  | reach_movies (w w' : World) (sched : list nat) (page : Z)
      (sortBy year : string) (x : list MediaItem * Z * option error) :
      reachable s w →
      DiscoverMovies s sched page sortBy year w = Ret x w' →
      reachable s w'
  | reach_tv (w w' : World) (sched : list nat) (page : Z)
      (sortBy year : string) (x : list MediaItem * Z * option error) :
      reachable s w →
      DiscoverTV s sched page sortBy year w = Ret x w' →
      reachable s w'.

(** ** Vocabulary of the further properties *)

(** *** A history of cache operations *)

Inductive cache_op (V : Type) : Type :=
  | OpSet (key : string) (v : V)
  | OpSetWithTTL (key : string) (v : V) (d : Z)
  | OpDelete (key : string)
  | OpSweep.
Arguments OpSet {V} _ _.
Arguments OpSetWithTTL {V} _ _ _.
Arguments OpDelete {V} _.
Arguments OpSweep {V}.

(** One operation, executed at the instant [e.1]. *)
Definition apply_op {V} (c : cache.Cache V) (e : Z * cache_op V) : cache.Cache V :=
  match e.2 with
  | OpSet key v => cache.Set_ c e.1 key v
  | OpSetWithTTL key v d => cache.SetWithTTL c e.1 key v d
  | OpDelete key => cache.Delete c key
  | OpSweep => cache.cleanup c e.1
  end.

Definition run_ops {V} (c : cache.Cache V) (h : list (Z * cache_op V))
    : cache.Cache V :=
  foldl apply_op c h.

(** What a map with expiry holds for [key] after the history [h]: the
    value and expiration instant of the last write to [key], unless a
    [Delete] of [key] came after it; [acc] is what it held before. *)
Fixpoint last_write {V} (ttl : Z) (key : string) (h : list (Z * cache_op V))
    (acc : option (V * Z)) : option (V * Z) :=
  match h with
  | [] => acc
  | (t, o) :: h =>
      last_write ttl key h
        match o with
        | OpSet k v => if bool_decide (k = key) then Some (v, t + ttl) else acc
        | OpSetWithTTL k v d => if bool_decide (k = key) then Some (v, t + d) else acc
        | OpDelete k => if bool_decide (k = key) then None else acc
        | OpSweep => acc
        end
  end.

(** *** Ratings *)

(** The source and the value of one entry of MDBList's [ratings] array, as
    the loop reads them (ratings.go 126-127). *)
Definition rating_source (m : object) : string := string_or_zero (index m "source").
Definition rating_value (m : object) : float := float_or_zero (index m "value").

(** The exchanges [GetRatings] can make. *)
Definition is_mdblist (c : call) : bool :=
  match c with MDBListGet _ => true | _ => false end.
Definition is_algolia (c : call) : bool :=
  match c with AlgoliaQuery _ => true | _ => false end.

(** *** Runs of the services *)

(** [steps R m]: every run of [m] that returns takes the world it starts in
    to a world related to it by [R]. *)
Definition steps (R : World → World → Prop) {A} (m : M A) : Prop :=
  ∀ (w w' : World) (a : A), m w = Ret a w' → R w w'.

(** The clock does not go back, the log only grows and the default TTL of
    the cache stays what it is. *)
Definition advances (w w' : World) : Prop :=
  w_now w ≤ w_now w'
  ∧ cache.ttl (w_cache w') = cache.ttl (w_cache w)
  ∧ ∃ l, w_log w' = w_log w ++ l.

(** The query string [TMDBService.request] sends. *)
Definition tmdbQuery (s : Service) (params : gmap string string)
    : gmap string string :=
  params ∪ {["api_key" := db_GetSetting s "tmdb_api_key"]}.


(** *** The library *)


(** The exchanges of the two library fetches. *)
Definition radarrCall (s : Service) : call :=
  ArrGet (db_GetSetting s "radarr_url" +:+ "/api/v3/movie")
         (db_GetSetting s "radarr_api_key").

Definition sonarrCall (s : Service) : call :=
  ArrGet (db_GetSetting s "sonarr_url" +:+ "/api/v3/series")
         (db_GetSetting s "sonarr_api_key").

(** *** The exchanges of one page *)

(** [page_log first library ledger n l]: the exchanges [l] are, in this
    order, at most one discovery request, at most one library fetch, at
    most one ledger query, and at most [n] further requests to TMDB. *)
Definition page_log (first library ledger : call) (n : nat) (l : list call) : Prop :=
  ∃ l1 l2 l3 l4,
    l = l1 ++ l2 ++ l3 ++ l4
    ∧ (l1 = [] ∨ l1 = [first])
    ∧ (l2 = [] ∨ l2 = [library])
    ∧ (l3 = [] ∨ l3 = [ledger])
    ∧ Forall (λ c, is_tmdb c = true) l4
    ∧ (length l4 ≤ n)%nat.

(** *** What a run writes in the cache *)

(** Only entries whose key satisfies [K] may differ between [w] and [w']. *)
Definition writes_only (K : string → Prop) (w w' : World) : Prop :=
  ∀ key : string,
    ¬ K key → cache.items (w_cache w') !! key = cache.items (w_cache w) !! key.

(** The keys a page of movies, and a page of shows, may write. *)
Definition movie_page_key (key : string) : Prop :=
  key = "existing_movies" ∨ ∃ tmdbID, key = movieCacheKey tmdbID.

Definition show_page_key (key : string) : Prop :=
  key = "existing_series" ∨ ∃ tmdbID, key = tvCacheKey tmdbID.

(** *** How long the cache keeps an entry *)

Definition is_library_key (key : string) : bool :=
  bool_decide (key = "existing_movies") || bool_decide (key = "existing_series").

(** No entry of the cache outlives its TTL: the library sets expire at
    most two minutes from now, every other entry at most ten, and the
    default TTL is the one [main.go] chose. *)
Definition fresh (w : World) : Prop :=
  cache.ttl (w_cache w) = defaultTTL
  ∧ ∀ (key : string) (it : cache.item any),
      cache.items (w_cache w) !! key = Some it →
      cache.expiration it
      ≤ w_now w + (if is_library_key key then existingTTL else defaultTTL).

Definition stays_fresh (w w' : World) : Prop := fresh w → fresh w'.

(** *** The discovery endpoints *)


(** *** The library, asked by the request flow *)

(** The exchanges of the two [CheckExists]. *)
Definition radarrCheck (s : Service) : call :=
  ArrGet (trimRightSlash (db_GetSetting s "radarr_url") +:+ "/api/v3/" +:+ "movie")
         (db_GetSetting s "radarr_api_key").

Definition sonarrCheck (s : Service) : call :=
  ArrGet (trimRightSlash (db_GetSetting s "sonarr_url") +:+ "/api/v3/" +:+ "series")
         (db_GetSetting s "sonarr_api_key").

(** A status code in the range the two services accept. *)
Definition is_2xx (status : Z) : bool := (200 <=? status) && (status <? 300).

(** *** The search endpoints *)



(** The address of the first image of the kind [coverType] that has one:
    what one expects the loop over the images to select. *)
Definition cover_url (coverType : string) (img : json) : option string :=
  match as_object img with
  | Some imgMap =>
      if bool_decide (string_or_zero (index imgMap "coverType") = coverType)
         && negb (is_empty (string_or_zero (index imgMap "remoteUrl")))
      then Some (string_or_zero (index imgMap "remoteUrl"))
      else None
  | None => None
  end.

Definition first_cover (coverType : string) (images : list json) : string :=
  default "" (head (omap (cover_url coverType) images)).

(** ** Concrete data used in the examples *)

(** The candidates [{"Foo",2001},{"Foo",1999}]. *)
Definition example_hits_years : list object :=
  [ <["title" := JStr "Foo"]> (<["releaseYear" := JNum 2001%float]> ∅);
    <["title" := JStr "Foo"]> (<["releaseYear" := JNum 1999%float]> ∅) ].

(** The candidates [{"Bar",""},{"Foo",""}]: no release year. *)
Definition example_hits_titles : list object :=
  [ <["title" := JStr "Bar"]> ∅; <["title" := JStr "Foo"]> ∅ ].

(** An id set holding 603, used both as library and as ledger. *)
Definition example_both : gmap Z bool := <[603 := true]> ∅.

(** Settings of a fully configured installation. *)
Definition example_settings (key : string) : string :=
  if bool_decide (key = "mdblist_api_key") then "mdb-key"
  else if bool_decide (key = "tmdb_api_key") then "tmdb-key"
  else if bool_decide (key = "radarr_url") then "http://radarr:7878"
  else if bool_decide (key = "radarr_api_key") then "radarr-key"
  else if bool_decide (key = "sonarr_url") then "http://sonarr:8989"
  else if bool_decide (key = "sonarr_api_key") then "sonarr-key"
  else "".

(** Every provider is unreachable and the ledger cannot be read. *)
Definition offline : Service :=
  mkService example_settings (λ _ _, None) (λ _ _, TransportError) (λ _ _, 1%N).

(** Providers that always give the same answers: [mdb] from MDBList and
    [rt] from the Rotten Tomatoes index. *)
Definition stub (mdb rt : json) : Service :=
  mkService example_settings (λ _ _, None)
    (λ _ c, match c with
            | MDBListGet _ => Response 200 (Some mdb)
            | AlgoliaQuery _ => Response 200 (Some rt)
            | _ => TransportError
            end)
    (λ _ _, 1%N).

Definition mdb_answer (source : string) (v : float) : json :=
  JObj (<["ratings" :=
           JArr [JObj (<["source" := JStr source]> (<["value" := JNum v]> ∅))]]> ∅).

(** One hit "Foo" with critics score 60 and audience score 50. *)
Definition rt_answer : json :=
  JObj (<["hits" :=
           JArr [JObj (<["title" := JStr "Foo"]>
                        (<["rottenTomatoes" :=
                             JObj (<["criticsScore" := JNum 60%float]>
                                    (<["audienceScore" := JNum 50%float]> ∅))]> ∅))]]> ∅).

(** A catalogue with one page of three movies.  The details of 603 carry
    an IMDB id, the detail call for 604 (movie or show) fails, every other
    detail call succeeds without any external id.  The library holds 603
    and the ledger holds 604. *)
Definition movie_result (id : float) (title date : string) : json :=
  JObj (<["id" := JNum id]>
         (<["title" := JStr title]> (<["release_date" := JStr date]> ∅))).

Definition discover_data : object :=
  <["results" :=
      JArr [movie_result 603%float "The Matrix" "1999-03-30";
            movie_result 604%float "The Matrix Reloaded" "2003-05-15";
            movie_result 605%float "The Matrix Revolutions" "2003-11-05"]]>
    (<["total_pages" := JNum 1%float]> ∅).

Definition discover_page : json := JObj discover_data.

Definition details_603 : json :=
  JObj (<["external_ids" := JObj (<["imdb_id" := JStr "tt0133093"]> ∅)]> ∅).

Definition catalog_http (c : call) : http_reply :=
  match c with
  | TMDBGet endpoint _ =>
      if bool_decide (endpoint = "discover/movie") then Response 200 (Some discover_page)
      else if bool_decide (endpoint = "movie/603") then Response 200 (Some details_603)
      else if bool_decide (endpoint = "movie/604") then TransportError
      else if bool_decide (endpoint = "tv/604") then TransportError
      else Response 200 (Some (JObj ∅))
  | ArrGet _ _ =>
      Response 200 (Some (JArr [JObj (<["tmdbId" := JNum 603%float]> ∅)]))
  | _ => TransportError
  end.

Definition catalog : Service :=
  mkService example_settings (λ _ _, Some [604]) (λ _ c, catalog_http c)
    (λ _ _, 1%N).




(** A freshly started server: the cache of [main.go], nothing asked yet. *)
Definition world0 : World := mkWorld (cache.NewCache defaultTTL) 0 [].

(** Two discovery calls in a row on the example catalogue, the second one
    started in the world the first one left. *)
Definition first_page : result (list MediaItem * Z * option error) :=
  DiscoverMovies catalog [2; 0; 1]%nat 1 "popularity.desc" "" world0.


(** *** A catalogue of shows

    One page of two shows.  The details of 1399 carry a TVDB and an IMDB
    id, the detail call for 1396 fails.  The library holds the TVDB id
    121361 and the ledger holds 81189. *)
Definition example_shows : list object :=
  [ <["id" := JNum 1399%float]>
      (<["name" := JStr "Game of Thrones"]>
        (<["first_air_date" := JStr "2011-04-17"]> ∅));
    <["id" := JNum 1396%float]>
      (<["name" := JStr "Breaking Bad"]>
        (<["first_air_date" := JStr "2008-01-20"]> ∅)) ].

Definition shows_data : object :=
  <["results" := JArr (JObj <$> example_shows)]>
    (<["total_pages" := JNum 731%float]> ∅).

Definition details_1399 : object :=
  <["external_ids" :=
      JObj (<["tvdb_id" := JNum 121361%float]>
             (<["imdb_id" := JStr "tt0944947"]> ∅))]> ∅.

Definition shows_http (c : call) : http_reply :=
  match c with
  | TMDBGet endpoint _ =>
      if bool_decide (endpoint = "discover/tv") then Response 200 (Some (JObj shows_data))
      else if bool_decide (endpoint = "tv/1399")
        then Response 200 (Some (JObj details_1399))
      else TransportError
  | ArrGet _ _ =>
      Response 200 (Some (JArr [JObj (<["tvdbId" := JNum 121361%float]> ∅)]))
  | _ => TransportError
  end.

Definition shows : Service :=
  mkService example_settings (λ _ _, Some [81189]) (λ _ c, shows_http c)
    (λ _ _, 1%N).





(** A search result with five images: one that is not an object, a poster
    without address, a fan art, and two posters. *)
Definition image (coverType remoteUrl : string) : json :=
  JObj (<["coverType" := JStr coverType]> (<["remoteUrl" := JStr remoteUrl]> ∅)).

Definition example_images : list json :=
  [JStr "banner.jpg"; JObj (<["coverType" := JStr "poster"]> ∅);
   image "fanart" "f1.jpg"; image "poster" "p1.jpg"; image "poster" "p2.jpg"].

Definition example_result : object := <["images" := JArr example_images]> ∅.

(** A library and a ledger that hold the id 0. *)
Definition example_zero : gmap Z bool := <[0 := true]> ∅.

(* ===================================================================== *)
(** * Part II: the properties *)
(* ===================================================================== *)

#[local] Arguments float_to_int : simpl never.
#[local] Arguments float_of_int : simpl never.
#[local] Arguments fmt_d : simpl never.
#[local] Arguments fmt_f0 : simpl never.
#[local] Arguments fmt_f1 : simpl never.

(** ** The cache *)

Section CacheFacts.
Context {V : Type}.
Implicit Types (c : cache.Cache V) (it : cache.item V).

Lemma After_true (t u : Z) : cache.After t u = true ↔ u < t.
Proof. unfold cache.After. apply Z.ltb_lt. Qed.

Lemma After_false (t u : Z) : cache.After t u = false ↔ t ≤ u.
Proof. unfold cache.After. apply Z.ltb_ge. Qed.

Lemma Get_Some c now key v :
  cache.Get c now key = Some v ↔
  ∃ it, cache.items c !! key = Some it ∧ now ≤ cache.expiration it
        ∧ cache.value it = v.
Proof.
  unfold cache.Get. split.
  - destruct (cache.items c !! key) as [it|]; [|discriminate].
    destruct (cache.After now (cache.expiration it)) eqn:E; [discriminate|].
    intros [= <-]. exists it. by rewrite <- After_false.
  - intros (it & -> & Hle & <-).
    apply After_false in Hle. by rewrite Hle.
Qed.

Lemma Get_None c now key :
  cache.Get c now key = None ↔
  cache.items c !! key = None
  ∨ ∃ it, cache.items c !! key = Some it ∧ cache.expiration it < now.
Proof.
  unfold cache.Get. split.
  - destruct (cache.items c !! key) as [it|]; [|by left].
    destruct (cache.After now (cache.expiration it)) eqn:E; [|discriminate].
    intros _. right. exists it. by rewrite <- After_true.
  - intros [-> | (it & -> & Hlt)]; [done|].
    apply After_true in Hlt. by rewrite Hlt.
Qed.

Lemma cleanup_lookup_Some c t key it :
  cache.items (cache.cleanup c t) !! key = Some it ↔
  cache.items c !! key = Some it ∧ t ≤ cache.expiration it.
Proof.
  unfold cache.cleanup; simpl. rewrite map_lookup_filter_Some; simpl.
  by rewrite After_false.
Qed.

Lemma cleanup_lookup_None c t key :
  cache.items (cache.cleanup c t) !! key = None ↔
  cache.items c !! key = None
  ∨ ∃ it, cache.items c !! key = Some it ∧ cache.expiration it < t.
Proof.
  destruct (cache.items (cache.cleanup c t) !! key) as [it|] eqn:E.
  - apply cleanup_lookup_Some in E as [E Hle]. split; [discriminate|].
    intros [E' | (it' & E' & Hlt)]; rewrite E in E'; [discriminate|].
    injection E' as ->. lia.
  - split; [|done]. intros _.
    destruct (cache.items c !! key) as [it|] eqn:E'; [|by left].
    right. exists it. split; [done|].
    destruct (Z.lt_ge_cases (cache.expiration it) t) as [|Hle]; [done|].
    assert (cache.items (cache.cleanup c t) !! key = Some it) as E''
      by (by apply cleanup_lookup_Some).
    rewrite E in E''. discriminate.
Qed.

(** A sweep that ran no later than the read does not change the read. *)
Lemma Get_cleanup c t now key :
  t ≤ now → cache.Get (cache.cleanup c t) now key = cache.Get c now key.
Proof.
  intros Htn.
  destruct (cache.Get c now key) as [v|] eqn:E.
  - apply Get_Some in E as (it & E & Hle & Hv). apply Get_Some.
    exists it. split_and!; [|done..]. apply cleanup_lookup_Some. split; [done|lia].
  - apply Get_None. apply Get_None in E as [E | (it & E & Hlt)].
    + left. apply cleanup_lookup_None. by left.
    + destruct (cache.items (cache.cleanup c t) !! key) as [it'|] eqn:E';
        [|by left].
      apply cleanup_lookup_Some in E' as [E' _].
      rewrite E in E'. injection E' as <-. right. by exists it.
Qed.

Lemma Get_sweeps c (sweeps : list Z) now key :
  Forall (λ t, t ≤ now) sweeps →
  cache.Get (foldl cache.cleanup c sweeps) now key = cache.Get c now key.
Proof.
  intros H. revert c. induction H as [|t sweeps Ht _ IH]; intros c; [done|].
  simpl. rewrite IH. by apply Get_cleanup.
Qed.

Lemma Get_SetWithTTL c t key v d now :
  cache.Get (cache.SetWithTTL c t key v d) now key
  = if cache.After now (t + d) then None else Some v.
Proof. unfold cache.Get, cache.SetWithTTL; simpl. by rewrite lookup_insert_eq. Qed.

Lemma Get_Set c t key v now :
  cache.Get (cache.Set_ c t key v) now key
  = if cache.After now (t + cache.ttl c) then None else Some v.
Proof. unfold cache.Get, cache.Set_; simpl. by rewrite lookup_insert_eq. Qed.

Lemma Get_Set_ne c t key key' v now :
  key ≠ key' →
  cache.Get (cache.Set_ c t key v) now key' = cache.Get c now key'.
Proof.
  intros Hne. unfold cache.Get, cache.Set_; simpl. by rewrite lookup_insert_ne.
Qed.

Lemma Get_SetWithTTL_ne c t key key' v d now :
  key ≠ key' →
  cache.Get (cache.SetWithTTL c t key v d) now key' = cache.Get c now key'.
Proof.
  intros Hne. unfold cache.Get, cache.SetWithTTL; simpl.
  by rewrite lookup_insert_ne.
Qed.

(** A miss stays a miss as long as nobody writes the key. *)
Lemma Get_None_later c now now' key :
  now ≤ now' → cache.Get c now key = None → cache.Get c now' key = None.
Proof.
  intros Hle. rewrite !Get_None. intros [E | (it & E & Hlt)]; [by left|].
  right. exists it. split; [done|lia].
Qed.

End CacheFacts.

(** C2.  [Get] reports [found = false] exactly when the key is absent from
    the store or the entry's expiration instant has passed at the instant
    of the read; and whatever sweeps have run up to that instant, the
    answer of [Get] (value and found alike) is the one it gives on the
    unswept store. *)
Theorem C2_get_is_lazy_and_sweep_independent :
  ∀ (V : Type) (c : cache.Cache V) (now : Z) (key : string),
    (cache.Get c now key = None ↔
       cache.items c !! key = None
       ∨ ∃ it, cache.items c !! key = Some it ∧ cache.expiration it < now)
    ∧ ∀ sweeps : list Z,
        Forall (λ t, t ≤ now) sweeps →
        cache.Get (foldl cache.cleanup c sweeps) now key = cache.Get c now key.
Proof.
  intros V c now key. split; [apply Get_None|].
  intros sweeps. apply Get_sweeps.
Qed.

Lemma C2_witness :
  Forall (λ t, t ≤ 100) [10; 60; 100]
  ∧ cache.Get (foldl cache.cleanup
                 (cache.SetWithTTL (cache.NewCache 600) 0 "k" "v" 50)
                 [10; 60; 100]) 100 "k"
    = cache.Get (cache.SetWithTTL (cache.NewCache 600) 0 "k" "v" 50) 100 "k".
Proof.
  assert (Forall (λ t, t ≤ 100) [10; 60; 100]) as H
    by (repeat constructor; lia).
  split; [exact H|].
  exact (proj2 (C2_get_is_lazy_and_sweep_independent string
                  (cache.SetWithTTL (cache.NewCache 600) 0 "k" "v" 50)
                  100 "k") [10; 60; 100] H).
Defined.

(** C9.  Expiry is strict.  An entry stored with expiration instant [E]
    (by [Set] at [t] with [E = t + ttl], or by [SetWithTTL] at [t] with
    [E = t + d]) is returned with [found = true] by every [Get] at an
    instant [now ≤ E], [now = E] included, and is reported absent only at
    [E < now]; the sweep at an instant [now] removes an entry under the
    same strict comparison. *)
Theorem C9_expiry_is_strict :
  ∀ (V : Type) (c : cache.Cache V) (key : string),
    (∀ t v now,
       (now ≤ t + cache.ttl c → cache.Get (cache.Set_ c t key v) now key = Some v)
       ∧ (cache.Get (cache.Set_ c t key v) now key = None ↔ t + cache.ttl c < now))
    ∧ (∀ t v d now,
       (now ≤ t + d → cache.Get (cache.SetWithTTL c t key v d) now key = Some v)
       ∧ (cache.Get (cache.SetWithTTL c t key v d) now key = None ↔ t + d < now))
    ∧ (∀ it now,
       cache.items c !! key = Some it →
       (now ≤ cache.expiration it → cache.Get c now key = Some (cache.value it))
       ∧ (cache.Get c now key = None ↔ cache.expiration it < now)
       ∧ (cache.items (cache.cleanup c now) !! key = None
          ↔ cache.expiration it < now)).
Proof.
  intros V c key. split_and!.
  - intros t v now. rewrite Get_Set.
    destruct (cache.After now (t + cache.ttl c)) eqn:E.
    + apply After_true in E. split; [lia|done].
    + apply After_false in E. split; [done|]. split; [discriminate|lia].
  - intros t v d now. rewrite Get_SetWithTTL.
    destruct (cache.After now (t + d)) eqn:E.
    + apply After_true in E. split; [lia|done].
    + apply After_false in E. split; [done|]. split; [discriminate|lia].
  - intros it now Hit. split_and!.
    + intros Hle. apply Get_Some. by exists it.
    + rewrite Get_None. split.
      * intros [E | (it' & E & Hlt)]; rewrite Hit in E; [discriminate|].
        by injection E as <-.
      * intros Hlt. right. by exists it.
    + rewrite cleanup_lookup_None. split.
      * intros [E | (it' & E & Hlt)]; rewrite Hit in E; [discriminate|].
        by injection E as <-.
      * intros Hlt. right. by exists it.
Qed.

Lemma C9_witness :
  (5 + 7 ≤ 5 + 7
   ∧ cache.Get (cache.SetWithTTL (cache.NewCache 600) 5 "k" "v" 7) (5 + 7) "k"
     = Some "v")
  ∧ (5 + 600 ≤ 5 + 600
     ∧ cache.Get (cache.Set_ (cache.NewCache 600) 5 "k" "v") (5 + 600) "k"
       = Some "v")
  ∧ (cache.items (cache.Set_ (cache.NewCache 600) 5 "k" "v") !! "k"
     = Some (cache.mkItem "v" 605)
     ∧ cache.Get (cache.Set_ (cache.NewCache 600) 5 "k" "v") 605 "k" = Some "v"
     ∧ (cache.items (cache.cleanup (cache.Set_ (cache.NewCache 600) 5 "k" "v") 606)
          !! "k" = None)).
Proof.
  pose proof (C9_expiry_is_strict string (cache.NewCache 600) "k")
    as (HSet & HTTL & _).
  pose proof (C9_expiry_is_strict string
                (cache.Set_ (cache.NewCache 600) 5 "k" "v") "k")
    as (_ & _ & Hit).
  split; [|split].
  - split; [lia|]. apply (proj1 (HTTL 5 "v" 7 (5 + 7))). lia.
  - split; [lia|]. apply (proj1 (HSet 5 "v" (5 + 600))). simpl. lia.
  - split; [reflexivity|]. split.
    + apply (proj1 (Hit (cache.mkItem "v" 605) 605 eq_refl)). simpl. lia.
    + apply (proj2 (proj2 (Hit (cache.mkItem "v" 605) 606 eq_refl))). simpl. lia.
Defined.

(** ** The fallback matcher *)

(** [exactMatch] spelled out: same title, a target year, a release year
    that is present, and the two years equal. *)
Lemma exactMatch_true (title year : string) (hit : object) :
  exactMatch title year hit = true ↔
  string_or_zero (index hit "title") = title
  ∧ year ≠ ""
  ∧ float_pos (float_or_zero (index hit "releaseYear")) = true
  ∧ fmt_f0 (float_or_zero (index hit "releaseYear")) = year.
Proof.
  unfold exactMatch, is_empty.
  rewrite !andb_true_iff, negb_true_iff, !bool_decide_eq_true,
    bool_decide_eq_false.
  tauto.
Qed.

Lemma findBestMatch_cons (title year : string) (best : option object)
    (h : object) (rest : list json) :
  findBestMatch title year best (JObj h :: rest)
  = if exactMatch title year h then Some (Some h)
    else findBestMatch title year (Some (default h best)) rest.
Proof.
  unfold exactMatch; simpl.
  destruct (bool_decide (string_or_zero (index h "title") = title)); simpl;
    [destruct (negb (is_empty year) && _ && _)|]; by destruct best.
Qed.

(** Once the fallback slot is taken, only an exact match replaces it. *)
Lemma findBestMatch_no_exact (title year : string) (best : option object)
    (hits : list object) :
  Forall (λ h, exactMatch title year h = false) hits →
  findBestMatch title year best (JObj <$> hits)
  = Some (match best with Some b => Some b | None => head hits end).
Proof.
  intros H. revert best. induction H as [|h hits Hh _ IH]; intros best.
  - by destruct best.
  - rewrite fmap_cons, findBestMatch_cons, Hh, IH. by destruct best.
Qed.

Lemma findBestMatch_first_exact (title year : string) (best : option object)
    (pre : list object) (h : object) (post : list json) :
  Forall (λ x, exactMatch title year x = false) pre →
  exactMatch title year h = true →
  findBestMatch title year best ((JObj <$> pre) ++ JObj h :: post)
  = Some (Some h).
Proof.
  intros H Hh. revert best. induction H as [|x pre Hx _ IH]; intros best.
  - simpl app. by rewrite findBestMatch_cons, Hh.
  - rewrite fmap_cons. simpl app. by rewrite findBestMatch_cons, Hx, IH.
Qed.

(** C1.  The matcher is one left-to-right scan.  The first candidate that
    matches the title exactly, under a non-empty target year equal to its
    own (present) year, is returned, and nothing after it is looked at;
    when no candidate matches in that way the first candidate of the list
    is returned whatever its title; no match is returned only for the empty
    list.  The test for such a match is spelled out, and the two examples
    of the specification are included. *)
Theorem C1_fallback_matcher :
  (∀ (title year : string) (pre : list object) (h : object) (post : list json),
     Forall (λ x, exactMatch title year x = false) pre →
     exactMatch title year h = true →
     findBestMatch title year None ((JObj <$> pre) ++ JObj h :: post)
     = Some (Some h))
  ∧ (∀ (title year : string) (hits : list object),
       Forall (λ x, exactMatch title year x = false) hits →
       findBestMatch title year None (JObj <$> hits) = Some (head hits))
  ∧ (∀ (title year : string) (hits : list object),
       findBestMatch title year None (JObj <$> hits) = Some None ↔ hits = [])
  ∧ (∀ (title year : string) (hit : object),
       exactMatch title year hit = true ↔
       string_or_zero (index hit "title") = title
       ∧ year ≠ ""
       ∧ float_pos (float_or_zero (index hit "releaseYear")) = true
       ∧ fmt_f0 (float_or_zero (index hit "releaseYear")) = year)
  ∧ (findBestMatch "Foo" "1999" None (JObj <$> example_hits_years)
     = Some (example_hits_years !! 1%nat)
     ∧ example_hits_years !! 1%nat
       = Some (<["title" := JStr "Foo"]> (<["releaseYear" := JNum 1999%float]> ∅)))
  ∧ (findBestMatch "Foo" "" None (JObj <$> example_hits_titles)
     = Some (example_hits_titles !! 0%nat)
     ∧ example_hits_titles !! 0%nat = Some (<["title" := JStr "Bar"]> ∅)).
Proof.
  split_and!.
  - intros title year pre h post. apply findBestMatch_first_exact.
  - intros title year hits H. by rewrite findBestMatch_no_exact.
  - intros title year hits. split; [|by intros ->].
    destruct hits as [|h hits]; [done|].
    rewrite fmap_cons, findBestMatch_cons.
    destruct (exactMatch title year h); [discriminate|].
    intros H. exfalso. revert H. simpl. generalize h at 1.
    induction hits as [|x hits IH]; intros b; [discriminate|].
    rewrite fmap_cons, findBestMatch_cons.
    destruct (exactMatch title year x); [discriminate|]. apply IH.
  - apply exactMatch_true.
  - vm_compute. reflexivity.
  - reflexivity.
  - vm_compute. reflexivity.
  - reflexivity.
Qed.

Lemma C1_witness :
  Forall (λ x, exactMatch "Foo" "1999" x = false) (take 1 example_hits_years)
  ∧ findBestMatch "Foo" "1999" None
      ((JObj <$> take 1 example_hits_years)
       ++ JObj (<["title" := JStr "Foo"]> (<["releaseYear" := JNum 1999%float]> ∅))
       :: [JNull])
    = Some (Some (<["title" := JStr "Foo"]> (<["releaseYear" := JNum 1999%float]> ∅)))
  ∧ Forall (λ x, exactMatch "Foo" "" x = false) example_hits_titles
  ∧ findBestMatch "Foo" "" None (JObj <$> example_hits_titles)
    = Some (head example_hits_titles).
Proof.
  assert (Forall (λ x, exactMatch "Foo" "1999" x = false)
            (take 1 example_hits_years)) as H1
    by (repeat constructor).
  assert (Forall (λ x, exactMatch "Foo" "" x = false) example_hits_titles) as H2
    by (repeat constructor).
  destruct C1_fallback_matcher as (Hexact & Hnone & _).
  split_and!.
  - exact H1.
  - apply Hexact; [exact H1|reflexivity].
  - exact H2.
  - apply Hnone. exact H2.
Defined.

(** ** Status of an enriched item *)

(** C6.  The status follows the precedence exists > requested > available.
    For a movie the identifier is the TMDB id; for a show it is the TVDB
    id, which is an identifier only when it is positive ([0] is the unset
    id and gives available).  An identifier in the existing-library set
    gives exists, also when it is in the requested set as well; one that is
    only in the requested set gives requested; any other gives available. *)
Theorem C6_status_precedence :
  ∀ (existingIDs requestedIDs : gmap Z bool) (id : Z),
    (has existingIDs id = true →
       movieStatus existingIDs requestedIDs id = "exists")
    ∧ (has existingIDs id = false → has requestedIDs id = true →
       movieStatus existingIDs requestedIDs id = "requested")
    ∧ (has existingIDs id = false → has requestedIDs id = false →
       movieStatus existingIDs requestedIDs id = "available")
    ∧ (0 < id → has existingIDs id = true →
       seriesStatus existingIDs requestedIDs id = "exists")
    ∧ (0 < id → has existingIDs id = false → has requestedIDs id = true →
       seriesStatus existingIDs requestedIDs id = "requested")
    ∧ (0 < id → has existingIDs id = false → has requestedIDs id = false →
       seriesStatus existingIDs requestedIDs id = "available")
    ∧ (id ≤ 0 → seriesStatus existingIDs requestedIDs id = "available").
Proof.
  intros existingIDs requestedIDs id.
  unfold movieStatus, seriesStatus. split_and!.
  - by intros ->.
  - by intros -> ->.
  - by intros -> ->.
  - intros Hid ->. apply Z.ltb_lt in Hid. by rewrite Hid.
  - intros Hid -> ->. apply Z.ltb_lt in Hid. by rewrite Hid.
  - intros Hid -> ->. apply Z.ltb_lt in Hid. by rewrite Hid.
  - intros Hid. apply Z.ltb_ge in Hid. by rewrite Hid.
Qed.

Lemma C6_witness :
  has example_both 603 = true
  ∧ movieStatus example_both example_both 603 = "exists"
  ∧ (0 < 603 ∧ seriesStatus example_both example_both 603 = "exists")
  ∧ (has ∅ 603 = false
     ∧ movieStatus ∅ example_both 603 = "requested"
     ∧ seriesStatus ∅ example_both 603 = "requested"
     ∧ movieStatus ∅ ∅ 603 = "available"
     ∧ seriesStatus ∅ ∅ 603 = "available")
  ∧ (0 ≤ 0 ∧ seriesStatus example_both example_both 0 = "available").
Proof.
  pose proof (C6_status_precedence example_both example_both 603)
    as (Hm & _ & _ & Hs & _).
  pose proof (C6_status_precedence ∅ example_both 603)
    as (_ & Hmr & _ & _ & Hsr & _).
  pose proof (C6_status_precedence ∅ ∅ 603)
    as (_ & _ & Hma & _ & _ & Hsa & _).
  pose proof (C6_status_precedence example_both example_both 0)
    as (_ & _ & _ & _ & _ & _ & Hz).
  split_and!.
  - reflexivity.
  - apply Hm. reflexivity.
  - lia.
  - apply Hs; [lia|reflexivity].
  - reflexivity.
  - apply Hmr; reflexivity.
  - apply Hsr; [lia|reflexivity..].
  - apply Hma; reflexivity.
  - apply Hsa; [lia|reflexivity..].
  - lia.
  - apply Hz. lia.
Defined.

(** ** Running the monad *)

Lemma bind_run {A B} (m : M A) (f : A → M B) (w : World) :
  (m ≫= f) w = match m w with Ret a w' => f a w' | Panic => Panic end.
Proof. reflexivity. Qed.

Lemma bind_Ret {A B} (m : M A) (f : A → M B) (w w' : World) (a : A) :
  m w = Ret a w' → (m ≫= f) w = f a w'.
Proof. intros H. by rewrite bind_run, H. Qed.

Lemma bind_inv {A B} (m : M A) (f : A → M B) (w w2 : World) (b : B) :
  (m ≫= f) w = Ret b w2 → ∃ a w1, m w = Ret a w1 ∧ f a w1 = Ret b w2.
Proof. rewrite bind_run. destruct (m w) as [a w1|]; [eauto|discriminate]. Qed.

Lemma roundtrip_run (s : Service) (c : call) (w : World) :
  roundtrip s c w = Ret (client_Do s (w_log w) c) (after_call s c w).
Proof. reflexivity. Qed.

Lemma extends_refl (w : World) : extends w w.
Proof. split_and!; [done|lia|]. exists []. by rewrite app_nil_r. Qed.

Lemma extends_trans (w1 w2 w3 : World) :
  extends w1 w2 → extends w2 w3 → extends w1 w3.
Proof.
  intros (Hc1 & Hn1 & l1 & Hl1) (Hc2 & Hn2 & l2 & Hl2). split_and!.
  - congruence.
  - lia.
  - exists (l1 ++ l2). by rewrite Hl2, Hl1, app_assoc.
Qed.

Lemma extends_after_call (s : Service) (c : call) (w : World) :
  extends w (after_call s c w).
Proof. split_and!; [done|simpl; lia|by exists [c]]. Qed.

(** ** The cache stays well typed *)
































(** ** The rating aggregator *)

Lemma applyRatings_total (result : RatingsResult) (l : list json) :
  Forall (λ v, is_Some (as_object v)) l → is_Some (applyRatings result l).
Proof.
  intros H. revert result. induction H as [|v l [m Hm] _ IH]; intros result.
  - by eexists.
  - simpl. unfold applyRating. rewrite Hm. simpl. apply IH.
Qed.

Lemma findBestMatch_total (title year : string) (best : option object)
    (hits : list json) :
  Forall (λ v, is_Some (as_object v)) hits →
  is_Some (findBestMatch title year best hits).
Proof.
  intros H. revert best. induction H as [|v l [m Hm] _ IH]; intros best.
  - by eexists.
  - destruct v; try discriminate. injection Hm as ->.
    rewrite findBestMatch_cons. destruct (exactMatch title year m); [by eexists|].
    apply IH.
Qed.

Lemma keeps_refl (p : RatingsResult) : keeps p p.
Proof. by unfold keeps. Qed.

Lemma keeps_mergeRT (p rt : RatingsResult) : keeps p (mergeRT p rt).
Proof.
  destruct p as [c a f i m], rt as [c' a' f' i' m'].
  unfold keeps, mergeRT; simpl.
  destruct c, a, f'; simpl; split_and!; try done; by intros ->.
Qed.

Lemma mdblistLookup_run (s : Service) (params : gmap string string) (w : World) :
  well_formed_provider s →
  ∃ r e, mdblistLookup s params w = Ret (r, e) (after_call s (MDBListGet params) w)
         ∧ (failed (client_Do s (w_log w) (MDBListGet params)) → r = None).
Proof.
  intros Hwf. unfold mdblistLookup. rewrite bind_run, roundtrip_run.
  destruct (client_Do s (w_log w) (MDBListGet params)) as [|status body] eqn:E.
  { by eexists _, _. }
  destruct (status =? 200) eqn:Est; simpl; [|by eexists _, _].
  apply Z.eqb_eq in Est as ->.
  destruct (decode_object body) as [data|] eqn:Ed; [|by eexists _, _].
  destruct (index data "error") eqn:Eerr; try by eexists _, _.
  destruct (as_array (index data "ratings")) as [ratings|] eqn:Er.
  - destruct (index data "ratings") eqn:Ei; try discriminate.
    injection Er as ->.
    destruct (applyRatings_total emptyRatings ratings) as [r Hr].
    { eapply (Hwf _ _ _ _ E Ed "ratings"); [by left|done]. }
    rewrite bind_run, Hr. simpl. eexists _, _. split; [done|].
    intros [?|?]; congruence.
  - eexists _, _. split; [done|]. intros [?|?]; congruence.
Qed.

Lemma getMDBListRatings_run (s : Service) (apiKey imdbID : string) (tmdbID : Z)
    (mediaType : string) (w : World) :
  well_formed_provider s →
  ∃ r e w', getMDBListRatings s apiKey imdbID tmdbID mediaType w = Ret (r, e) w'
            ∧ extends w w'
            ∧ ((∀ l c, failed (client_Do s l c)) → r = None).
Proof.
  intros Hwf. unfold getMDBListRatings.
  destruct (negb (is_empty imdbID));
    [|destruct (0 <? tmdbID);
      [destruct (bool_decide (mediaType = "tv") || bool_decide (mediaType = "series"))|]].
  4: { eexists _, _, _. split_and!; [done|apply extends_refl|done]. }
  all: match goal with |- context [mdblistLookup _ ?p _] =>
         destruct (mdblistLookup_run s p w Hwf) as (r & e & -> & Hf) end;
       eexists _, _, _; (split_and!; [done|apply extends_after_call|]);
       intros Hall; apply Hf, Hall.
Qed.

(** Without an IMDB id and without a positive TMDB id the primary lookup
    gives up before any exchange: the step yields the empty record. *)
Lemma primaryRatings_no_id (s : Service) (mediaType : string) (tmdbID : Z)
    (w : World) :
  tmdbID ≤ 0 → primaryRatings s mediaType "" tmdbID w = Ret emptyRatings w.
Proof.
  intros Hid. unfold primaryRatings, getMDBListRatings.
  apply Z.ltb_ge in Hid.
  destruct (negb (is_empty (db_GetSetting s "mdblist_api_key"))); [|done].
  rewrite bind_run. simpl. by rewrite Hid.
Qed.

Lemma primaryRatings_run (s : Service) (mediaType imdbID : string) (tmdbID : Z)
    (w : World) :
  well_formed_provider s →
  ∃ p w1, primaryRatings s mediaType imdbID tmdbID w = Ret p w1
          ∧ extends w w1
          ∧ ((∀ l c, failed (client_Do s l c)) → p = emptyRatings).
Proof.
  intros Hwf. unfold primaryRatings.
  destruct (negb (is_empty (db_GetSetting s "mdblist_api_key"))).
  - destruct (getMDBListRatings_run s (db_GetSetting s "mdblist_api_key")
                imdbID tmdbID mediaType w Hwf) as (r & e & w1 & Hrun & Hext & Hf).
    rewrite bind_run, Hrun.
    destruct e, r; eexists _, _; (split_and!; [done|done|]);
      intros Hall; try done. by specialize (Hf Hall).
  - eexists _, _. split_and!; [done|apply extends_refl|done].
Qed.

Lemma getRTRatings_run (s : Service) (title year mediaType : string) (w : World) :
  well_formed_provider s →
  ∃ r e, getRTRatings s title year mediaType w
         = Ret (r, e) (after_call s (AlgoliaQuery (rtPayload title year mediaType)) w)
         ∧ (failed (client_Do s (w_log w)
                      (AlgoliaQuery (rtPayload title year mediaType))) → r = None).
Proof.
  intros Hwf. unfold getRTRatings. rewrite bind_run, roundtrip_run.
  destruct (client_Do s (w_log w) _) as [|status body] eqn:E.
  { by eexists _, _. }
  destruct (status =? 200) eqn:Est; simpl; [|by eexists _, _].
  apply Z.eqb_eq in Est as ->.
  destruct (decode_object body) as [data|] eqn:Ed; [|by eexists _, _].
  unfold pickRTRatings.
  destruct (as_array (index data "hits")) as [hits|] eqn:Eh.
  - destruct (index data "hits") eqn:Ei; try discriminate.
    injection Eh as ->.
    destruct hits as [|h hits].
    { eexists _, _. split; [done|]. intros [?|?]; congruence. }
    destruct (findBestMatch_total title year None (h :: hits)) as [b Hb].
    { eapply (Hwf _ _ _ _ E Ed "hits"); [by right|done]. }
    rewrite bind_run, Hb. simpl.
    destruct b; eexists _, _; (split; [done|]); intros [?|?]; congruence.
  - eexists _, _. split; [done|]. intros [?|?]; congruence.
Qed.

Lemma fallbackRatings_run (s : Service) (title year mediaType : string)
    (p : RatingsResult) (w : World) :
  well_formed_provider s →
  ∃ r w', fallbackRatings s title year mediaType p w = Ret r w'
          ∧ extends w w'
          ∧ keeps p r
          ∧ (RottenTomatoes p = None → title ≠ "" →
             w' = after_call s (AlgoliaQuery (rtPayload title year mediaType)) w)
          ∧ (RottenTomatoes p ≠ None ∨ title = "" → w' = w ∧ r = p)
          ∧ ((∀ l c, failed (client_Do s l c)) → r = p).
Proof.
  intros Hwf. unfold fallbackRatings, is_empty.
  destruct (RottenTomatoes p) as [v|] eqn:Ep.
  { eexists _, _. split_and!;
      [done|apply extends_refl|apply keeps_refl|done|done|done]. }
  case_bool_decide as Ht; simpl.
  { eexists _, _. split_and!;
      [done|apply extends_refl|apply keeps_refl|done|done|done]. }
  destruct (getRTRatings_run s title year mediaType w Hwf) as (r & e & Hrun & Hf).
  rewrite bind_run, Hrun.
  destruct e, r; eexists _, _;
    (split_and!;
     [done|apply extends_after_call| |done|intros [?|?]; done|]);
    try apply keeps_refl; try apply keeps_mergeRT; try done.
  intros Hall. by specialize (Hf (Hall _ _)).
Qed.

Lemma GetRatings_hit (s : Service) (title year mediaType imdbID : string)
    (tmdbID : Z) (r : RatingsResult) (w : World) :
  cache.Get (w_cache w) (w_now w) (ratingsKey title year mediaType)
  = Some (AnyRatings r) →
  GetRatings s title year mediaType imdbID tmdbID w = Ret (r, None) w.
Proof. intros H. unfold GetRatings. rewrite bind_run. simpl. by rewrite H. Qed.

Lemma GetRatings_miss (s : Service) (title year mediaType imdbID : string)
    (tmdbID : Z) (w w1 w2 : World) (p r : RatingsResult) :
  cache.Get (w_cache w) (w_now w) (ratingsKey title year mediaType) = None →
  primaryRatings s mediaType imdbID tmdbID w = Ret p w1 →
  fallbackRatings s title year mediaType p w1 = Ret r w2 →
  GetRatings s title year mediaType imdbID tmdbID w
  = Ret (r, None)
        (mkWorld (cache.Set_ (w_cache w2) (w_now w2)
                    (ratingsKey title year mediaType) (AnyRatings r))
                 (w_now w2) (w_log w2)).
Proof.
  intros Hmiss Hp Hf. unfold GetRatings. rewrite bind_run. simpl.
  rewrite Hmiss. by rewrite (bind_Ret _ _ _ _ _ Hp), (bind_Ret _ _ _ _ _ Hf).
Qed.

Lemma stub_well_formed (source : string) (v : float) :
  well_formed_provider (stub (mdb_answer source v) rt_answer).
Proof.
  intros log c body data Hdo Hdec key l Hkey Hidx.
  destruct c; simpl in Hdo; try discriminate; injection Hdo as <-;
    injection Hdec as <-; destruct Hkey as [-> | ->];
    vm_compute in Hidx; try discriminate;
    injection Hidx as <-; repeat constructor; by eexists.
Qed.

(** C3.  On a cache miss the aggregator runs the primary step, giving a
    record [p], then the fallback step, giving the final record [r]: every
    field populated in [p] has the same value in [r], so the secondary
    provider only fills fields that were still unset; and the secondary
    provider is asked exactly when the critics score of [p] is unset and
    the title is non-empty (one query is logged, otherwise none and
    [r = p]).  With a primary critics score of 80 and a secondary one of
    60 the final critics score is 80; with only a primary audience score
    of 70, the critics score 60 is taken from the secondary provider and
    the audience score stays 70. *)
Theorem C3_merge_never_overwrites :
  (∀ (s : Service) (title year mediaType imdbID : string) (tmdbID : Z) (w : World),
     well_formed_provider s →
     cache.Get (w_cache w) (w_now w) (ratingsKey title year mediaType) = None →
     ∃ p w1 r w',
       primaryRatings s mediaType imdbID tmdbID w = Ret p w1
       ∧ GetRatings s title year mediaType imdbID tmdbID w = Ret (r, None) w'
       ∧ keeps p r
       ∧ (RottenTomatoes p = None → title ≠ "" →
          w_log w' = w_log w1 ++ [AlgoliaQuery (rtPayload title year mediaType)])
       ∧ (RottenTomatoes p ≠ None ∨ title = "" → w_log w' = w_log w1 ∧ r = p))
  ∧ (∀ p rt : RatingsResult, keeps p (mergeRT p rt))
  ∧ (let run := GetRatings (stub (mdb_answer "tomatoes" 80%float) rt_answer)
                  "Foo" "" "movie" "tt0000001" 0 world0 in
     returned run = Some (mkRatings (Some 80) None false "" None, None)
     ∧ calls run = [MDBListGet (<["i" := "tt0000001"]> (<["apikey" := "mdb-key"]> ∅))])
  ∧ (let run := GetRatings (stub (mdb_answer "tomatoesaudience" 70%float) rt_answer)
                  "Foo" "" "movie" "tt0000001" 0 world0 in
     returned run = Some (mkRatings (Some 60) (Some 70) false "" None, None)
     ∧ calls run = [MDBListGet (<["i" := "tt0000001"]> (<["apikey" := "mdb-key"]> ∅));
                    AlgoliaQuery (rtPayload "Foo" "" "movie")]).
Proof.
  split_and!.
  - intros s title year mediaType imdbID tmdbID w Hwf Hmiss.
    destruct (primaryRatings_run s mediaType imdbID tmdbID w Hwf)
      as (p & w1 & Hp & _ & _).
    destruct (fallbackRatings_run s title year mediaType p w1 Hwf)
      as (r & w2 & Hf & _ & Hkeeps & Hasked & Hnot & _).
    exists p, w1, r. eexists. split_and!; [done| |done|..].
    + by apply (GetRatings_miss _ _ _ _ _ _ _ _ _ _ _ Hmiss Hp Hf).
    + intros Hnone Ht. simpl. by rewrite (Hasked Hnone Ht).
    + intros H. simpl. by destruct (Hnot H) as [-> ->].
  - apply keeps_mergeRT.
  - vm_compute. done.
  - vm_compute. done.
Qed.

Lemma C3_witness :
  well_formed_provider (stub (mdb_answer "tomatoesaudience" 70%float) rt_answer)
  ∧ cache.Get (w_cache world0) (w_now world0) (ratingsKey "Foo" "" "movie") = None
  ∧ ∃ p w1 r w',
      primaryRatings (stub (mdb_answer "tomatoesaudience" 70%float) rt_answer)
        "movie" "tt0000001" 0 world0 = Ret p w1
      ∧ GetRatings (stub (mdb_answer "tomatoesaudience" 70%float) rt_answer)
          "Foo" "" "movie" "tt0000001" 0 world0 = Ret (r, None) w'
      ∧ keeps p r.
Proof.
  split; [apply stub_well_formed|]. split; [reflexivity|].
  destruct (proj1 C3_merge_never_overwrites
              (stub (mdb_answer "tomatoesaudience" 70%float) rt_answer)
              "Foo" "" "movie" "tt0000001" 0 world0
              (stub_well_formed "tomatoesaudience" 70%float) eq_refl)
    as (p & w1 & r & w' & Hp & Hrun & Hkeeps & _).
  by exists p, w1, r, w'.
Defined.

Lemma GetRatings_no_error (s : Service) (title year mediaType imdbID : string)
    (tmdbID : Z) (w w' : World) (r : RatingsResult) (e : option error) :
  GetRatings s title year mediaType imdbID tmdbID w = Ret (r, e) w' → e = None.
Proof.
  unfold GetRatings. rewrite bind_run. simpl.
  destruct (cache.Get _ _ _) as [[]|]; try discriminate.
  - by intros [= _ <- _].
  - intros H. apply bind_inv in H as (p & w1 & _ & H).
    apply bind_inv in H as (r' & w2 & _ & H).
    apply bind_inv in H as (u & w3 & _ & H). by injection H as _ <- _.
Qed.




(** ** Errors of the ratings call *)

(** C7, amended.  [GetRatings] surfaces no error at all: whenever it
    returns, the error is nil.  Called with no title, no IMDB id and a
    non-positive TMDB id it asks no provider (the primary lookup's "no ID
    provided" is absorbed like any provider failure) and returns the empty
    record, which it caches.  The caller-visible error for a query without
    title and identifier is produced by the HTTP handler, which answers
    400 "Title or ID required" without calling [GetRatings] when the title
    and the IMDB id are empty and the TMDB id parsed to 0; that is the only
    case in which the handler answers with an error. *)
Theorem C7_errors_of_the_ratings_call :
  (∀ (s : Service) (title year mediaType imdbID : string) (tmdbID : Z)
     (w w' : World) (r : RatingsResult) (e : option error),
     GetRatings s title year mediaType imdbID tmdbID w = Ret (r, e) w' → e = None)
  ∧ (∀ (s : Service) (year mediaType : string) (tmdbID : Z) (w : World),
       tmdbID ≤ 0 →
       cache.Get (w_cache w) (w_now w) (ratingsKey "" year mediaType) = None →
       GetRatings s "" year mediaType "" tmdbID w
       = Ret (emptyRatings, None)
           (mkWorld (cache.Set_ (w_cache w) (w_now w) (ratingsKey "" year mediaType)
                       (AnyRatings emptyRatings))
                    (w_now w) (w_log w)))
  ∧ (∀ (s : Service) (year mediaType : string) (w : World),
       handlers.GetRatings s "" year mediaType "" 0 w
       = Ret (handlers.errorResponse "Title or ID required" 400) w)
  ∧ (∀ (s : Service) (title year mediaType imdbID : string) (tmdbID : Z)
       (w w' : World) (message : string) (status : Z),
       handlers.GetRatings s title year mediaType imdbID tmdbID w
       = Ret (handlers.errorResponse message status) w' →
       title = "" ∧ imdbID = "" ∧ tmdbID = 0
       ∧ message = "Title or ID required" ∧ status = 400 ∧ w' = w).
Proof.
  split_and!.
  - apply GetRatings_no_error.
  - intros s year mediaType tmdbID w Hid Hmiss.
    by apply (GetRatings_miss s "" year mediaType "" tmdbID w w w
                emptyRatings emptyRatings Hmiss (primaryRatings_no_id _ _ _ _ Hid)).
  - done.
  - intros s title year mediaType imdbID tmdbID w w' message status.
    unfold handlers.GetRatings, is_empty.
    destruct (bool_decide (title = "") && bool_decide (imdbID = "") && (tmdbID =? 0))
      eqn:E.
    + apply andb_true_iff in E as [E Hid]. apply andb_true_iff in E as [Ht Hi].
      apply bool_decide_eq_true in Ht, Hi. apply Z.eqb_eq in Hid.
      by intros [= <- <- <-].
    + intros H. apply bind_inv in H as ([r e] & w1 & _ & H).
      by destruct e.
Qed.

Lemma C7_witness :
  0 ≤ 0
  ∧ cache.Get (w_cache world0) (w_now world0) (ratingsKey "" "1999" "movie") = None
  ∧ returned (GetRatings offline "" "1999" "movie" "" 0 world0)
    = Some (emptyRatings, None)
  ∧ (∀ w' r e, GetRatings offline "Foo" "1999" "movie" "tt0000001" 603 world0
               = Ret (r, e) w' → e = None).
Proof.
  destruct C7_errors_of_the_ratings_call as (Hnone & Hnoid & _ & _).
  split; [lia|]. split; [reflexivity|]. split.
  - rewrite (Hnoid offline "1999" "movie" 0 world0); [reflexivity|lia|reflexivity].
  - intros w' r e H. exact (Hnone _ _ _ _ _ _ _ _ _ _ H).
Defined.

(** The claim as stated fails: a call with no title and no identifier
    returns the empty record with a nil error, and asks no provider. *)
Lemma C7_counterexample :
  returned (GetRatings offline "" "" "movie" "" 0 world0) = Some (emptyRatings, None)
  ∧ calls (GetRatings offline "" "" "movie" "" 0 world0) = [].
Proof. vm_compute. done. Qed.

(** ** Identifier resolution *)

Lemma request_run (s : Service) (endpoint : string) (params : gmap string string)
    (w : World) :
  ∃ d e w1, request s endpoint params w = Ret (d, e) w1
    ∧ extends w w1
    ∧ (w1 = w ∧ e ≠ None ∨ w1 = after_call s (tmdbCall s endpoint params) w)
    ∧ (db_GetSetting s "tmdb_api_key" ≠ "" →
       w1 = after_call s (tmdbCall s endpoint params) w).
Proof.
  unfold request, is_empty, tmdbCall. case_bool_decide as Hk.
  { eexists _, _, _. split_and!; [done|apply extends_refl|by left|done]. }
  rewrite bind_run, roundtrip_run.
  destruct (client_Do s (w_log w) _) as [|status body].
  { eexists _, _, _. split_and!; [done|apply extends_after_call|by right|done]. }
  destruct (negb (status =? 200));
    [|destruct (decode_object body)];
    eexists _, _, _; (split_and!; [done|apply extends_after_call|by right|done]).
Qed.

Lemma resolveMovie_hit (s : Service) (tmdbID : Z) (imdbID : string) (w : World) :
  cache.Get (w_cache w) (w_now w) (movieCacheKey tmdbID) = Some (AnyString imdbID) →
  resolveMovie s tmdbID w = Ret imdbID w.
Proof. intros H. unfold resolveMovie. rewrite bind_run. simpl. by rewrite H. Qed.

Lemma resolveMovie_miss (s : Service) (tmdbID : Z) (w : World) :
  cache.Get (w_cache w) (w_now w) (movieCacheKey tmdbID) = None →
  resolveMovie s tmdbID w
  = match request s ("movie/" +:+ fmt_d tmdbID) detailParams w with
    | Ret (details, None) w1 =>
        Ret (movieImdbID details)
            (after_Set (movieCacheKey tmdbID) (AnyString (movieImdbID details)) w1)
    | Ret (_, Some _) w1 => Ret "" w1
    | Panic => Panic
    end.
Proof.
  intros H. unfold resolveMovie. rewrite bind_run. simpl. rewrite H.
  rewrite bind_run. by destruct (request _ _ _ _) as [[d [e|]] w1|].
Qed.

Lemma resolveShow_hit (s : Service) (tmdbID tvdbID : Z) (imdbID : string)
    (w : World) :
  float_to_int (float_of_int tvdbID) = tvdbID →
  cache.Get (w_cache w) (w_now w) (tvCacheKey tmdbID)
  = Some (AnyObject (showIDsEntry tvdbID imdbID)) →
  resolveShow s tmdbID w = Ret (tvdbID, imdbID) w.
Proof.
  intros Hrt H. unfold resolveShow. rewrite bind_run. simpl. rewrite H.
  unfold showIDsEntry, index.
  rewrite lookup_insert_eq, lookup_insert_ne, lookup_insert_eq by done.
  simpl. rewrite bind_run. unfold mret, M_ret. by rewrite Hrt.
Qed.

Lemma resolveShow_miss (s : Service) (tmdbID : Z) (w : World) :
  cache.Get (w_cache w) (w_now w) (tvCacheKey tmdbID) = None →
  resolveShow s tmdbID w
  = match request s ("tv/" +:+ fmt_d tmdbID) detailParams w with
    | Ret (details, None) w1 =>
        Ret (showExternalIDs details)
            (after_Set (tvCacheKey tmdbID)
               (AnyObject (showIDsEntry (showExternalIDs details).1
                                        (showExternalIDs details).2)) w1)
    | Ret (_, Some _) w1 => Ret (0, "") w1
    | Panic => Panic
    end.
Proof.
  intros H. unfold resolveShow. rewrite bind_run. simpl. rewrite H.
  rewrite bind_run. destruct (request _ _ _ _) as [[d [e|]] w1|]; try done.
  by destruct (showExternalIDs d).
Qed.

Lemma resolve_again_logs {A} (s : Service) (endpoint : string) (w2 : World)
    (ok : object → World → result A) (ko : World → result A) :
  db_GetSetting s "tmdb_api_key" ≠ "" →
  (∀ d w1, calls (ok d w1) = w_log w1) →
  (∀ w1, calls (ko w1) = w_log w1) →
  calls (match request s endpoint detailParams w2 with
         | Ret (details, None) w1 => ok details w1
         | Ret (_, Some _) w1 => ko w1
         | Panic => Panic
         end)
  = w_log w2 ++ [tmdbCall s endpoint detailParams].
Proof.
  intros Hk Hok Hko.
  destruct (request_run s endpoint detailParams w2)
    as (d & e & w1 & -> & _ & _ & Hcall).
  rewrite (Hcall Hk). by destruct e; rewrite ?Hok, ?Hko.
Qed.

(** C10.  Resolution of the external identifier, for a movie
    ([resolveMovie], tmdb.go 141-162) and for a show ([resolveShow],
    tmdb.go 252-276), started on a miss of the per-item cache.
    When the detail call fails, the identifier is left unset and the cache
    is as it was; so at any later instant the per-item entry is still
    missing and the resolution is decided by a new detail call (one more
    exchange on record when the API key is configured).
    When the detail call succeeds and the details hold no external
    identifier, the empty identifier is stored under the per-item key with
    the default TTL; as long as that entry is the one under the key, a call
    at an instant within the TTL returns the empty identifier and leaves
    the world untouched: no detail call is made. *)
Theorem C10_resolution_caches_success_not_failure :
  (∀ (s : Service) (tmdbID : Z) (w : World),
     cache.Get (w_cache w) (w_now w) (movieCacheKey tmdbID) = None →
     (∀ d e w1,
        request s ("movie/" +:+ fmt_d tmdbID) detailParams w = Ret (d, Some e) w1 →
        resolveMovie s tmdbID w = Ret "" w1
        ∧ w_cache w1 = w_cache w
        ∧ ∀ w2, w_cache w2 = w_cache w1 → w_now w ≤ w_now w2 →
            cache.Get (w_cache w2) (w_now w2) (movieCacheKey tmdbID) = None
            ∧ (db_GetSetting s "tmdb_api_key" ≠ "" →
               calls (resolveMovie s tmdbID w2)
               = w_log w2 ++ [tmdbCall s ("movie/" +:+ fmt_d tmdbID) detailParams]))
     ∧ (∀ d w1,
        request s ("movie/" +:+ fmt_d tmdbID) detailParams w = Ret (d, None) w1 →
        movieImdbID d = "" →
        ∃ w', resolveMovie s tmdbID w = Ret "" w'
          ∧ cache.items (w_cache w') !! movieCacheKey tmdbID
            = Some (cache.mkItem (AnyString "") (w_now w' + cache.ttl (w_cache w)))
          ∧ ∀ w2,
              cache.items (w_cache w2) !! movieCacheKey tmdbID
              = cache.items (w_cache w') !! movieCacheKey tmdbID →
              w_now w2 ≤ w_now w' + cache.ttl (w_cache w) →
              resolveMovie s tmdbID w2 = Ret "" w2))
  ∧ (∀ (s : Service) (tmdbID : Z) (w : World),
     cache.Get (w_cache w) (w_now w) (tvCacheKey tmdbID) = None →
     (∀ d e w1,
        request s ("tv/" +:+ fmt_d tmdbID) detailParams w = Ret (d, Some e) w1 →
        resolveShow s tmdbID w = Ret (0, "") w1
        ∧ w_cache w1 = w_cache w
        ∧ ∀ w2, w_cache w2 = w_cache w1 → w_now w ≤ w_now w2 →
            cache.Get (w_cache w2) (w_now w2) (tvCacheKey tmdbID) = None
            ∧ (db_GetSetting s "tmdb_api_key" ≠ "" →
               calls (resolveShow s tmdbID w2)
               = w_log w2 ++ [tmdbCall s ("tv/" +:+ fmt_d tmdbID) detailParams]))
     ∧ (∀ d w1,
        request s ("tv/" +:+ fmt_d tmdbID) detailParams w = Ret (d, None) w1 →
        showExternalIDs d = (0, "") →
        ∃ w', resolveShow s tmdbID w = Ret (0, "") w'
          ∧ cache.items (w_cache w') !! tvCacheKey tmdbID
            = Some (cache.mkItem (AnyObject (showIDsEntry 0 ""))
                      (w_now w' + cache.ttl (w_cache w)))
          ∧ ∀ w2,
              cache.items (w_cache w2) !! tvCacheKey tmdbID
              = cache.items (w_cache w') !! tvCacheKey tmdbID →
              w_now w2 ≤ w_now w' + cache.ttl (w_cache w) →
              resolveShow s tmdbID w2 = Ret (0, "") w2)).
Proof.
  split.
  - intros s tmdbID w Hmiss. split.
    + intros d e w1 Hreq.
      destruct (request_run s ("movie/" +:+ fmt_d tmdbID) detailParams w)
        as (d' & e' & w1' & Hreq' & (Hc & Hn & _) & _).
      rewrite Hreq in Hreq'. injection Hreq' as <- <- <-.
      split_and!; [by rewrite (resolveMovie_miss _ _ _ Hmiss), Hreq|done|].
      intros w2 Hc2 Hn2.
      assert (cache.Get (w_cache w2) (w_now w2) (movieCacheKey tmdbID) = None)
        as Hmiss2.
      { rewrite Hc2, Hc. by apply (Get_None_later _ (w_now w)). }
      split; [done|]. intros Hk. rewrite (resolveMovie_miss _ _ _ Hmiss2).
      by apply resolve_again_logs.
    + intros d w1 Hreq Hnone.
      destruct (request_run s ("movie/" +:+ fmt_d tmdbID) detailParams w)
        as (d' & e' & w1' & Hreq' & (Hc & _) & _).
      rewrite Hreq in Hreq'. injection Hreq' as <- <- <-.
      eexists. split; [by rewrite (resolveMovie_miss _ _ _ Hmiss), Hreq, Hnone|].
      split; [simpl; by rewrite lookup_insert_eq, Hc|].
      intros w2 Hsame Hn2. apply resolveMovie_hit, Get_Some.
      eexists. split; [rewrite Hsame; simpl; apply lookup_insert_eq|].
      simpl in *. split; [|done]. rewrite Hc. lia.
  - intros s tmdbID w Hmiss. split.
    + intros d e w1 Hreq.
      destruct (request_run s ("tv/" +:+ fmt_d tmdbID) detailParams w)
        as (d' & e' & w1' & Hreq' & (Hc & Hn & _) & _).
      rewrite Hreq in Hreq'. injection Hreq' as <- <- <-.
      split_and!; [by rewrite (resolveShow_miss _ _ _ Hmiss), Hreq|done|].
      intros w2 Hc2 Hn2.
      assert (cache.Get (w_cache w2) (w_now w2) (tvCacheKey tmdbID) = None)
        as Hmiss2.
      { rewrite Hc2, Hc. by apply (Get_None_later _ (w_now w)). }
      split; [done|]. intros Hk. rewrite (resolveShow_miss _ _ _ Hmiss2).
      by apply resolve_again_logs.
    + intros d w1 Hreq Hnone.
      destruct (request_run s ("tv/" +:+ fmt_d tmdbID) detailParams w)
        as (d' & e' & w1' & Hreq' & (Hc & _) & _).
      rewrite Hreq in Hreq'. injection Hreq' as <- <- <-.
      eexists. split; [by rewrite (resolveShow_miss _ _ _ Hmiss), Hreq, Hnone|].
      split; [simpl; by rewrite lookup_insert_eq, Hc|].
      intros w2 Hsame Hn2. apply resolveShow_hit; [done|]. apply Get_Some.
      eexists. split; [rewrite Hsame; simpl; apply lookup_insert_eq|].
      simpl in *. split; [|done]. rewrite Hc. lia.
Qed.

Lemma C10_witness :
  cache.Get (w_cache world0) (w_now world0) (movieCacheKey 604) = None
  ∧ (resolveMovie catalog 604 world0
     = Ret "" (after_call catalog (tmdbCall catalog "movie/604" detailParams) world0))
  ∧ (∃ w', resolveMovie catalog 605 world0 = Ret "" w'
           ∧ resolveMovie catalog 605
               (mkWorld (w_cache w') (w_now w' + defaultTTL) (w_log w'))
             = Ret "" (mkWorld (w_cache w') (w_now w' + defaultTTL) (w_log w')))
  ∧ (resolveShow catalog 604 world0
     = Ret (0, "") (after_call catalog (tmdbCall catalog "tv/604" detailParams) world0))
  ∧ (∃ w', resolveShow catalog 605 world0 = Ret (0, "") w'
           ∧ resolveShow catalog 605
               (mkWorld (w_cache w') (w_now w' + defaultTTL) (w_log w'))
             = Ret (0, "") (mkWorld (w_cache w') (w_now w' + defaultTTL) (w_log w'))).
Proof.
  destruct C10_resolution_caches_success_not_failure as [Hmovie Hshow].
  assert (request catalog ("movie/" +:+ fmt_d 604) detailParams world0
          = Ret (∅, Some ErrTransport)
              (after_call catalog (tmdbCall catalog "movie/604" detailParams) world0))
    as Hm604 by (vm_compute; reflexivity).
  assert (request catalog ("movie/" +:+ fmt_d 605) detailParams world0
          = Ret (∅, None)
              (after_call catalog (tmdbCall catalog "movie/605" detailParams) world0))
    as Hm605 by (vm_compute; reflexivity).
  assert (request catalog ("tv/" +:+ fmt_d 604) detailParams world0
          = Ret (∅, Some ErrTransport)
              (after_call catalog (tmdbCall catalog "tv/604" detailParams) world0))
    as Ht604 by (vm_compute; reflexivity).
  assert (request catalog ("tv/" +:+ fmt_d 605) detailParams world0
          = Ret (∅, None)
              (after_call catalog (tmdbCall catalog "tv/605" detailParams) world0))
    as Ht605 by (vm_compute; reflexivity).
  split; [reflexivity|]. split_and!.
  - exact (proj1 (proj1 (Hmovie catalog 604 world0 eq_refl) _ _ _ Hm604)).
  - destruct (proj2 (Hmovie catalog 605 world0 eq_refl) _ _ Hm605 eq_refl)
      as (w' & Hrun & _ & Hlater).
    exists w'. split; [exact Hrun|]. apply Hlater; [reflexivity|].
    simpl. reflexivity.
  - exact (proj1 (proj1 (Hshow catalog 604 world0 eq_refl) _ _ _ Ht604)).
  - destruct (proj2 (Hshow catalog 605 world0 eq_refl) _ _ Ht605 eq_refl)
      as (w' & Hrun & _ & Hlater).
    exists w'. split; [exact Hrun|]. apply Hlater; [reflexivity|].
    simpl. reflexivity.
Defined.

(** ** The enrichment pipeline *)




Lemma enrichMovie_inv (s : Service) (existingIDs requestedIDs : gmap Z bool)
    (movie : object) (w w' : World) (it : MediaItem) :
  enrichMovie s existingIDs requestedIDs movie w = Ret it w' →
  displays "release_date" "title" movie it
  ∧ RequestStatus it = movieStatus existingIDs requestedIDs (getInt movie "id")
  ∧ resolveMovie s (getInt movie "id") w = Ret (ImdbID it) w'.
Proof.
  unfold enrichMovie. rewrite bind_run.
  destruct (as_float64 (index movie "id")) as [id|] eqn:Hid; [|discriminate].
  simpl. rewrite bind_run.
  destruct (resolveMovie s (float_to_int id) w) as [imdbID w1|] eqn:Hres;
    [|discriminate].
  assert (getInt movie "id" = float_to_int id) as Hg
    by (unfold getInt; by rewrite Hid).
  intros [= <- <-]. unfold displays. rewrite !Hg. simpl. by rewrite Hres.
Qed.



Lemma enrichShow_inv (s : Service) (existingIDs requestedIDs : gmap Z bool)
    (show : object) (w w' : World) (it : MediaItem) :
  enrichShow s existingIDs requestedIDs show w = Ret it w' →
  displays "first_air_date" "name" show it
  ∧ RequestStatus it = seriesStatus existingIDs requestedIDs (TvdbID it)
  ∧ resolveShow s (getInt show "id") w = Ret (TvdbID it, ImdbID it) w'.
Proof.
  unfold enrichShow. rewrite bind_run.
  destruct (as_float64 (index show "id")) as [id|] eqn:Hid; [|discriminate].
  simpl. rewrite bind_run.
  destruct (resolveShow s (float_to_int id) w) as [[tvdbID imdbID] w1|] eqn:Hres;
    [|discriminate].
  assert (getInt show "id" = float_to_int id) as Hg
    by (unfold getInt; by rewrite Hid).
  intros [= <- <-]. unfold displays. rewrite !Hg. simpl. by rewrite Hres.
Qed.


Lemma GetRequestedIDs_run (s : Service) (mediaType : string) (w : World) :
  ∃ ids e, GetRequestedIDs s mediaType w
           = Ret (ids, e) (after_call s (LedgerQuery (requestedIDsQuery mediaType)) w).
Proof.
  unfold GetRequestedIDs, after_call.
  destruct (db_Query s (w_log w) (requestedIDsQuery mediaType)); by eexists _, _.
Qed.













(** ** Fetching the library and ledger sets *)








Lemma getExistingIDs_log (s : Service) (urlSetting keySetting cacheKey path
    field : string) (w w' : World) (x : gmap Z bool * option error) :
  getExistingIDs s urlSetting keySetting cacheKey path field w = Ret x w' →
  w_log w' = w_log w
  ∨ w_log w'
    = w_log w ++ [ArrGet (db_GetSetting s urlSetting +:+ path)
                         (db_GetSetting s keySetting)].
Proof.
  unfold getExistingIDs.
  destruct (is_empty _ || is_empty _); [intros [= _ <-]; by left|].
  rewrite bind_run. simpl.
  destruct (cache.Get _ _ _) as [[]|]; try discriminate.
  { intros [= _ <-]. by left. }
  rewrite bind_run, roundtrip_run.
  destruct (client_Do _ _ _) as [|status body]; [intros [= _ <-]; by right|].
  destruct (decode_objects body); intros [= _ <-]; by right.
Qed.







(* ===================================================================== *)
(** * Part III: further properties of the code *)
(* ===================================================================== *)

(** ** The cache as a map with expiry *)

Lemma run_ops_invariant {V} (ttl now : Z) (key : string)
    (h : list (Z * cache_op V)) (c : cache.Cache V) (acc : option (V * Z)) :
  Forall (λ e, e.1 ≤ now) h →
  cache.ttl c = ttl →
  match acc with
  | Some (v, e) =>
      cache.items c !! key = Some (cache.mkItem v e)
      ∨ (cache.items c !! key = None ∧ e < now)
  | None => cache.items c !! key = None
  end →
  cache.Get (run_ops c h) now key
  = match last_write ttl key h acc with
    | Some (v, e) => if cache.After now e then None else Some v
    | None => None
    end.
Proof.
  intros Hh. revert c acc.
  induction Hh as [|[t o] h Ht _ IH]; intros c acc Httl Hacc.
  - simpl. destruct acc as [[v e]|].
    + destruct Hacc as [Hit | [Hnone Hlt]].
      * unfold cache.Get. by rewrite Hit.
      * apply After_true in Hlt. rewrite Hlt. unfold cache.Get. by rewrite Hnone.
    + unfold cache.Get. by rewrite Hacc.
  - simpl in Ht. simpl. apply IH.
    + by destruct o.
    + destruct o as [k v|k v d|k|]; simpl.
      * case_bool_decide as Hk.
        -- subst k. left. by rewrite lookup_insert_eq, Httl.
        -- by rewrite lookup_insert_ne.
      * case_bool_decide as Hk.
        -- subst k. left. by rewrite lookup_insert_eq.
        -- by rewrite lookup_insert_ne.
      * case_bool_decide as Hk.
        -- subst k. by rewrite lookup_delete_eq.
        -- by rewrite lookup_delete_ne.
      * destruct acc as [[v e]|].
        -- destruct Hacc as [Hit | [Hnone Hlt]].
           ++ destruct (Z.lt_ge_cases e t) as [Hlt | Hge].
              ** right. split; [|lia]. apply map_lookup_filter_None. right.
                 intros it Hit'. rewrite Hit in Hit'. injection Hit' as <-. simpl.
                 rewrite After_false. lia.
              ** left. apply map_lookup_filter_Some. split; [done|]. simpl.
                 by apply After_false.
           ++ right. split; [|done]. apply map_lookup_filter_None. by left.
        -- apply map_lookup_filter_None. by left.
Qed.

(** X1.  A cache that started empty and went through any history of
    [Set], [SetWithTTL], [Delete] and sweeps answers a later [Get] like a
    map with expiry: with the value of the last write to the key, if no
    [Delete] of the key followed it and the read is not after the instant
    that write fixed (its own instant plus the default TTL for [Set], plus
    the given TTL for [SetWithTTL]); with a miss otherwise.  Writes to other
    keys, earlier writes to the same key and sweeps play no part. *)
Theorem X1_cache_is_a_map_with_expiry :
  ∀ (V : Type) (ttl now : Z) (key : string) (h : list (Z * cache_op V)),
    Forall (λ e, e.1 ≤ now) h →
    cache.Get (run_ops (cache.NewCache ttl) h) now key
    = match last_write ttl key h None with
      | Some (v, e) => if cache.After now e then None else Some v
      | None => None
      end.
Proof.
  intros V ttl now key h Hh. by apply run_ops_invariant.
Qed.

Lemma X1_witness :
  Forall (λ e : Z * cache_op string, e.1 ≤ 9)
    [(1, OpSet "k" "a"); (2, OpSetWithTTL "j" "x" 100); (3, OpSet "k" "b");
     (4, OpDelete "j"); (8, OpSweep)]
  ∧ cache.Get (run_ops (cache.NewCache 6)
                 [(1, OpSet "k" "a"); (2, OpSetWithTTL "j" "x" 100);
                  (3, OpSet "k" "b"); (4, OpDelete "j"); (8, OpSweep)]) 9 "k"
    = Some "b"
  ∧ cache.Get (run_ops (cache.NewCache 6)
                 [(1, OpSet "k" "a"); (2, OpSetWithTTL "j" "x" 100);
                  (3, OpSet "k" "b"); (4, OpDelete "j"); (8, OpSweep)]) 9 "j"
    = None.
Proof.
  assert (Forall (λ e : Z * cache_op string, e.1 ≤ 9)
            [(1, OpSet "k" "a"); (2, OpSetWithTTL "j" "x" 100); (3, OpSet "k" "b");
             (4, OpDelete "j"); (8, OpSweep)]) as H
    by (repeat constructor; simpl; lia).
  split; [exact H|]. split.
  - rewrite (X1_cache_is_a_map_with_expiry string 6 9 "k" _ H). reflexivity.
  - rewrite (X1_cache_is_a_map_with_expiry string 6 9 "j" _ H). reflexivity.
Defined.

(** X2.  A sweep at the instant [t] removes all the entries whose
    expiration is before [t] and only those: every other entry stays, with
    its value and expiration; nothing is added and the default TTL is not
    touched.  Sweeping again changes nothing, and two sweeps amount to the
    later one. *)
Theorem X2_sweep_removes_exactly_the_expired :
  ∀ (V : Type) (c : cache.Cache V) (t : Z),
    (∀ key it,
       cache.items (cache.cleanup c t) !! key = Some it
       ↔ cache.items c !! key = Some it ∧ t ≤ cache.expiration it)
    ∧ cache.items (cache.cleanup c t) ⊆ cache.items c
    ∧ cache.ttl (cache.cleanup c t) = cache.ttl c
    ∧ cache.cleanup (cache.cleanup c t) t = cache.cleanup c t
    ∧ ∀ t', cache.cleanup (cache.cleanup c t) t' = cache.cleanup c (Z.max t t').
Proof.
  intros V c t.
  assert (∀ t', cache.cleanup (cache.cleanup c t) t' = cache.cleanup c (Z.max t t'))
    as Htwo.
  { intros t'. unfold cache.cleanup. simpl. f_equal.
    apply map_eq. intros key. apply option_eq. intros it.
    rewrite !map_lookup_filter_Some. simpl. rewrite !After_false.
    split; [intros [[? ?] ?]|intros [? ?]]; split_and!; try done; lia. }
  split_and!.
  - intros key it. apply cleanup_lookup_Some.
  - apply map_filter_subseteq.
  - done.
  - by rewrite Htwo, Z.max_id.
  - exact Htwo.
Qed.

(** ** The rating providers *)

Lemma applyRatings_snoc (init : RatingsResult) (l : list json) (x : json) :
  applyRatings init (l ++ [x]) = applyRatings init l ≫= λ r, applyRating r x.
Proof.
  revert init. induction l as [|y l IH]; intros init; simpl.
  - by destruct (applyRating init x).
  - destruct (applyRating init y) as [r|]; simpl; [apply IH|done].
Qed.

Lemma applyRating_object (r : RatingsResult) (m : object) :
  applyRating r (JObj m)
  = Some (if bool_decide (rating_source m = "imdb")
          then set_IMDB r (fmt_f1 (rating_value m))
          else if bool_decide (rating_source m = "tomatoes")
            then set_RottenTomatoes r (Some (float_to_int (rating_value m)))
          else if bool_decide (rating_source m = "tomatoesaudience")
            then set_RTAudienceScore r (Some (float_to_int (rating_value m)))
          else if bool_decide (rating_source m = "metacritic")
            then set_Metacritic r (Some (float_to_int (rating_value m)))
          else r).
Proof. reflexivity. Qed.

Lemma applyRatings_certified (init r : RatingsResult) (l : list json) :
  applyRatings init l = Some r → RTCertified r = RTCertified init.
Proof.
  revert init. induction l as [|x l IH]; intros init; simpl.
  - by intros [= <-].
  - destruct x; try discriminate. rewrite applyRating_object. simpl.
    intros H. rewrite (IH _ H). by repeat case_bool_decide.
Qed.

(** What the last entry of a given source leaves in a field. *)
Lemma last_filter_snoc {A} (P : A → Prop) `{!∀ x, Decision (P x)} (l : list A)
    (x : A) :
  last (filter P (l ++ [x])) = if decide (P x) then Some x else last (filter P l).
Proof.
  rewrite filter_app, filter_cons, filter_nil.
  destruct (decide (P x)); [by rewrite last_snoc|by rewrite app_nil_r].
Qed.

(** X3.  The loop over MDBList's [ratings] array keeps, for each of the
    four sources it knows, the value of the last entry of that source: the
    IMDB score formatted with one decimal, the three others truncated to
    integers.  Entries of any other source change nothing, a field with no
    entry keeps what it held, and the certified flag is never written. *)
Theorem X3_last_rating_of_a_source_wins :
  ∀ (init : RatingsResult) (entries : list object),
    ∃ r,
      applyRatings init (JObj <$> entries) = Some r
      ∧ IMDB r
        = match last (filter (λ m, rating_source m = "imdb") entries) with
          | Some m => fmt_f1 (rating_value m)
          | None => IMDB init
          end
      ∧ RottenTomatoes r
        = match last (filter (λ m, rating_source m = "tomatoes") entries) with
          | Some m => Some (float_to_int (rating_value m))
          | None => RottenTomatoes init
          end
      ∧ RTAudienceScore r
        = match last (filter (λ m, rating_source m = "tomatoesaudience") entries) with
          | Some m => Some (float_to_int (rating_value m))
          | None => RTAudienceScore init
          end
      ∧ Metacritic r
        = match last (filter (λ m, rating_source m = "metacritic") entries) with
          | Some m => Some (float_to_int (rating_value m))
          | None => Metacritic init
          end
      ∧ RTCertified r = RTCertified init.
Proof.
  intros init entries. induction entries as [|m entries IH] using rev_ind.
  { exists init. by split_and!. }
  destruct IH as (r & Hr & Hi & Ht & Ha & Hm & Hc).
  rewrite fmap_app, fmap_cons, fmap_nil, applyRatings_snoc, Hr. simpl.
  rewrite applyRating_object. eexists. split; [done|].
  rewrite !last_filter_snoc.
  repeat case_bool_decide; repeat case_decide; simpl; split_and!;
    first [done | congruence].
Qed.

Lemma mdblistLookup_inv (s : Service) (params : gmap string string)
    (w w' : World) (r : option RatingsResult) (e : option error) :
  mdblistLookup s params w = Ret (r, e) w' →
  w' = after_call s (MDBListGet params) w
  ∧ (r = None ↔ e ≠ None)
  ∧ (∀ x, r = Some x → RTCertified x = false)
  ∧ (is_Some r ↔
     ∃ body data,
       client_Do s (w_log w) (MDBListGet params) = Response 200 body
       ∧ decode_object body = Some data
       ∧ index data "error" = JNull).
Proof.
  unfold mdblistLookup. rewrite bind_run, roundtrip_run.
  destruct (client_Do s (w_log w) (MDBListGet params)) as [|status body] eqn:E.
  { intros [= <- <- <-]. split_and!; try done.
    split; [by intros [? ?]|by intros (? & ? & ? & _)]. }
  destruct (status =? 200) eqn:Est; simpl.
  2: { apply Z.eqb_neq in Est. intros [= <- <- <-]. split_and!; try done.
       split; [by intros [? ?]|]. intros (? & ? & [= ? ?] & _). done. }
  apply Z.eqb_eq in Est as ->.
  destruct (decode_object body) as [data|] eqn:Ed.
  2: { intros [= <- <- <-]. split_and!; try done.
       split; [by intros [? ?]|]. intros (? & ? & [= <-] & ? & _). congruence. }
  destruct (index data "error") eqn:Eerr;
    try (intros [= <- <- <-]; split_and!; try done;
         split; [by intros [? ?]|];
         intros (? & ? & [= <-] & ? & ?); congruence).
  destruct (as_array (index data "ratings")) as [ratings|] eqn:Er.
  - rewrite bind_run.
    destruct (applyRatings emptyRatings ratings) as [x|] eqn:Hx; [|discriminate].
    simpl. intros [= <- <- <-]. split_and!; try done.
    + intros x' [= <-]. by rewrite (applyRatings_certified _ _ _ Hx).
    + split; [|by eexists]. intros _. by exists body, data.
  - intros [= <- <- <-]. split_and!; try done.
    + by intros x' [= <-].
    + split; [|by eexists]. intros _. by exists body, data.
Qed.

Lemma getMDBListRatings_inv (s : Service) (apiKey imdbID : string) (tmdbID : Z)
    (mediaType : string) (w w' : World) (r : option RatingsResult)
    (e : option error) :
  getMDBListRatings s apiKey imdbID tmdbID mediaType w = Ret (r, e) w' →
  w_cache w' = w_cache w
  ∧ w_now w ≤ w_now w'
  ∧ (w_log w' = w_log w ∨ ∃ params, w_log w' = w_log w ++ [MDBListGet params])
  ∧ (r = None ↔ e ≠ None)
  ∧ (∀ x, r = Some x → RTCertified x = false).
Proof.
  unfold getMDBListRatings.
  destruct (negb (is_empty imdbID));
    [|destruct (0 <? tmdbID);
      [destruct (bool_decide (mediaType = "tv") || bool_decide (mediaType = "series"))|]].
  4: { intros [= <- <- <-]. split_and!; [done|lia|by left|done|done]. }
  all: intros H; apply mdblistLookup_inv in H as (-> & Hxor & Hcert & _);
    (split_and!; [done|simpl; lia|right; by eexists|done|done]).
Qed.

(** X4.  The primary lookup asks MDBList by IMDB id when there is one (the
    TMDB id and the media type are then not sent); otherwise by a positive
    TMDB id, as a show for the media types tv and series and as a movie
    for any other; otherwise it sends nothing and fails with "no ID
    provided".  It makes at most one exchange and leaves the cache alone.
    It returns a record or an error, never both and never neither; a
    record is returned only for a reply with status 200 whose body is an
    object with no error field, and it has the certified flag down. *)
Theorem X4_primary_lookup :
  ∀ (s : Service) (apiKey imdbID : string) (tmdbID : Z) (mediaType : string)
    (w : World),
    (imdbID ≠ "" →
     getMDBListRatings s apiKey imdbID tmdbID mediaType w
     = mdblistLookup s (<["i" := imdbID]> (<["apikey" := apiKey]> ∅)) w)
    ∧ (imdbID = "" → 0 < tmdbID →
       getMDBListRatings s apiKey imdbID tmdbID mediaType w
       = mdblistLookup s
           (<["m" := if bool_decide (mediaType = "tv")
                        || bool_decide (mediaType = "series")
                     then "show" else "movie"]>
              (<["tm" := fmt_d tmdbID]> (<["apikey" := apiKey]> ∅))) w)
    ∧ (imdbID = "" → tmdbID ≤ 0 →
       getMDBListRatings s apiKey imdbID tmdbID mediaType w
       = Ret (None, Some (Errorf "no ID provided")) w)
    ∧ (∀ params r e w',
         mdblistLookup s params w = Ret (r, e) w' →
         w' = after_call s (MDBListGet params) w
         ∧ (is_Some r ↔
            ∃ body data,
              client_Do s (w_log w) (MDBListGet params) = Response 200 body
              ∧ decode_object body = Some data
              ∧ index data "error" = JNull))
    ∧ (∀ r e w',
         getMDBListRatings s apiKey imdbID tmdbID mediaType w = Ret (r, e) w' →
         w_cache w' = w_cache w
         ∧ (w_log w' = w_log w ∨ ∃ params, w_log w' = w_log w ++ [MDBListGet params])
         ∧ (r = None ↔ e ≠ None)
         ∧ (∀ x, r = Some x → RTCertified x = false)).
Proof.
  intros s apiKey imdbID tmdbID mediaType w. unfold getMDBListRatings, is_empty.
  split_and!.
  - intros Hi. by rewrite bool_decide_eq_false_2.
  - intros -> Hid. apply Z.ltb_lt in Hid. simpl. rewrite Hid.
    by destruct (bool_decide (mediaType = "tv") || bool_decide (mediaType = "series")).
  - intros -> Hid. apply Z.ltb_ge in Hid. simpl. by rewrite Hid.
  - intros params r e w' H. apply mdblistLookup_inv in H as (Hw & _ & _ & Hsome).
    by split.
  - intros r e w' H.
    apply (getMDBListRatings_inv s apiKey imdbID tmdbID mediaType) in H
      as (Hc & _ & Hl & Hxor & Hcert).
    by split_and!.
Qed.

Lemma X4_witness :
  getMDBListRatings (stub (mdb_answer "tomatoes" 80%float) rt_answer)
    "mdb-key" "tt0000001" 603 "movie" world0
  = mdblistLookup (stub (mdb_answer "tomatoes" 80%float) rt_answer)
      (<["i" := "tt0000001"]> (<["apikey" := "mdb-key"]> ∅)) world0
  ∧ getMDBListRatings offline "mdb-key" "" 1399 "tv" world0
    = mdblistLookup offline
        (<["m" := "show"]> (<["tm" := fmt_d 1399]> (<["apikey" := "mdb-key"]> ∅)))
        world0
  ∧ getMDBListRatings offline "mdb-key" "" 0 "tv" world0
    = Ret (None, Some (Errorf "no ID provided")) world0.
Proof.
  split; [|split].
  - apply (proj1 (X4_primary_lookup (stub (mdb_answer "tomatoes" 80%float) rt_answer)
                    "mdb-key" "tt0000001" 603 "movie" world0)). discriminate.
  - apply (proj1 (proj2 (X4_primary_lookup offline "mdb-key" "" 1399 "tv" world0)));
      [reflexivity|lia].
  - apply (proj1 (proj2 (proj2 (X4_primary_lookup offline "mdb-key" "" 0 "tv" world0))));
      [reflexivity|lia].
Defined.

Lemma getRTRatings_inv (s : Service) (title year mediaType : string)
    (w w' : World) (r : option RatingsResult) (e : option error) :
  getRTRatings s title year mediaType w = Ret (r, e) w' →
  w' = after_call s (AlgoliaQuery (rtPayload title year mediaType)) w
  ∧ (is_Some r → e = None)
  ∧ (∀ x, r = Some x → IMDB x = "" ∧ Metacritic x = None).
Proof.
  unfold getRTRatings. rewrite bind_run, roundtrip_run.
  destruct (client_Do s (w_log w) _) as [|status body].
  { intros [= <- <- <-]. split_and!; [done|by intros [? ?]|by intros ? [=]]. }
  destruct (negb (status =? 200)).
  { intros [= <- <- <-]. split_and!; [done|by intros [? ?]|by intros ? [=]]. }
  destruct (decode_object body) as [data|].
  2: { intros [= <- <- <-]. split_and!; [done|by intros [? ?]|by intros ? [=]]. }
  unfold pickRTRatings.
  destruct (as_array (index data "hits")) as [[|h hits]|];
    try (intros [= <- <- <-]; split_and!; [done|by intros [? ?]|by intros ? [=]]).
  rewrite bind_run.
  destruct (findBestMatch title year None (h :: hits)) as [[hit|]|]; simpl;
    [| |discriminate];
    intros [= <- <- <-]; (split_and!; [done|done|]); [|by intros ? [=]].
  intros x [= <-]. unfold scoresOf.
  by destruct (as_object (index hit "rottenTomatoes")).
Qed.

Lemma primaryRatings_inv (s : Service) (mediaType imdbID : string) (tmdbID : Z)
    (w w1 : World) (p : RatingsResult) :
  primaryRatings s mediaType imdbID tmdbID w = Ret p w1 →
  w_cache w1 = w_cache w
  ∧ w_now w ≤ w_now w1
  ∧ (w_log w1 = w_log w ∨ ∃ params, w_log w1 = w_log w ++ [MDBListGet params])
  ∧ RTCertified p = false.
Proof.
  unfold primaryRatings.
  destruct (negb (is_empty (db_GetSetting s "mdblist_api_key"))).
  2: { intros [= <- <-]. split_and!; [done|lia|by left|done]. }
  intros H. apply bind_inv in H as ([r e] & w' & Hrun & H).
  apply getMDBListRatings_inv in Hrun as (Hc & Hn & Hl & _ & Hcert).
  destruct e, r; injection H as <- <-; split_and!; try done. by apply Hcert.
Qed.

Lemma fallbackRatings_inv (s : Service) (title year mediaType : string)
    (p r : RatingsResult) (w1 w2 : World) :
  fallbackRatings s title year mediaType p w1 = Ret r w2 →
  w_cache w2 = w_cache w1
  ∧ w_now w1 ≤ w_now w2
  ∧ (w_log w2 = w_log w1 ∧ r = p
     ∨ w_log w2 = w_log w1 ++ [AlgoliaQuery (rtPayload title year mediaType)]
       ∧ RottenTomatoes p = None ∧ title ≠ "")
  ∧ IMDB r = IMDB p ∧ Metacritic r = Metacritic p.
Proof.
  unfold fallbackRatings, is_empty.
  destruct (RottenTomatoes p) eqn:Ep.
  { intros [= <- <-]. split_and!; [done|lia|by left|done|done]. }
  case_bool_decide as Ht; simpl.
  { intros [= <- <-]. split_and!; [done|lia|by left|done|done]. }
  intros H. apply bind_inv in H as ([rt e] & w' & Hrun & H).
  apply getRTRatings_inv in Hrun as (-> & _ & _).
  assert (w2 = after_call s (AlgoliaQuery (rtPayload title year mediaType)) w1
          ∧ IMDB r = IMDB p ∧ Metacritic r = Metacritic p) as (-> & Hi & Hm).
  { destruct e, rt; injection H as <- <-; split_and!; try done;
      apply (keeps_mergeRT p r0). }
  split_and!; try done; [simpl; lia|by right].
Qed.

(** X5.  One call of [GetRatings] makes at most two exchanges, and in this
    order: at most one with MDBList, then at most one with the Rotten
    Tomatoes index; no other collaborator is asked.  On a cache hit it
    makes none and leaves the world as it is.  It writes the cache under
    its own key only, never changes the default TTL, and the clock does
    not go back. *)
Theorem X5_ratings_footprint :
  ∀ (s : Service) (title year mediaType imdbID : string) (tmdbID : Z)
    (w w' : World) (x : RatingsResult * option error),
    GetRatings s title year mediaType imdbID tmdbID w = Ret x w' →
    (∃ l1 l2,
       w_log w' = w_log w ++ l1 ++ l2
       ∧ (l1 = [] ∨ ∃ params, l1 = [MDBListGet params])
       ∧ (l2 = [] ∨ l2 = [AlgoliaQuery (rtPayload title year mediaType)]))
    ∧ (is_Some (cache.Get (w_cache w) (w_now w) (ratingsKey title year mediaType)) →
       w' = w)
    ∧ (∀ key, key ≠ ratingsKey title year mediaType →
              cache.items (w_cache w') !! key = cache.items (w_cache w) !! key)
    ∧ cache.ttl (w_cache w') = cache.ttl (w_cache w)
    ∧ w_now w ≤ w_now w'.
Proof.
  intros s title year mediaType imdbID tmdbID w w' x. unfold GetRatings.
  rewrite bind_run. simpl.
  destruct (cache.Get (w_cache w) (w_now w) (ratingsKey title year mediaType))
    as [v|] eqn:E.
  - destruct v; try discriminate. intros [= _ <-].
    split_and!; [|done|done|done|lia].
    exists [], []. rewrite !app_nil_r. split_and!; [done|by left|by left].
  - intros H. apply bind_inv in H as (p & w1 & Hp & H).
    apply bind_inv in H as (r & w2 & Hf & H).
    apply bind_inv in H as (u & w3 & Hset & H). injection H as _ <-.
    injection Hset as _ <-.
    apply primaryRatings_inv in Hp as (Hc1 & Hn1 & Hl1 & _).
    apply fallbackRatings_inv in Hf as (Hc2 & Hn2 & Hl2 & _).
    split_and!.
    + simpl. destruct Hl1 as [Hl1 | [params Hl1]], Hl2 as [[Hl2 _] | [Hl2 _]];
        rewrite Hl2, Hl1.
      * exists [], []. rewrite !app_nil_r. split_and!; [done|by left|by left].
      * exists [], [AlgoliaQuery (rtPayload title year mediaType)].
        split_and!; [done|by left|by right].
      * exists [MDBListGet params], []. rewrite !app_nil_r.
        split_and!; [done|right; by eexists|by left].
      * exists [MDBListGet params], [AlgoliaQuery (rtPayload title year mediaType)].
        split_and!; [by rewrite <- app_assoc|right; by eexists|by right].
    + by intros [? ?].
    + intros key Hne. simpl. rewrite lookup_insert_ne by done. congruence.
    + simpl. congruence.
    + simpl. lia.
Qed.

Lemma X5_witness :
  calls (GetRatings (stub (mdb_answer "tomatoesaudience" 70%float) rt_answer)
           "Foo" "" "movie" "tt0000001" 0 world0)
  = w_log world0
    ++ [MDBListGet (<["i" := "tt0000001"]> (<["apikey" := "mdb-key"]> ∅))]
    ++ [AlgoliaQuery (rtPayload "Foo" "" "movie")]
  ∧ ∃ x w' l1 l2,
      GetRatings (stub (mdb_answer "tomatoesaudience" 70%float) rt_answer)
        "Foo" "" "movie" "tt0000001" 0 world0 = Ret x w'
      ∧ w_log w' = w_log world0 ++ l1 ++ l2.
Proof.
  split; [by vm_compute|].
  assert (∃ x w',
            GetRatings (stub (mdb_answer "tomatoesaudience" 70%float) rt_answer)
              "Foo" "" "movie" "tt0000001" 0 world0 = Ret x w')
    as (x & w' & Hrun) by (vm_compute; eexists _, _; reflexivity).
  destruct (X5_ratings_footprint _ _ _ _ _ _ _ _ _ Hrun)
    as ((l1 & l2 & Hl & _) & _).
  exists x, w', l1, l2. exact (conj Hrun Hl).
Defined.

(** X6.  The certified flag of the record [GetRatings] builds comes from
    the Rotten Tomatoes index alone: MDBList never raises it, so on a cache
    miss a record with the flag up means that the index was queried in
    this call.  Likewise the index never contributes an IMDB or Metacritic
    score. *)
Theorem X6_certified_comes_from_the_index_only :
  ∀ (s : Service) (title year mediaType imdbID : string) (tmdbID : Z)
    (w w' : World) (r : RatingsResult) (e : option error),
    cache.Get (w_cache w) (w_now w) (ratingsKey title year mediaType) = None →
    GetRatings s title year mediaType imdbID tmdbID w = Ret (r, e) w' →
    (RTCertified r = true →
     last (w_log w') = Some (AlgoliaQuery (rtPayload title year mediaType))
     ∧ title ≠ "")
    ∧ ∃ p w1,
        primaryRatings s mediaType imdbID tmdbID w = Ret p w1
        ∧ RTCertified p = false
        ∧ IMDB r = IMDB p ∧ Metacritic r = Metacritic p.
Proof.
  intros s title year mediaType imdbID tmdbID w w' r e Hmiss. unfold GetRatings.
  rewrite bind_run. simpl. rewrite Hmiss.
  intros H. apply bind_inv in H as (p & w1 & Hp & H).
  apply bind_inv in H as (r' & w2 & Hf & H).
  apply bind_inv in H as (u & w3 & Hset & H). injection H as <- <- <-.
  injection Hset as _ <-.
  pose proof Hp as Hp'. apply primaryRatings_inv in Hp' as (_ & _ & _ & Hcert).
  apply fallbackRatings_inv in Hf as (_ & _ & Hl2 & Hi & Hm).
  split; [|by exists p, w1].
  intros Hup. simpl. destruct Hl2 as [[_ ->] | (-> & _ & Ht)]; [congruence|].
  split; [apply last_snoc|done].
Qed.

Lemma X6_witness :
  cache.Get (w_cache world0) (w_now world0) (ratingsKey "Foo" "" "movie") = None
  ∧ ∃ r e w' p w1,
      GetRatings (stub (mdb_answer "tomatoesaudience" 70%float) rt_answer)
        "Foo" "" "movie" "tt0000001" 0 world0 = Ret (r, e) w'
      ∧ primaryRatings (stub (mdb_answer "tomatoesaudience" 70%float) rt_answer)
          "movie" "tt0000001" 0 world0 = Ret p w1
      ∧ RTCertified p = false.
Proof.
  split; [reflexivity|].
  assert (∃ r e w',
            GetRatings (stub (mdb_answer "tomatoesaudience" 70%float) rt_answer)
              "Foo" "" "movie" "tt0000001" 0 world0 = Ret (r, e) w')
    as (r & e & w' & Hrun) by (vm_compute; eexists _, _, _; reflexivity).
  destruct (X6_certified_comes_from_the_index_only
              (stub (mdb_answer "tomatoesaudience" 70%float) rt_answer)
              "Foo" "" "movie" "tt0000001" 0 world0 w' r e eq_refl Hrun)
    as (_ & p & w1 & Hp & Hcert & _).
  exists r, e, w', p, w1. exact (conj Hrun (conj Hp Hcert)).
Defined.

(** X7.  The two providers do not read an unrecognised media type the same
    way.  When a title is identified by its TMDB id and the media type is
    none of movie, tv and series (the handler passes the query value on
    as it is, the empty one included), MDBList is asked about a movie and
    the Rotten Tomatoes index about a TV series. *)
Theorem X7_providers_disagree_on_unknown_media_types :
  ∀ (s : Service) (title year mediaType : string) (tmdbID : Z) (w w' : World)
    (x : RatingsResult * option error),
    mediaType ≠ "movie" → mediaType ≠ "tv" → mediaType ≠ "series" →
    GetRatings s title year mediaType "" tmdbID w = Ret x w' →
    index (rtPayload title year mediaType) "filters"
    = JStr "isEmsSearchable:true AND type:tvSeries"
    ∧ ∃ l1 l2,
        w_log w' = w_log w ++ l1 ++ l2
        ∧ (l1 = []
           ∨ l1 = [MDBListGet
                     (<["m" := "movie"]>
                        (<["tm" := fmt_d tmdbID]>
                           (<["apikey" := db_GetSetting s "mdblist_api_key"]> ∅)))])
        ∧ (l2 = [] ∨ l2 = [AlgoliaQuery (rtPayload title year mediaType)]).
Proof.
  intros s title year mediaType tmdbID w w' x Hm Htv Hse. split.
  { unfold rtPayload. by rewrite bool_decide_eq_false_2. }
  revert H. unfold GetRatings. rewrite bind_run. simpl.
  destruct (cache.Get (w_cache w) (w_now w) (ratingsKey title year mediaType))
    as [v|].
  { destruct v; try discriminate. intros [= _ <-].
    exists [], []. rewrite !app_nil_r. split_and!; [done|by left|by left]. }
  intros H. apply bind_inv in H as (p & w1 & Hp & H).
  apply bind_inv in H as (r & w2 & Hf & H).
  apply bind_inv in H as (u & w3 & Hset & H). injection H as _ <-.
  injection Hset as _ <-. simpl.
  apply fallbackRatings_inv in Hf as (_ & _ & Hl2 & _).
  assert (w_log w1 = w_log w
          ∨ w_log w1
            = w_log w ++ [MDBListGet
                            (<["m" := "movie"]>
                               (<["tm" := fmt_d tmdbID]>
                                  (<["apikey" := db_GetSetting s "mdblist_api_key"]> ∅)))])
    as Hl1.
  { revert Hp. unfold primaryRatings.
    destruct (negb (is_empty (db_GetSetting s "mdblist_api_key")));
      [|intros [= _ <-]; by left].
    intros H. apply bind_inv in H as ([r0 e0] & w0 & Hrun & H).
    assert (w1 = w0) as -> by (by destruct e0, r0; injection H as _ <-).
    revert Hrun. unfold getMDBListRatings. simpl.
    destruct (0 <? tmdbID); [|intros [= _ _ <-]; by left].
    rewrite !bool_decide_eq_false_2 by done. simpl.
    intros Hrun. apply mdblistLookup_inv in Hrun as (-> & _). by right. }
  destruct Hl1 as [Hl1 | Hl1], Hl2 as [[Hl2 _] | [Hl2 _]]; rewrite Hl2, Hl1.
  - exists [], []. rewrite !app_nil_r. split_and!; [done|by left|by left].
  - exists [], [AlgoliaQuery (rtPayload title year mediaType)].
    split_and!; [done|by left|by right].
  - exists [MDBListGet
              (<["m" := "movie"]>
                 (<["tm" := fmt_d tmdbID]>
                    (<["apikey" := db_GetSetting s "mdblist_api_key"]> ∅)))], [].
    rewrite !app_nil_r. split_and!; [done|by right|by left].
  - exists [MDBListGet
              (<["m" := "movie"]>
                 (<["tm" := fmt_d tmdbID]>
                    (<["apikey" := db_GetSetting s "mdblist_api_key"]> ∅)))],
           [AlgoliaQuery (rtPayload title year mediaType)].
    split_and!; [by rewrite <- app_assoc|by right|by right].
Qed.

Lemma X7_witness :
  "" ≠ "movie" ∧ "" ≠ "tv" ∧ "" ≠ "series"
  ∧ calls (GetRatings (stub (mdb_answer "tomatoesaudience" 70%float) rt_answer)
             "Foo" "" "" "" 603 world0)
    = [MDBListGet (<["m" := "movie"]>
                     (<["tm" := "603"]> (<["apikey" := "mdb-key"]> ∅)));
       AlgoliaQuery (rtPayload "Foo" "" "")]
  ∧ index (rtPayload "Foo" "" "") "filters"
    = JStr "isEmsSearchable:true AND type:tvSeries".
Proof.
  assert (∃ x w',
            GetRatings (stub (mdb_answer "tomatoesaudience" 70%float) rt_answer)
              "Foo" "" "" "" 603 world0 = Ret x w')
    as (x & w' & Hrun) by (vm_compute; eexists _, _; reflexivity).
  assert ("" ≠ "movie") as H1 by discriminate.
  assert ("" ≠ "tv") as H2 by discriminate.
  assert ("" ≠ "series") as H3 by discriminate.
  destruct (X7_providers_disagree_on_unknown_media_types
              (stub (mdb_answer "tomatoesaudience" 70%float) rt_answer)
              "Foo" "" "" 603 world0 w' x H1 H2 H3 Hrun) as (Hf & _).
  assert (calls (GetRatings (stub (mdb_answer "tomatoesaudience" 70%float) rt_answer)
                   "Foo" "" "" "" 603 world0)
          = [MDBListGet (<["m" := "movie"]>
                           (<["tm" := "603"]> (<["apikey" := "mdb-key"]> ∅)));
             AlgoliaQuery (rtPayload "Foo" "" "")]) as Hc
    by (vm_compute; reflexivity).
  exact (conj H1 (conj H2 (conj H3 (conj Hc Hf)))).
Defined.

Lemma append_assoc (a b c : string) : (a +:+ b) +:+ c = a +:+ b +:+ c.
Proof.
  induction a as [|x a IH]; [done|].
  change (String x ((a +:+ b) +:+ c) = String x (a +:+ b +:+ c)). by rewrite IH.
Qed.

Lemma ratingsKey_shift (a b year mediaType : string) :
  ratingsKey (a +:+ "_" +:+ b) year mediaType
  = ratingsKey a (b +:+ "_" +:+ year) mediaType.
Proof. unfold ratingsKey. by rewrite !append_assoc. Qed.

Lemma GetRatings_leaves_entry (s : Service) (title year mediaType imdbID : string)
    (tmdbID : Z) (w w' : World) (r : RatingsResult) (e : option error) :
  0 ≤ cache.ttl (w_cache w) →
  GetRatings s title year mediaType imdbID tmdbID w = Ret (r, e) w' →
  cache.Get (w_cache w') (w_now w') (ratingsKey title year mediaType)
  = Some (AnyRatings r).
Proof.
  intros Httl. unfold GetRatings. rewrite bind_run. simpl.
  destruct (cache.Get (w_cache w) (w_now w) (ratingsKey title year mediaType))
    as [v|] eqn:E.
  { destruct v; try discriminate. by intros [= <- _ <-]. }
  intros H. apply bind_inv in H as (p & w1 & Hp & H).
  apply bind_inv in H as (r' & w2 & Hf & H).
  apply bind_inv in H as (u & w3 & Hset & H). injection H as <- _ <-.
  injection Hset as _ <-. simpl.
  apply primaryRatings_inv in Hp as (Hc1 & _).
  apply fallbackRatings_inv in Hf as (Hc2 & _).
  rewrite Get_Set, Hc2, Hc1. unfold cache.After.
  by rewrite (proj2 (Z.ltb_ge _ _)) by lia.
Qed.

(** X8.  The cache key of the ratings does not keep its three parts
    apart: it is their concatenation with underscores, so a title with an
    underscore in it and a shorter title with a longer year share a key.
    A lookup for the one is then answered, with no exchange, by the record
    that was computed for the other. *)
Theorem X8_ratings_key_collisions :
  ∀ (s : Service) (a b year mediaType imdbID imdbID' : string)
    (tmdbID tmdbID' : Z) (w w' : World) (r : RatingsResult) (e : option error),
    0 ≤ cache.ttl (w_cache w) →
    GetRatings s (a +:+ "_" +:+ b) year mediaType imdbID tmdbID w = Ret (r, e) w' →
    ratingsKey (a +:+ "_" +:+ b) year mediaType
    = ratingsKey a (b +:+ "_" +:+ year) mediaType
    ∧ GetRatings s a (b +:+ "_" +:+ year) mediaType imdbID' tmdbID' w'
      = Ret (r, None) w'.
Proof.
  intros s a b year mediaType imdbID imdbID' tmdbID tmdbID' w w' r e Httl Hrun.
  split; [apply ratingsKey_shift|].
  apply GetRatings_hit. rewrite <- ratingsKey_shift.
  by eapply GetRatings_leaves_entry.
Qed.

Lemma X8_witness :
  0 ≤ cache.ttl (w_cache world0)
  ∧ ∃ r e w',
      GetRatings (stub (mdb_answer "tomatoes" 80%float) rt_answer)
        "Face_Off" "1997" "movie" "tt0119094" 0 world0 = Ret (r, e) w'
      ∧ GetRatings (stub (mdb_answer "tomatoes" 80%float) rt_answer)
          "Face" "Off_1997" "movie" "" 0 w' = Ret (r, None) w'.
Proof.
  assert (0 ≤ cache.ttl (w_cache world0)) as Httl by (vm_compute; discriminate).
  split; [exact Httl|].
  assert (∃ r e w',
            GetRatings (stub (mdb_answer "tomatoes" 80%float) rt_answer)
              "Face_Off" "1997" "movie" "tt0119094" 0 world0 = Ret (r, e) w')
    as (r & e & w' & Hrun) by (vm_compute; eexists _, _, _; reflexivity).
  exists r, e, w'. split; [exact Hrun|].
  exact (proj2 (X8_ratings_key_collisions
                  (stub (mdb_answer "tomatoes" 80%float) rt_answer)
                  "Face" "Off" "1997" "movie" "tt0119094" "" 0 0 world0 w' r e
                  Httl Hrun)).
Defined.

(** ** The fallback lookup *)

Lemma findBestMatch_found (title year : string) (best : option object)
    (hits : list json) :
  findBestMatch title year best hits = Some None → best = None ∧ hits = [].
Proof.
  revert best. induction hits as [|h hits IH]; intros best; simpl.
  { by intros [= ->]. }
  destruct (as_object h) as [hit|]; [|discriminate]. simpl.
  destruct (bool_decide _); [destruct (_ && _); [discriminate|]|];
    destruct best; intros H; by apply IH in H as [? ?].
Qed.

Lemma rtPayload_fields (title year mediaType : string) :
  index (rtPayload title year mediaType) "query"
  = JStr (if bool_decide (year = "") then title else title +:+ " " +:+ year)
  ∧ index (rtPayload title year mediaType) "filters"
    = JStr (if bool_decide (mediaType = "movie")
            then "isEmsSearchable:true AND type:movie"
            else "isEmsSearchable:true AND type:tvSeries")
  ∧ index (rtPayload title year mediaType) "hitsPerPage" = JNum 5%float.
Proof.
  unfold rtPayload, index, is_empty. split_and!.
  - rewrite lookup_insert_eq. simpl. by case_bool_decide.
  - rewrite lookup_insert_ne by discriminate. rewrite lookup_insert_eq. simpl.
    by case_bool_decide.
  - rewrite !lookup_insert_ne by discriminate. by rewrite lookup_insert_eq.
Qed.

(** X9.  The fallback lookup in the Rotten Tomatoes index.  It makes
    exactly one exchange, a query for the title (followed by the year when
    there is one) restricted to movies for the media type movie and to TV
    series for any other, asking for five hits.  It reports an error
    exactly when the exchange failed (no response, a status other than
    200, a body that does not decode); an answer without hits is not an
    error but yields no record.  A call that returns on an answer with
    at least one hit returns a record (the matcher's final nil check
    cannot fire), built from the best match alone; it never carries an
    IMDB or a Metacritic score. *)
Theorem X9_fallback_lookup :
  ∀ (s : Service) (title year mediaType : string) (w w' : World)
    (r : option RatingsResult) (e : option error),
    getRTRatings s title year mediaType w = Ret (r, e) w' →
    w' = after_call s (AlgoliaQuery (rtPayload title year mediaType)) w
    ∧ (e ≠ None
       ↔ failed (client_Do s (w_log w) (AlgoliaQuery (rtPayload title year mediaType))))
    ∧ (e ≠ None → r = None)
    ∧ (r = None ∧ e = None
       ↔ ∃ body data,
           client_Do s (w_log w) (AlgoliaQuery (rtPayload title year mediaType))
           = Response 200 body
           ∧ decode_object body = Some data
           ∧ (as_array (index data "hits") = None
              ∨ as_array (index data "hits") = Some []))
    ∧ (∀ x, r = Some x →
         ∃ body data hits hit,
           client_Do s (w_log w) (AlgoliaQuery (rtPayload title year mediaType))
           = Response 200 body
           ∧ decode_object body = Some data
           ∧ as_array (index data "hits") = Some hits
           ∧ findBestMatch title year None hits = Some (Some hit)
           ∧ x = scoresOf hit ∧ IMDB x = "" ∧ Metacritic x = None)
    ∧ index (rtPayload title year mediaType) "query"
      = JStr (if bool_decide (year = "") then title else title +:+ " " +:+ year)
    ∧ index (rtPayload title year mediaType) "filters"
      = JStr (if bool_decide (mediaType = "movie")
              then "isEmsSearchable:true AND type:movie"
              else "isEmsSearchable:true AND type:tvSeries")
    ∧ index (rtPayload title year mediaType) "hitsPerPage" = JNum 5%float.
Proof.
  intros s title year mediaType w w' r e.
  pose proof (rtPayload_fields title year mediaType) as (Hq & Hf & Hh).
  unfold getRTRatings. rewrite bind_run, roundtrip_run.
  destruct (client_Do s (w_log w) _) as [|status body] eqn:E.
  { intros [= <- <- <-].
    split_and!; [done|done|done| |by intros ? [=]|done|done|done].
    split; [by intros [_ [=]]|by intros (? & ? & [=] & _)]. }
  destruct (status =? 200) eqn:Est; simpl.
  2: { apply Z.eqb_neq in Est. intros [= <- <- <-].
       split_and!; [done| |done| |by intros ? [=]|done|done|done].
       - split; [by left|done].
       - split; [by intros [_ [=]]|]. intros (? & ? & [= ? ?] & _). done. }
  apply Z.eqb_eq in Est as ->.
  destruct (decode_object body) as [data|] eqn:Ed.
  2: { intros [= <- <- <-].
       split_and!; [done| |done| |by intros ? [=]|done|done|done].
       - split; [by right|done].
       - split; [by intros [_ [=]]|]. intros (? & ? & [= <-] & ? & _). congruence. }
  unfold pickRTRatings.
  destruct (as_array (index data "hits")) as [[|h hits]|] eqn:Eh.
  - intros [= <- <- <-].
    split_and!; [done| |done| |by intros ? [=]|done|done|done].
    + split; [done|]. intros [? | ?]; [done|congruence].
    + split; [|done]. intros _. exists body, data. split_and!; [done|done|by right].
  - rewrite bind_run.
    destruct (findBestMatch title year None (h :: hits)) as [[hit|]|] eqn:Eb;
      simpl; [| |discriminate].
    2: { by apply findBestMatch_found in Eb as [_ ?]. }
    intros [= <- <- <-].
    split_and!; [done| |done| | |done|done|done].
    + split; [done|]. intros [? | ?]; [done|congruence].
    + split; [by intros [[=] _]|].
      intros (? & ? & [= <-] & Hd & [Hn | Hn]); rewrite Ed in Hd;
        injection Hd as <-; rewrite Eh in Hn; discriminate.
    + intros x [= <-]. exists body, data, (h :: hits), hit.
      split_and!; try done; unfold scoresOf;
        by destruct (as_object (index hit "rottenTomatoes")).
  - intros [= <- <- <-].
    split_and!; [done| |done| |by intros ? [=]|done|done|done].
    + split; [done|]. intros [? | ?]; [done|congruence].
    + split; [|done]. intros _. exists body, data. split_and!; [done|done|by left].
Qed.

Lemma X9_witness :
  ∃ w',
    getRTRatings (stub (mdb_answer "imdb" 7.9%float) rt_answer) "Foo" "1999" "movie"
      world0
    = Ret (Some (mkRatings (Some 60) (Some 50) false "" None), None) w'
    ∧ w_log w' = [AlgoliaQuery (rtPayload "Foo" "1999" "movie")]
    ∧ index (rtPayload "Foo" "1999" "movie") "query" = JStr "Foo 1999".
Proof.
  assert (∃ w',
            getRTRatings (stub (mdb_answer "imdb" 7.9%float) rt_answer) "Foo" "1999"
              "movie" world0
            = Ret (Some (mkRatings (Some 60) (Some 50) false "" None), None) w')
    as (w' & Hrun) by (vm_compute; eexists; reflexivity).
  destruct (X9_fallback_lookup _ _ _ _ _ _ _ _ Hrun)
    as (Hw & _ & _ & _ & _ & Hq & _).
  exists w'. refine (conj Hrun (conj _ Hq)). rewrite Hw. reflexivity.
Defined.

(** ** Runs that only move forward *)

Section Steps.
Context (R : World → World → Prop).
Hypothesis R_refl : ∀ w, R w w.
Hypothesis R_trans : ∀ w1 w2 w3, R w1 w2 → R w2 w3 → R w1 w3.

Lemma steps_ret {A} (a : A) : steps R (mret a).
Proof. intros w w' a' [= _ <-]. apply R_refl. Qed.

Lemma steps_panic {A} : steps R (@panic A).
Proof. by intros w w' a. Qed.

Lemma steps_must {A} (o : option A) : steps R (must o).
Proof. destruct o; [apply steps_ret|apply steps_panic]. Qed.

Lemma steps_Get (key : string) : steps R (cache_Get key).
Proof. intros w w' a [= _ <-]. apply R_refl. Qed.

Lemma steps_bind {A B} (m : M A) (f : A → M B) :
  steps R m → (∀ a, steps R (f a)) → steps R (m ≫= f).
Proof.
  intros Hm Hf w w' b H. apply bind_inv in H as (a & w1 & Hrun & H).
  eapply R_trans; [by eapply Hm|by eapply Hf].
Qed.

Lemma steps_runTasks (task : object → M MediaItem) (raw : list object)
    (sched : list nat) (items : list MediaItem) :
  (∀ m, steps R (task m)) → steps R (runTasks task raw sched items).
Proof.
  intros Htask. revert items.
  induction sched as [|i sched IH]; intros items; simpl; [apply steps_ret|].
  destruct (raw !! i); [|apply IH]. apply steps_bind; [apply Htask|].
  intros it. apply IH.
Qed.

Lemma steps_fanOut (task : object → M MediaItem) (results : list json)
    (sched : list nat) :
  (∀ m, steps R (task m)) → steps R (fanOut task results sched).
Proof.
  intros Htask. unfold fanOut. apply steps_bind; [apply steps_must|].
  intros raw. by apply steps_runTasks.
Qed.

End Steps.

Lemma advances_refl (w : World) : advances w w.
Proof. split_and!; [lia|done|]. exists []. by rewrite app_nil_r. Qed.

Lemma advances_trans (w1 w2 w3 : World) :
  advances w1 w2 → advances w2 w3 → advances w1 w3.
Proof.
  intros (Hn1 & Ht1 & l1 & Hl1) (Hn2 & Ht2 & l2 & Hl2). split_and!.
  - lia.
  - congruence.
  - exists (l1 ++ l2). by rewrite Hl2, Hl1, app_assoc.
Qed.

Lemma advances_roundtrip (s : Service) (c : call) : steps advances (roundtrip s c).
Proof.
  intros w w' a [= _ <-]. split_and!; [simpl; lia|done|by exists [c]].
Qed.

Lemma advances_Set (key : string) (v : any) : steps advances (cache_Set key v).
Proof.
  intros w w' a [= _ <-]. split_and!; [simpl; lia|done|].
  exists []. by rewrite app_nil_r.
Qed.

Lemma advances_SetWithTTL (key : string) (v : any) (d : Z) :
  steps advances (cache_SetWithTTL key v d).
Proof.
  intros w w' a [= _ <-]. split_and!; [simpl; lia|done|].
  exists []. by rewrite app_nil_r.
Qed.

Lemma advances_GetRequestedIDs (s : Service) (mediaType : string) :
  steps advances (GetRequestedIDs s mediaType).
Proof.
  intros w w' a. unfold GetRequestedIDs.
  destruct (db_Query _ _ _); intros [= _ <-];
    (split_and!; [simpl; lia|done|by eexists]).
Qed.

Ltac adv_step :=
  first
    [ apply (steps_ret advances advances_refl)
    | apply steps_panic
    | apply (steps_must advances advances_refl)
    | apply (steps_Get advances advances_refl)
    | apply advances_roundtrip | apply advances_Set | apply advances_SetWithTTL
    | apply advances_GetRequestedIDs
    | apply (steps_fanOut advances advances_refl advances_trans)
    | apply (steps_bind advances advances_trans)
    | match goal with
      | |- steps advances (match ?x with _ => _ end) => destruct x
      | |- steps advances (if ?b then _ else _) => destruct b
      | |- ∀ _, _ => intros ?
      end ].

Lemma advances_request (s : Service) (endpoint : string)
    (params : gmap string string) :
  steps advances (request s endpoint params).
Proof. unfold request. repeat adv_step. Qed.

Lemma advances_enrichMovie (s : Service) (existingIDs requestedIDs : gmap Z bool)
    (movie : object) :
  steps advances (enrichMovie s existingIDs requestedIDs movie).
Proof.
  unfold enrichMovie, resolveMovie. repeat first [apply advances_request | adv_step].
Qed.

Lemma advances_enrichShow (s : Service) (existingIDs requestedIDs : gmap Z bool)
    (show : object) :
  steps advances (enrichShow s existingIDs requestedIDs show).
Proof.
  unfold enrichShow, resolveShow. repeat first [apply advances_request | adv_step].
Qed.

Lemma advances_getExistingIDs (s : Service) (urlSetting keySetting cacheKey path
    field : string) :
  steps advances (getExistingIDs s urlSetting keySetting cacheKey path field).
Proof. unfold getExistingIDs. repeat adv_step. Qed.

(** ** Requests to TMDB *)

Lemma tmdbCall_query (s : Service) (endpoint : string) (params : gmap string string) :
  tmdbCall s endpoint params = TMDBGet endpoint (tmdbQuery s params).
Proof. reflexivity. Qed.

Lemma tmdbQuery_params (s : Service) (params : gmap string string) (k : string) :
  k ≠ "api_key" → tmdbQuery s params !! k = params !! k.
Proof.
  intros Hk. unfold tmdbQuery. destruct (params !! k) as [v|] eqn:E.
  - by apply lookup_union_Some_l.
  - rewrite lookup_union_r by done. by apply lookup_singleton_ne.
Qed.

Lemma tmdbQuery_key (s : Service) (params : gmap string string) :
  params !! "api_key" = None →
  tmdbQuery s params !! "api_key" = Some (db_GetSetting s "tmdb_api_key").
Proof.
  intros Hk. unfold tmdbQuery. rewrite lookup_union_r by done.
  apply lookup_singleton_eq.
Qed.

(** X10.  The outcomes of a request to TMDB.  Without an API key nothing is
    sent and the error says so.  With a key exactly one exchange is made,
    whose query holds every parameter given and the key (a parameter named
    api_key would take its place); the data come back with a nil error
    exactly when the reply has status 200 and a body that decodes, and an
    error always comes with empty data.  The cache is never touched and
    the call always returns. *)
Theorem X10_request_outcomes :
  ∀ (s : Service) (endpoint : string) (params : gmap string string) (w : World),
    (db_GetSetting s "tmdb_api_key" = "" →
     request s endpoint params w
     = Ret (∅, Some (Errorf "TMDB API key not configured")) w)
    ∧ (db_GetSetting s "tmdb_api_key" ≠ "" →
       ∃ d e,
         request s endpoint params w
         = Ret (d, e) (after_call s (TMDBGet endpoint (tmdbQuery s params)) w)
         ∧ (e = None ↔
            ∃ body,
              client_Do s (w_log w) (TMDBGet endpoint (tmdbQuery s params))
              = Response 200 body
              ∧ decode_object body = Some d)
         ∧ (e ≠ None → d = ∅))
    ∧ (∀ k v, params !! k = Some v → tmdbQuery s params !! k = Some v)
    ∧ (params !! "api_key" = None →
       tmdbQuery s params !! "api_key" = Some (db_GetSetting s "tmdb_api_key"))
    ∧ (∀ k, k ≠ "api_key" → tmdbQuery s params !! k = params !! k).
Proof.
  intros s endpoint params w. unfold request, is_empty, tmdbQuery. split_and!.
  - intros ->. done.
  - intros Hkey. rewrite bool_decide_eq_false_2 by done.
    rewrite bind_run, roundtrip_run.
    destruct (client_Do s (w_log w) _) as [|status body] eqn:E.
    { eexists _, _. split_and!; [done| |done].
      split; [done|]. by intros (? & ? & _). }
    destruct (status =? 200) eqn:Est; simpl.
    2: { apply Z.eqb_neq in Est. eexists _, _. split_and!; [done| |done].
         split; [done|]. intros (? & [= ? ?] & _). done. }
    apply Z.eqb_eq in Est as ->.
    destruct (decode_object body) as [data|] eqn:Ed.
    + eexists _, _. split_and!; [done| |done]. split; [|done].
      intros _. by exists body.
    + eexists _, _. split_and!; [done| |done]. split; [done|].
      intros (? & [= <-] & ?). rewrite Ed in *. discriminate.
  - intros k v Hk. by apply lookup_union_Some_l.
  - apply tmdbQuery_key.
  - apply tmdbQuery_params.
Qed.

Lemma X10_witness :
  db_GetSetting catalog "tmdb_api_key" ≠ ""
  ∧ (detailParams : gmap string string) !! "api_key" = None
  ∧ (∃ d e,
       request catalog "movie/603" detailParams world0
       = Ret (d, e)
             (after_call catalog (TMDBGet "movie/603" (tmdbQuery catalog detailParams))
                world0))
  ∧ tmdbQuery catalog detailParams !! "api_key" = Some "tmdb-key".
Proof.
  assert (db_GetSetting catalog "tmdb_api_key" ≠ "") as Hkey by discriminate.
  assert ((detailParams : gmap string string) !! "api_key" = None) as Hno
    by (vm_compute; reflexivity).
  destruct (X10_request_outcomes catalog "movie/603" detailParams world0)
    as (_ & Hrun & _ & Hq & _).
  destruct (Hrun Hkey) as (d & e & Hreq & _).
  refine (conj Hkey (conj Hno (conj _ (Hq Hno)))).
  exists d, e. exact Hreq.
Defined.

(** ** Discovery *)

Lemma runTasks_length (task : object → M MediaItem) (raw : list object)
    (sched : list nat) (items items' : list MediaItem) (w w' : World) :
  runTasks task raw sched items w = Ret items' w' → length items' = length items.
Proof.
  revert items w. induction sched as [|i sched IH]; intros items w; simpl.
  { by intros [= <- _]. }
  destruct (raw !! i) as [r|]; [|apply IH].
  intros H. apply bind_inv in H as (it & w1 & _ & H).
  apply IH in H. by rewrite length_insert in H.
Qed.

Lemma fanOut_length (task : object → M MediaItem) (results : list json)
    (sched : list nat) (items : list MediaItem) (w w' : World) :
  fanOut task results sched w = Ret items w' → length items = length results.
Proof.
  unfold fanOut. intros H. apply bind_inv in H as (raw & w1 & _ & H).
  apply runTasks_length in H. by rewrite length_replicate in H.
Qed.

Lemma DiscoverMovies_inv (s : Service) (sched : list nat) (page : Z)
    (sortBy year : string) (w w' : World) (items : list MediaItem) (tp : Z)
    (e : option error) :
  DiscoverMovies s sched page sortBy year w = Ret (items, tp, e) w' →
  ∃ data e0 w1,
    request s "discover/movie" (discoverMovieParams page sortBy year) w
    = Ret (data, e0) w1
    ∧ match e0 with
      | Some err => items = [] ∧ tp = 0 ∧ e = Some err ∧ w' = w1
      | None =>
          e = None
          ∧ ∃ t ex e1 w2 rq e2 w3,
              as_float64 (index data "total_pages") = Some t
              ∧ tp = clampPages (float_to_int t)
              ∧ getExistingMovieIDs s w1 = Ret (ex, e1) w2
              ∧ GetRequestedIDs s "movie" w2 = Ret (rq, e2) w3
              ∧ fanOut (enrichMovie s ex rq)
                  (default [] (as_array (index data "results"))) sched w3
                = Ret items w'
      end.
Proof.
  unfold DiscoverMovies. intros H.
  apply bind_inv in H as ([data e0] & w1 & Hreq & H).
  exists data, e0, w1. split; [done|].
  destruct e0 as [err|]; [by injection H as <- <- <- <-|].
  apply bind_inv in H as (t & w1' & Ht & H).
  destruct (as_float64 (index data "total_pages")) as [t'|] eqn:Etp; [|done].
  injection Ht as <- <-.
  apply bind_inv in H as ([ex e1] & w2 & Hex & H).
  apply bind_inv in H as ([rq e2] & w3 & Hrq & H).
  apply bind_inv in H as (its & w4 & Hfan & H). injection H as <- <- <- <-.
  split; [done|]. by exists t', ex, e1, w2, rq, e2, w3.
Qed.

Lemma DiscoverTV_inv (s : Service) (sched : list nat) (page : Z)
    (sortBy year : string) (w w' : World) (items : list MediaItem) (tp : Z)
    (e : option error) :
  DiscoverTV s sched page sortBy year w = Ret (items, tp, e) w' →
  ∃ data e0 w1,
    request s "discover/tv" (discoverTVParams page sortBy year) w
    = Ret (data, e0) w1
    ∧ match e0 with
      | Some err => items = [] ∧ tp = 0 ∧ e = Some err ∧ w' = w1
      | None =>
          e = None
          ∧ ∃ t ex e1 w2 rq e2 w3,
              as_float64 (index data "total_pages") = Some t
              ∧ tp = clampPages (float_to_int t)
              ∧ getExistingSeriesIDs s w1 = Ret (ex, e1) w2
              ∧ GetRequestedIDs s "series" w2 = Ret (rq, e2) w3
              ∧ fanOut (enrichShow s ex rq)
                  (default [] (as_array (index data "results"))) sched w3
                = Ret items w'
      end.
Proof.
  unfold DiscoverTV. intros H.
  apply bind_inv in H as ([data e0] & w1 & Hreq & H).
  exists data, e0, w1. split; [done|].
  destruct e0 as [err|]; [by injection H as <- <- <- <-|].
  apply bind_inv in H as (t & w1' & Ht & H).
  destruct (as_float64 (index data "total_pages")) as [t'|] eqn:Etp; [|done].
  injection Ht as <- <-.
  apply bind_inv in H as ([ex e1] & w2 & Hex & H).
  apply bind_inv in H as ([rq e2] & w3 & Hrq & H).
  apply bind_inv in H as (its & w4 & Hfan & H). injection H as <- <- <- <-.
  split; [done|]. by exists t', ex, e1, w2, rq, e2, w3.
Qed.

Lemma clampPages_le (n : Z) : clampPages n ≤ 500.
Proof. unfold clampPages. destruct (500 <? n) eqn:E; [done|]. by apply Z.ltb_ge. Qed.

Lemma request_error (s : Service) (endpoint : string) (params : gmap string string)
    (w w1 : World) (d : object) (err : error) :
  request s endpoint params w = Ret (d, Some err) w1 →
  d = ∅ ∧ w_cache w1 = w_cache w
  ∧ (w_log w1 = w_log w ∨ w_log w1 = w_log w ++ [tmdbCall s endpoint params]).
Proof.
  unfold request.
  destruct (is_empty (db_GetSetting s "tmdb_api_key")).
  { intros [= <- _ <-]. split_and!; [done|done|by left]. }
  rewrite bind_run, roundtrip_run.
  destruct (client_Do s (w_log w) _) as [|status body].
  { intros [= <- _ <-]. split_and!; [done|done|by right]. }
  destruct (negb (status =? 200)).
  { intros [= <- _ <-]. split_and!; [done|done|by right]. }
  destruct (decode_object body); [discriminate|].
  intros [= <- _ <-]. split_and!; [done|done|by right].
Qed.

(** X11.  What a discovery call returns.  The number of pages never
    exceeds 500.  When the discovery request itself fails, the call
    returns that error with no items and 0 pages, and does nothing else:
    the library, the ledger and the details are not asked and the cache
    is as it was.  A call that returns a nil error had a successful
    discovery request; the number of pages is then the reported one
    capped at 500, and there is one item per raw result, whatever the
    order in which the tasks ran.  A page that has no numeric
    [total_pages] makes the call panic. *)
Theorem X11_discovery_result :
  (∀ (s : Service) (sched : list nat) (page : Z) (sortBy year : string)
     (w w' : World) (items : list MediaItem) (tp : Z) (e : option error),
     DiscoverMovies s sched page sortBy year w = Ret (items, tp, e) w' →
     tp ≤ 500
     ∧ (∀ err, e = Some err →
          items = [] ∧ tp = 0
          ∧ request s "discover/movie" (discoverMovieParams page sortBy year) w
            = Ret (∅, Some err) w'
          ∧ w_cache w' = w_cache w
          ∧ (w_log w' = w_log w
             ∨ w_log w'
               = w_log w ++ [tmdbCall s "discover/movie"
                               (discoverMovieParams page sortBy year)]))
     ∧ (e = None →
        ∃ data w1 t,
          request s "discover/movie" (discoverMovieParams page sortBy year) w
          = Ret (data, None) w1
          ∧ index data "total_pages" = JNum t
          ∧ tp = clampPages (float_to_int t)
          ∧ length items = length (default [] (as_array (index data "results")))))
  ∧ (∀ (s : Service) (sched : list nat) (page : Z) (sortBy year : string)
       (w w' : World) (items : list MediaItem) (tp : Z) (e : option error),
       DiscoverTV s sched page sortBy year w = Ret (items, tp, e) w' →
       tp ≤ 500
       ∧ (∀ err, e = Some err →
            items = [] ∧ tp = 0
            ∧ request s "discover/tv" (discoverTVParams page sortBy year) w
              = Ret (∅, Some err) w'
            ∧ w_cache w' = w_cache w
            ∧ (w_log w' = w_log w
               ∨ w_log w'
                 = w_log w ++ [tmdbCall s "discover/tv"
                                 (discoverTVParams page sortBy year)]))
       ∧ (e = None →
          ∃ data w1 t,
            request s "discover/tv" (discoverTVParams page sortBy year) w
            = Ret (data, None) w1
            ∧ index data "total_pages" = JNum t
            ∧ tp = clampPages (float_to_int t)
            ∧ length items = length (default [] (as_array (index data "results")))))
  ∧ (∀ (s : Service) (sched : list nat) (page : Z) (sortBy year : string)
       (w w1 : World) (d : object) (err : error),
       (request s "discover/movie" (discoverMovieParams page sortBy year) w
        = Ret (d, Some err) w1 →
        DiscoverMovies s sched page sortBy year w = Ret ([], 0, Some err) w1)
       ∧ (request s "discover/tv" (discoverTVParams page sortBy year) w
          = Ret (d, Some err) w1 →
          DiscoverTV s sched page sortBy year w = Ret ([], 0, Some err) w1))
  ∧ (∀ (s : Service) (sched : list nat) (page : Z) (sortBy year : string)
       (w w1 : World) (data : object),
       as_float64 (index data "total_pages") = None →
       (request s "discover/movie" (discoverMovieParams page sortBy year) w
        = Ret (data, None) w1 →
        DiscoverMovies s sched page sortBy year w = Panic)
       ∧ (request s "discover/tv" (discoverTVParams page sortBy year) w
          = Ret (data, None) w1 →
          DiscoverTV s sched page sortBy year w = Panic)).
Proof.
  split_and!.
  - intros s sched page sortBy year w w' items tp e H.
    apply DiscoverMovies_inv in H as (data & e0 & w1 & Hreq & H).
    destruct e0 as [err0|].
    + destruct H as (-> & -> & -> & ->). split_and!; [lia| |done].
      intros err [= <-].
      destruct (request_error _ _ _ _ _ _ _ Hreq) as (-> & Hc & Hl). by split_and!.
    + destruct H as (-> & t & ex & e1 & w2 & rq & e2 & w3 & Ht & -> & _ & _ & Hfan).
      split_and!; [apply clampPages_le|done|]. intros _.
      exists data, w1, t. split_and!; [done| |done|by eapply fanOut_length].
      revert Ht. unfold as_float64.
      destruct (index data "total_pages"); try discriminate. by intros [= ->].
  - intros s sched page sortBy year w w' items tp e H.
    apply DiscoverTV_inv in H as (data & e0 & w1 & Hreq & H).
    destruct e0 as [err0|].
    + destruct H as (-> & -> & -> & ->). split_and!; [lia| |done].
      intros err [= <-].
      destruct (request_error _ _ _ _ _ _ _ Hreq) as (-> & Hc & Hl). by split_and!.
    + destruct H as (-> & t & ex & e1 & w2 & rq & e2 & w3 & Ht & -> & _ & _ & Hfan).
      split_and!; [apply clampPages_le|done|]. intros _.
      exists data, w1, t. split_and!; [done| |done|by eapply fanOut_length].
      revert Ht. unfold as_float64.
      destruct (index data "total_pages"); try discriminate. by intros [= ->].
  - intros s sched page sortBy year w w1 d err. split.
    + intros Hreq. unfold DiscoverMovies. by rewrite (bind_Ret _ _ _ _ _ Hreq).
    + intros Hreq. unfold DiscoverTV. by rewrite (bind_Ret _ _ _ _ _ Hreq).
  - intros s sched page sortBy year w w1 data Htp. split.
    + intros Hreq. unfold DiscoverMovies. rewrite (bind_Ret _ _ _ _ _ Hreq).
      by rewrite bind_run, Htp.
    + intros Hreq. unfold DiscoverTV. rewrite (bind_Ret _ _ _ _ _ Hreq).
      by rewrite bind_run, Htp.
Qed.

Lemma X11_witness :
  ∃ w',
    DiscoverMovies offline [] 1 "popularity.desc" "" world0
    = Ret ([], 0, Some ErrTransport) w'
    ∧ w_cache w' = w_cache world0
    ∧ w_log w'
      = [tmdbCall offline "discover/movie" (discoverMovieParams 1 "popularity.desc" "")].
Proof.
  assert (∃ w', DiscoverMovies offline [] 1 "popularity.desc" "" world0
                = Ret ([], 0, Some ErrTransport) w'
                ∧ w_log w'
                  = [tmdbCall offline "discover/movie"
                       (discoverMovieParams 1 "popularity.desc" "")])
    as (w' & Hrun & Hlog) by (vm_compute; eexists; split; reflexivity).
  exists w'.
  destruct (proj1 X11_discovery_result offline [] 1 "popularity.desc" "" world0 w'
              [] 0 (Some ErrTransport) Hrun) as (_ & Herr & _).
  destruct (Herr ErrTransport eq_refl) as (_ & _ & _ & Hc & _).
  exact (conj Hrun (conj Hc Hlog)).
Defined.

Ltac lookup_params :=
  repeat first [ rewrite lookup_insert_eq
               | rewrite lookup_insert_ne by discriminate
               | rewrite lookup_empty ].

Lemma discover_log (s : Service) (endpoint : string) (params : gmap string string)
    {A} (f : object * option error → M A) (w w' : World) (a : A) :
  db_GetSetting s "tmdb_api_key" ≠ "" →
  (∀ x, steps advances (f x)) →
  (request s endpoint params ≫= f) w = Ret a w' →
  ∃ l, w_log w' = w_log w ++ TMDBGet endpoint (tmdbQuery s params) :: l.
Proof.
  intros Hkey Hf H. apply bind_inv in H as (x & w1 & Hreq & H).
  destruct (request_run s endpoint params w) as (d & e & w1' & Hreq' & _ & _ & Hw1).
  rewrite Hreq in Hreq'. injection Hreq' as -> <-.
  apply Hf in H as (_ & _ & l & Hl). exists l.
  rewrite Hl, (Hw1 Hkey). simpl. by rewrite <- app_assoc.
Qed.

(** X12.  The query a discovery call sends to TMDB.  With an API key
    configured, the first exchange of the call is the discovery request,
    and its query carries the page number, the sort order, the key and
    the fixed filters; the minimum vote count is raised (from 100 to 500
    for movies, from 50 to 200 for shows) exactly when the sort order is
    by average vote, and the year filter is sent exactly when a year is
    given. *)
Theorem X12_discovery_query :
  ∀ (s : Service) (sched : list nat) (page : Z) (sortBy year : string) (w : World),
    db_GetSetting s "tmdb_api_key" ≠ "" →
    (let q := tmdbQuery s (discoverMovieParams page sortBy year) in
     (∀ x w', DiscoverMovies s sched page sortBy year w = Ret x w' →
        ∃ l, w_log w' = w_log w ++ TMDBGet "discover/movie" q :: l)
     ∧ q !! "page" = Some (fmt_d page)
     ∧ q !! "sort_by" = Some sortBy
     ∧ q !! "api_key" = Some (db_GetSetting s "tmdb_api_key")
     ∧ q !! "vote_count.gte"
       = Some (if bool_decide (sortBy = "vote_average.desc") then "500" else "100")
     ∧ q !! "primary_release_year"
       = (if bool_decide (year = "") then None else Some year)
     ∧ q !! "include_adult" = Some "false"
     ∧ q !! "include_video" = Some "false"
     ∧ q !! "with_original_language" = Some "en"
     ∧ q !! "region" = Some "US")
    ∧ (let q := tmdbQuery s (discoverTVParams page sortBy year) in
       (∀ x w', DiscoverTV s sched page sortBy year w = Ret x w' →
          ∃ l, w_log w' = w_log w ++ TMDBGet "discover/tv" q :: l)
       ∧ q !! "page" = Some (fmt_d page)
       ∧ q !! "sort_by" = Some sortBy
       ∧ q !! "api_key" = Some (db_GetSetting s "tmdb_api_key")
       ∧ q !! "vote_count.gte"
         = Some (if bool_decide (sortBy = "vote_average.desc") then "200" else "50")
       ∧ q !! "first_air_date_year"
         = (if bool_decide (year = "") then None else Some year)
       ∧ q !! "include_null_first_air_dates" = Some "false"
       ∧ q !! "with_original_language" = Some "en").
Proof.
  intros s sched page sortBy year w Hkey. split.
  - split.
    { intros x w'. unfold DiscoverMovies, getExistingMovieIDs.
      apply discover_log; [done|].
      intros [data e]. repeat first [apply advances_getExistingIDs
                                    | apply advances_enrichMovie | adv_step]. }
    rewrite tmdbQuery_key.
    2: { unfold discoverMovieParams, is_empty.
         repeat case_bool_decide; simpl; by lookup_params. }
    rewrite !tmdbQuery_params by discriminate.
    unfold discoverMovieParams, is_empty.
    repeat case_bool_decide; simpl; lookup_params; by split_and!.
  - split.
    { intros x w'. unfold DiscoverTV, getExistingSeriesIDs.
      apply discover_log; [done|].
      intros [data e]. repeat first [apply advances_getExistingIDs
                                    | apply advances_enrichShow | adv_step]. }
    rewrite tmdbQuery_key.
    2: { unfold discoverTVParams, is_empty.
         repeat case_bool_decide; simpl; by lookup_params. }
    rewrite !tmdbQuery_params by discriminate.
    unfold discoverTVParams, is_empty.
    repeat case_bool_decide; simpl; lookup_params; by split_and!.
Qed.

Lemma first_page_returns :
  ∃ x w', DiscoverMovies catalog [2; 0; 1]%nat 1 "popularity.desc" "" world0 = Ret x w'.
Proof. vm_compute. by eexists _, _. Qed.

Lemma X12_witness :
  db_GetSetting catalog "tmdb_api_key" ≠ ""
  ∧ tmdbQuery catalog (discoverMovieParams 2 "vote_average.desc" "1999")
    !! "vote_count.gte" = Some "500"
  ∧ tmdbQuery catalog (discoverTVParams 2 "popularity.desc" "")
    !! "first_air_date_year" = None
  ∧ ∃ l, calls first_page
         = TMDBGet "discover/movie"
             (tmdbQuery catalog (discoverMovieParams 1 "popularity.desc" "")) :: l.
Proof.
  assert (db_GetSetting catalog "tmdb_api_key" ≠ "") as Hkey by discriminate.
  destruct (X12_discovery_query catalog [2; 0; 1]%nat 2 "vote_average.desc" "1999"
              world0 Hkey) as ((_ & _ & _ & _ & Hv & _) & _).
  destruct (X12_discovery_query catalog [2; 0; 1]%nat 2 "popularity.desc" ""
              world0 Hkey) as (_ & (_ & _ & _ & _ & _ & Hy & _)).
  destruct (X12_discovery_query catalog [2; 0; 1]%nat 1 "popularity.desc" ""
              world0 Hkey) as ((Hlog & _) & _).
  destruct first_page_returns as (x & w' & Hrun).
  destruct (Hlog x w' Hrun) as (l & Hl).
  refine (conj Hkey (conj Hv (conj Hy _))).
  exists l. unfold first_page. rewrite Hrun. exact Hl.
Defined.

(** ** A page of shows *)

Lemma index_showIDsEntry_tvdb (tvdbID : Z) (imdbID : string) :
  index (showIDsEntry tvdbID imdbID) "tvdb" = JNum (float_of_int tvdbID).
Proof. unfold index, showIDsEntry. by rewrite lookup_insert_eq. Qed.

Lemma index_showIDsEntry_imdb (tvdbID : Z) (imdbID : string) :
  index (showIDsEntry tvdbID imdbID) "imdb" = JStr imdbID.
Proof.
  unfold index, showIDsEntry.
  rewrite lookup_insert_ne by discriminate. by rewrite lookup_insert_eq.
Qed.










(** ** Resolved identifiers are reused *)

Lemma resolveShow_reads (s : Service) (tmdbID tvdbID : Z) (imdbID : string)
    (w : World) :
  cache.Get (w_cache w) (w_now w) (tvCacheKey tmdbID)
  = Some (AnyObject (showIDsEntry tvdbID imdbID)) →
  resolveShow s tmdbID w = Ret (float_to_int (float_of_int tvdbID), imdbID) w.
Proof.
  intros Hhit. unfold resolveShow. rewrite bind_run. simpl. rewrite Hhit.
  rewrite bind_run, index_showIDsEntry_tvdb, index_showIDsEntry_imdb. done.
Qed.

(** X14.  The identifiers found by a successful detail call are stored
    under the item's key with the default TTL and are what every later
    resolution returns, with no exchange, for as long as the entry is
    there and has not expired.  For a movie that is the IMDB id as found;
    for a show the IMDB id as found and the TVDB id after its passage
    through [float64], the type under which it is stored. *)
Theorem X14_resolved_ids_are_reused :
  (∀ (s : Service) (tmdbID : Z) (w w1 : World) (d : object),
     cache.Get (w_cache w) (w_now w) (movieCacheKey tmdbID) = None →
     request s ("movie/" +:+ fmt_d tmdbID) detailParams w = Ret (d, None) w1 →
     ∃ w',
       resolveMovie s tmdbID w = Ret (movieImdbID d) w'
       ∧ w_log w' = w_log w1
       ∧ cache.items (w_cache w') !! movieCacheKey tmdbID
         = Some (cache.mkItem (AnyString (movieImdbID d))
                   (w_now w' + cache.ttl (w_cache w)))
       ∧ ∀ (s2 : Service) (w2 : World),
           cache.items (w_cache w2) !! movieCacheKey tmdbID
           = cache.items (w_cache w') !! movieCacheKey tmdbID →
           w_now w2 ≤ w_now w' + cache.ttl (w_cache w) →
           resolveMovie s2 tmdbID w2 = Ret (movieImdbID d) w2)
  ∧ (∀ (s : Service) (tmdbID : Z) (w w1 : World) (d : object),
       cache.Get (w_cache w) (w_now w) (tvCacheKey tmdbID) = None →
       request s ("tv/" +:+ fmt_d tmdbID) detailParams w = Ret (d, None) w1 →
       ∃ w',
         resolveShow s tmdbID w = Ret (showExternalIDs d) w'
         ∧ w_log w' = w_log w1
         ∧ cache.items (w_cache w') !! tvCacheKey tmdbID
           = Some (cache.mkItem
                     (AnyObject (showIDsEntry (showExternalIDs d).1
                                              (showExternalIDs d).2))
                     (w_now w' + cache.ttl (w_cache w)))
         ∧ ∀ (s2 : Service) (w2 : World),
             cache.items (w_cache w2) !! tvCacheKey tmdbID
             = cache.items (w_cache w') !! tvCacheKey tmdbID →
             w_now w2 ≤ w_now w' + cache.ttl (w_cache w) →
             resolveShow s2 tmdbID w2
             = Ret (float_to_int (float_of_int (showExternalIDs d).1),
                    (showExternalIDs d).2) w2).
Proof.
  split.
  - intros s tmdbID w w1 d Hmiss Hreq.
    destruct (request_run s ("movie/" +:+ fmt_d tmdbID) detailParams w)
      as (d' & e' & w1' & Hreq' & (Hc & _) & _).
    rewrite Hreq in Hreq'. injection Hreq' as <- <- <-.
    eexists. split; [by rewrite (resolveMovie_miss _ _ _ Hmiss), Hreq|].
    split; [done|]. split; [simpl; by rewrite lookup_insert_eq, Hc|].
    intros s2 w2 Hsame Hn2. apply resolveMovie_hit, Get_Some.
    eexists. split; [rewrite Hsame; simpl; apply lookup_insert_eq|].
    simpl in *. split; [|done]. rewrite Hc. lia.
  - intros s tmdbID w w1 d Hmiss Hreq.
    destruct (request_run s ("tv/" +:+ fmt_d tmdbID) detailParams w)
      as (d' & e' & w1' & Hreq' & (Hc & _) & _).
    rewrite Hreq in Hreq'. injection Hreq' as <- <- <-.
    eexists. split; [by rewrite (resolveShow_miss _ _ _ Hmiss), Hreq|].
    split; [done|]. split; [simpl; by rewrite lookup_insert_eq, Hc|].
    intros s2 w2 Hsame Hn2. apply resolveShow_reads, Get_Some.
    eexists. split; [rewrite Hsame; simpl; apply lookup_insert_eq|].
    simpl in *. split; [|done]. rewrite Hc. lia.
Qed.

Lemma X14_witness :
  cache.Get (w_cache world0) (w_now world0) (tvCacheKey 1399) = None
  ∧ ∃ w',
      resolveShow shows 1399 world0 = Ret (121361, "tt0944947") w'
      ∧ resolveShow offline 1399
          (mkWorld (w_cache w') (w_now w' + defaultTTL) (w_log w'))
        = Ret (121361, "tt0944947")
              (mkWorld (w_cache w') (w_now w' + defaultTTL) (w_log w')).
Proof.
  assert (cache.Get (w_cache world0) (w_now world0) (tvCacheKey 1399) = None)
    as Hmiss by (vm_compute; reflexivity).
  assert (request shows "tv/1399" detailParams world0
          = Ret (details_1399, None)
                (after_call shows (tmdbCall shows "tv/1399" detailParams) world0))
    as Hreq by (vm_compute; reflexivity).
  destruct (proj2 X14_resolved_ids_are_reused shows 1399 world0 _ details_1399
              Hmiss Hreq) as (w' & Hrun & _ & _ & Hlater).
  assert (showExternalIDs details_1399 = (121361, "tt0944947")) as Hids
    by (vm_compute; reflexivity).
  assert (float_to_int (float_of_int 121361) = 121361) as Hrt
    by (vm_compute; reflexivity).
  assert (cache.ttl (w_cache world0) = defaultTTL) as Httl by reflexivity.
  specialize (Hlater offline (mkWorld (w_cache w') (w_now w' + defaultTTL) (w_log w'))
                eq_refl).
  rewrite Httl, Hids in Hlater. simpl in Hlater. rewrite Hrt in Hlater.
  rewrite Hids in Hrun.
  refine (conj Hmiss _). exists w'. refine (conj Hrun (Hlater _)). lia.
Defined.

(** ** The library sets *)






(** ** Pages when the library or the ledger is down *)





Lemma has_empty (k : Z) : has ∅ k = false.
Proof. unfold has. by rewrite lookup_empty. Qed.








(** ** The sets behind the status *)

Lemma collectIDs_snoc (field : string) (entries : list object) (m : object) :
  collectIDs field (entries ++ [m])
  = match as_float64 (index m field) with
    | Some id => <[float_to_int id := true]> (collectIDs field entries)
    | None => collectIDs field entries
    end.
Proof. unfold collectIDs. by rewrite foldl_app. Qed.

Lemma has_insert (ids : gmap Z bool) (j k : Z) :
  has (<[j := true]> ids) k = true ↔ j = k ∨ has ids k = true.
Proof.
  unfold has. destruct (decide (j = k)) as [-> | Hne].
  - rewrite lookup_insert_eq. simpl. split; [by left|done].
  - rewrite lookup_insert_ne by done. split; [by right|]. by intros [? | ?].
Qed.

Lemma collectIDs_has (field : string) (entries : list object) (k : Z) :
  has (collectIDs field entries) k = true
  ↔ ∃ m id, m ∈ entries ∧ as_float64 (index m field) = Some id
            ∧ float_to_int id = k.
Proof.
  induction entries as [|m entries IH] using rev_ind.
  { unfold collectIDs. simpl. rewrite has_empty. split; [done|].
    intros (m & id & Hm & _). by apply elem_of_nil in Hm. }
  rewrite collectIDs_snoc.
  destruct (as_float64 (index m field)) as [id|] eqn:E.
  - rewrite has_insert, IH. split.
    + intros [<- | (m' & id' & Hm' & Hid' & Hk)].
      * exists m, id. split_and!; [|done..]. apply elem_of_app. right.
        by apply list_elem_of_singleton.
      * exists m', id'. split_and!; [|done..]. apply elem_of_app. by left.
    + intros (m' & id' & Hm' & Hid' & Hk).
      apply elem_of_app in Hm' as [Hm' | Hm'].
      * right. by exists m', id'.
      * apply list_elem_of_singleton in Hm' as ->. left. congruence.
  - rewrite IH. split.
    + intros (m' & id' & Hm' & Hid' & Hk). exists m', id'.
      split_and!; [|done..]. apply elem_of_app. by left.
    + intros (m' & id' & Hm' & Hid' & Hk).
      apply elem_of_app in Hm' as [Hm' | Hm'].
      * by exists m', id'.
      * apply list_elem_of_singleton in Hm' as ->. congruence.
Qed.

Lemma rows_has (rows : list Z) (k : Z) :
  has (foldl (λ ids id, <[id := true]> ids) ∅ rows) k = true ↔ k ∈ rows.
Proof.
  induction rows as [|j rows IH] using rev_ind.
  { simpl. rewrite has_empty. split; [done|]. intros H. by apply elem_of_nil in H. }
  rewrite foldl_app. simpl. rewrite has_insert, IH, elem_of_app, list_elem_of_singleton.
  split; intros [? | ?]; auto.
Qed.

(** X17.  Where the statuses come from.  An id counts as existing exactly
    when some entry of the library's answer carries, in the id field, a
    number that truncates to it; entries without a numeric id are
    skipped.  An id counts as requested exactly when the ledger's query
    returned it; the query is the one on shows for the media type series
    and the one on movies for any other media type, it is made anew on
    every call and never touches the cache; when it fails the set is
    empty. *)
Theorem X17_status_sets :
  (∀ (field : string) (entries : list object) (k : Z),
     has (collectIDs field entries) k = true
     ↔ ∃ m id, m ∈ entries ∧ as_float64 (index m field) = Some id
               ∧ float_to_int id = k)
  ∧ (∀ (entries : list object) (requestedIDs : gmap Z bool) (k : Z),
       movieStatus (collectIDs "tmdbId" entries) requestedIDs k = "exists"
       ↔ ∃ m id, m ∈ entries ∧ as_float64 (index m "tmdbId") = Some id
                 ∧ float_to_int id = k)
  ∧ (∀ (s : Service) (mediaType : string) (w w' : World) (ids : gmap Z bool)
       (e : option error),
       GetRequestedIDs s mediaType w = Ret (ids, e) w' →
       w' = after_call s (LedgerQuery (requestedIDsQuery mediaType)) w
       ∧ match db_Query s (w_log w) (requestedIDsQuery mediaType) with
         | Some rows => e = None ∧ ∀ k, has ids k = true ↔ k ∈ rows
         | None => e = Some ErrQuery ∧ ids = ∅
         end)
  ∧ (∀ mediaType : string,
       mediaType ≠ "series" →
       requestedIDsQuery mediaType = requestedIDsQuery "movie"
       ∧ requestedIDsQuery mediaType ≠ requestedIDsQuery "series").
Proof.
  split_and!.
  - apply collectIDs_has.
  - intros entries requestedIDs k. rewrite <- collectIDs_has. unfold movieStatus.
    destruct (has (collectIDs "tmdbId" entries) k); [done|].
    by destruct (has requestedIDs k).
  - intros s mediaType w w' ids e. unfold GetRequestedIDs.
    destruct (db_Query s (w_log w) (requestedIDsQuery mediaType)) as [rows|].
    + intros [= <- <- <-]. split; [done|]. split; [done|]. apply rows_has.
    + by intros [= <- <- <-].
  - intros mediaType Hne. unfold requestedIDsQuery.
    rewrite (bool_decide_eq_false_2 _ Hne). by split.
Qed.

(** ** The year of an item *)

Lemma str_prefix4_spec (rd : string) :
  4 ≤ str_len rd →
  String.length (str_prefix4 rd) = 4%nat ∧ ∃ rest, rd = str_prefix4 rd +:+ rest.
Proof.
  unfold str_len, str_prefix4.
  destruct rd as [|a [|b [|c [|d rest]]]]; simpl; try lia.
  intros _. assert (substring 0 0 rest = "") as -> by (by destruct rest).
  split; [done|]. by exists rest.
Qed.

(** X18.  The year shown for an item is the first four bytes of its date
    (release date of a movie, first air date of a show), whatever they
    are, when the date is a string of at least four bytes; in every other
    case (no date, a date that is not a string, a shorter string) the
    year is empty.  So it is always empty or four bytes long. *)
Theorem X18_year_is_empty_or_four_bytes :
  ∀ (m : object) (key : string),
    (∀ rd, index m key = JStr rd → 4 ≤ str_len rd →
       String.length (yearOf m key) = 4%nat ∧ ∃ rest, rd = yearOf m key +:+ rest)
    ∧ (∀ rd, index m key = JStr rd → str_len rd < 4 → yearOf m key = "")
    ∧ (as_string (index m key) = None → yearOf m key = "")
    ∧ (yearOf m key = "" ∨ String.length (yearOf m key) = 4%nat).
Proof.
  intros m key. unfold yearOf. split_and!.
  - intros rd -> Hlen. simpl. rewrite (proj2 (Z.leb_le _ _) Hlen).
    by apply str_prefix4_spec.
  - intros rd -> Hlen. simpl. by rewrite (proj2 (Z.leb_gt _ _) Hlen).
  - by intros ->.
  - destruct (as_string (index m key)) as [rd|]; [|by left].
    destruct (4 <=? str_len rd) eqn:E; [|by left].
    right. apply Z.leb_le in E. by apply str_prefix4_spec.
Qed.

(** ** The exchanges of one page *)

Lemma request_calls (s : Service) (endpoint : string) (params : gmap string string)
    (w w1 : World) (x : object * option error) :
  request s endpoint params w = Ret x w1 →
  w_log w1 = w_log w ∨ w_log w1 = w_log w ++ [tmdbCall s endpoint params].
Proof.
  intros Hreq.
  destruct (request_run s endpoint params w) as (d & e & w1' & Hreq' & _ & Hw & _).
  rewrite Hreq in Hreq'. injection Hreq' as -> <-.
  destruct Hw as [[-> _] | ->]; [by left|by right].
Qed.

Lemma resolveMovie_calls (s : Service) (tmdbID : Z) (w w' : World) (x : string) :
  resolveMovie s tmdbID w = Ret x w' →
  ∃ l, w_log w' = w_log w ++ l ∧ Forall (λ c, is_tmdb c = true) l
       ∧ (length l ≤ 1)%nat
       ∧ (is_Some (cache.Get (w_cache w) (w_now w) (movieCacheKey tmdbID)) → l = []).
Proof.
  destruct (cache.Get (w_cache w) (w_now w) (movieCacheKey tmdbID)) as [v|] eqn:E.
  - unfold resolveMovie. rewrite bind_run. simpl. rewrite E.
    destruct v; try discriminate. intros [= _ <-].
    exists []. rewrite app_nil_r. split_and!; [done|done|simpl; lia|done].
  - rewrite (resolveMovie_miss _ _ _ E).
    destruct (request s ("movie/" +:+ fmt_d tmdbID) detailParams w)
      as [[d e] w1|] eqn:Hreq; [|discriminate].
    apply request_calls in Hreq.
    intros H.
    assert (w_log w' = w_log w1) as -> by (by destruct e; injection H as _ <-).
    destruct Hreq as [-> | ->].
    + exists []. rewrite app_nil_r. split_and!; [done|done|simpl; lia|done].
    + eexists. split_and!; [done|by repeat constructor|done|by intros [? ?]].
Qed.

Lemma resolveShow_calls (s : Service) (tmdbID : Z) (w w' : World) (x : Z * string) :
  resolveShow s tmdbID w = Ret x w' →
  ∃ l, w_log w' = w_log w ++ l ∧ Forall (λ c, is_tmdb c = true) l
       ∧ (length l ≤ 1)%nat
       ∧ (is_Some (cache.Get (w_cache w) (w_now w) (tvCacheKey tmdbID)) → l = []).
Proof.
  destruct (cache.Get (w_cache w) (w_now w) (tvCacheKey tmdbID)) as [v|] eqn:E.
  - unfold resolveShow. rewrite bind_run. simpl. rewrite E.
    intros H.
    assert (w' = w) as ->.
    { destruct v; try (by injection H as _ <-).
      rewrite bind_run in H.
      destruct (as_float64 (index m "tvdb")); [|discriminate].
      by injection H as _ <-. }
    exists []. rewrite app_nil_r. split_and!; [done|done|simpl; lia|done].
  - rewrite (resolveShow_miss _ _ _ E).
    destruct (request s ("tv/" +:+ fmt_d tmdbID) detailParams w)
      as [[d e] w1|] eqn:Hreq; [|discriminate].
    apply request_calls in Hreq.
    intros H.
    assert (w_log w' = w_log w1) as -> by (by destruct e; injection H as _ <-).
    destruct Hreq as [-> | ->].
    + exists []. rewrite app_nil_r. split_and!; [done|done|simpl; lia|done].
    + eexists. split_and!; [done|by repeat constructor|done|by intros [? ?]].
Qed.

Lemma runTasks_calls (task : object → M MediaItem) (raw : list object) :
  (∀ m w it w', task m w = Ret it w' →
     ∃ l, w_log w' = w_log w ++ l ∧ Forall (λ c, is_tmdb c = true) l
          ∧ (length l ≤ 1)%nat) →
  ∀ (sched : list nat) (items items' : list MediaItem) (w w' : World),
    runTasks task raw sched items w = Ret items' w' →
    ∃ l, w_log w' = w_log w ++ l ∧ Forall (λ c, is_tmdb c = true) l
         ∧ (length l ≤ length sched)%nat.
Proof.
  intros Htask sched.
  induction sched as [|i sched IH]; intros items items' w w'; simpl.
  { intros [= _ <-]. exists []. rewrite app_nil_r. split_and!; [done|done|simpl; lia]. }
  destruct (raw !! i) as [r|].
  - intros H. apply bind_inv in H as (it & w1 & Hrun & H).
    apply Htask in Hrun as (l1 & Hl1 & Hall1 & Hlen1).
    apply IH in H as (l2 & Hl2 & Hall2 & Hlen2).
    exists (l1 ++ l2). split_and!.
    + by rewrite Hl2, Hl1, app_assoc.
    + by apply Forall_app.
    + rewrite length_app. lia.
  - intros H. apply IH in H as (l & Hl & Hall & Hlen).
    exists l. split_and!; [done|done|lia].
Qed.

Lemma fanOut_calls (task : object → M MediaItem) (results : list json)
    (sched : list nat) (items : list MediaItem) (w w' : World) :
  (∀ m w it w', task m w = Ret it w' →
     ∃ l, w_log w' = w_log w ++ l ∧ Forall (λ c, is_tmdb c = true) l
          ∧ (length l ≤ 1)%nat) →
  fanOut task results sched w = Ret items w' →
  ∃ l, w_log w' = w_log w ++ l ∧ Forall (λ c, is_tmdb c = true) l
       ∧ (length l ≤ length sched)%nat.
Proof.
  intros Htask. unfold fanOut. intros H.
  apply bind_inv in H as (raw & w1 & Hraw & H).
  assert (w1 = w) as ->.
  { destruct (mapM as_object results); [|discriminate]. by injection Hraw. }
  by eapply runTasks_calls.
Qed.

Lemma enrichMovie_calls (s : Service) (existingIDs requestedIDs : gmap Z bool)
    (m : object) (w w' : World) (it : MediaItem) :
  enrichMovie s existingIDs requestedIDs m w = Ret it w' →
  ∃ l, w_log w' = w_log w ++ l ∧ Forall (λ c, is_tmdb c = true) l
       ∧ (length l ≤ 1)%nat.
Proof.
  intros H. apply enrichMovie_inv in H as (_ & _ & H).
  apply resolveMovie_calls in H as (l & ? & ? & ? & _). by exists l.
Qed.

Lemma enrichShow_calls (s : Service) (existingIDs requestedIDs : gmap Z bool)
    (m : object) (w w' : World) (it : MediaItem) :
  enrichShow s existingIDs requestedIDs m w = Ret it w' →
  ∃ l, w_log w' = w_log w ++ l ∧ Forall (λ c, is_tmdb c = true) l
       ∧ (length l ≤ 1)%nat.
Proof.
  intros H. apply enrichShow_inv in H as (_ & _ & H).
  apply resolveShow_calls in H as (l & ? & ? & ? & _). by exists l.
Qed.

Lemma page_log_intro (first library ledger : call) (n : nat)
    (l0 l1 l2 l3 l4 l5 : list call) :
  l1 = l0 ∨ l1 = l0 ++ [first] →
  l2 = l1 ∨ l2 = l1 ++ [library] →
  l3 = l2 ++ [ledger] →
  l5 = l3 ++ l4 → Forall (λ c, is_tmdb c = true) l4 → (length l4 ≤ n)%nat →
  ∃ l, l5 = l0 ++ l ∧ page_log first library ledger n l.
Proof.
  intros H1 H2 -> -> Hall Hlen. unfold page_log.
  destruct H1 as [-> | ->], H2 as [-> | ->].
  - exists ([] ++ [] ++ [ledger] ++ l4). split; [by rewrite <- !app_assoc|].
    exists [], [], [ledger], l4. split_and!; auto.
  - exists ([] ++ [library] ++ [ledger] ++ l4). split; [by rewrite <- !app_assoc|].
    exists [], [library], [ledger], l4. split_and!; auto.
  - exists ([first] ++ [] ++ [ledger] ++ l4). split; [by rewrite <- !app_assoc|].
    exists [first], [], [ledger], l4. split_and!; auto.
  - exists ([first] ++ [library] ++ [ledger] ++ l4).
    split; [by rewrite <- !app_assoc|].
    exists [first], [library], [ledger], l4. split_and!; auto.
Qed.

(** X19.  The exchanges of one discovery call, in their order: the
    discovery request; then at most one fetch of the library; then at
    most one query of the ledger; then requests to TMDB only, at most one
    per scheduled task.  A task whose item is in the cache makes none.
    No rating provider is ever asked.  This holds for movies and for
    shows. *)
Theorem X19_exchanges_of_a_page :
  ∀ (s : Service) (sched : list nat) (page : Z) (sortBy year : string)
    (w w' : World) (x : list MediaItem * Z * option error),
    (DiscoverMovies s sched page sortBy year w = Ret x w' →
     ∃ l, w_log w' = w_log w ++ l
          ∧ page_log (tmdbCall s "discover/movie" (discoverMovieParams page sortBy year))
              (radarrCall s) (LedgerQuery (requestedIDsQuery "movie"))
              (length sched) l)
    ∧ (DiscoverTV s sched page sortBy year w = Ret x w' →
       ∃ l, w_log w' = w_log w ++ l
            ∧ page_log (tmdbCall s "discover/tv" (discoverTVParams page sortBy year))
                (sonarrCall s) (LedgerQuery (requestedIDsQuery "series"))
                (length sched) l)
    ∧ (∀ tmdbID w0 w0' imdbID,
         is_Some (cache.Get (w_cache w0) (w_now w0) (movieCacheKey tmdbID)) →
         resolveMovie s tmdbID w0 = Ret imdbID w0' → w_log w0' = w_log w0)
    ∧ (∀ tmdbID w0 w0' ids,
         is_Some (cache.Get (w_cache w0) (w_now w0) (tvCacheKey tmdbID)) →
         resolveShow s tmdbID w0 = Ret ids w0' → w_log w0' = w_log w0).
Proof.
  intros s sched page sortBy year w w' [[items tp] e]. split_and!.
  - intros H. apply DiscoverMovies_inv in H as (data & e0 & w1 & Hreq & H).
    apply request_calls in Hreq.
    destruct e0 as [err|].
    { destruct H as (_ & _ & _ & ->). unfold page_log.
      destruct Hreq as [-> | ->].
      - exists []. rewrite app_nil_r. split; [done|].
        exists [], [], [], []. split_and!; auto. simpl. lia.
      - eexists. split; [done|].
        eexists [_], [], [], []. split_and!; auto. simpl. lia. }
    destruct H as (_ & t & ex & e1 & w2 & rq & e2 & w3 & _ & _ & Hex & Hrq & Hfan).
    apply getExistingIDs_log in Hex.
    destruct (GetRequestedIDs_run s "movie" w2) as (? & ? & Hrq').
    rewrite Hrq in Hrq'. injection Hrq' as _ _ ->.
    apply fanOut_calls in Hfan as (l4 & Hl4 & Hall & Hlen);
      [|intros m w0 it w0'; apply enrichMovie_calls].
    by eapply (page_log_intro _ _ _ _ (w_log w) (w_log w1) (w_log w2)).
  - intros H. apply DiscoverTV_inv in H as (data & e0 & w1 & Hreq & H).
    apply request_calls in Hreq.
    destruct e0 as [err|].
    { destruct H as (_ & _ & _ & ->). unfold page_log.
      destruct Hreq as [-> | ->].
      - exists []. rewrite app_nil_r. split; [done|].
        exists [], [], [], []. split_and!; auto. simpl. lia.
      - eexists. split; [done|].
        eexists [_], [], [], []. split_and!; auto. simpl. lia. }
    destruct H as (_ & t & ex & e1 & w2 & rq & e2 & w3 & _ & _ & Hex & Hrq & Hfan).
    apply getExistingIDs_log in Hex.
    destruct (GetRequestedIDs_run s "series" w2) as (? & ? & Hrq').
    rewrite Hrq in Hrq'. injection Hrq' as _ _ ->.
    apply fanOut_calls in Hfan as (l4 & Hl4 & Hall & Hlen);
      [|intros m w0 it w0'; apply enrichShow_calls].
    by eapply (page_log_intro _ _ _ _ (w_log w) (w_log w1) (w_log w2)).
  - intros tmdbID w0 w0' imdbID Hhit H.
    apply resolveMovie_calls in H as (l & Hl & _ & _ & Hnil).
    by rewrite Hl, (Hnil Hhit), app_nil_r.
  - intros tmdbID w0 w0' ids Hhit H.
    apply resolveShow_calls in H as (l & Hl & _ & _ & Hnil).
    by rewrite Hl, (Hnil Hhit), app_nil_r.
Qed.

Lemma X19_witness :
  endpoint_of <$> calls first_page
  = ["discover/movie"; "http://radarr:7878/api/v3/movie"; "requests";
     "movie/605"; "movie/603"; "movie/604"]
  ∧ ∃ x w' l,
      DiscoverMovies catalog [2; 0; 1]%nat 1 "popularity.desc" "" world0 = Ret x w'
      ∧ w_log w' = w_log world0 ++ l
      ∧ page_log (tmdbCall catalog "discover/movie"
                    (discoverMovieParams 1 "popularity.desc" ""))
          (radarrCall catalog) (LedgerQuery (requestedIDsQuery "movie")) 3 l.
Proof.
  assert (endpoint_of <$> calls first_page
          = ["discover/movie"; "http://radarr:7878/api/v3/movie"; "requests";
             "movie/605"; "movie/603"; "movie/604"]) as Hcalls
    by (vm_compute; reflexivity).
  destruct first_page_returns as (x & w' & Hrun).
  destruct (proj1 (X19_exchanges_of_a_page catalog [2; 0; 1]%nat 1 "popularity.desc" ""
                     world0 w' x) Hrun) as (l & Hl & Hpage).
  refine (conj Hcalls _). exists x, w', l. exact (conj Hrun (conj Hl Hpage)).
Defined.

(** ** What a page writes in the cache *)

Section WritesOnly.
Context (K : string → Prop).

Lemma writes_only_refl (w : World) : writes_only K w w.
Proof. by intros key _. Qed.

Lemma writes_only_trans (w1 w2 w3 : World) :
  writes_only K w1 w2 → writes_only K w2 w3 → writes_only K w1 w3.
Proof. intros H12 H23 key Hk. by rewrite (H23 key Hk), (H12 key Hk). Qed.

Lemma writes_roundtrip (s : Service) (c : call) : steps (writes_only K) (roundtrip s c).
Proof. by intros w w' a [= _ <-] key _. Qed.

Lemma writes_GetRequestedIDs (s : Service) (mediaType : string) :
  steps (writes_only K) (GetRequestedIDs s mediaType).
Proof.
  intros w w' a. unfold GetRequestedIDs.
  by destruct (db_Query _ _ _); intros [= _ <-] key _.
Qed.

Lemma writes_Set (key : string) (v : any) :
  K key → steps (writes_only K) (cache_Set key v).
Proof.
  intros Hk w w' a [= _ <-] key' Hk'. simpl.
  apply lookup_insert_ne. by intros ->.
Qed.

Lemma writes_SetWithTTL (key : string) (v : any) (d : Z) :
  K key → steps (writes_only K) (cache_SetWithTTL key v d).
Proof.
  intros Hk w w' a [= _ <-] key' Hk'. simpl.
  apply lookup_insert_ne. by intros ->.
Qed.

End WritesOnly.

Ltac writes_step K :=
  first
    [ apply (steps_ret (writes_only K) (writes_only_refl K))
    | apply steps_panic
    | apply (steps_must (writes_only K) (writes_only_refl K))
    | apply (steps_Get (writes_only K) (writes_only_refl K))
    | apply writes_roundtrip
    | apply writes_GetRequestedIDs
    | apply (steps_fanOut (writes_only K) (writes_only_refl K) (writes_only_trans K))
    | apply (steps_bind (writes_only K) (writes_only_trans K))
    | match goal with
      | |- steps _ (match ?x with _ => _ end) => destruct x
      | |- steps _ (if ?b then _ else _) => destruct b
      | |- ∀ _, _ => intros ?
      end ].

Lemma writes_request (K : string → Prop) (s : Service) (endpoint : string)
    (params : gmap string string) :
  steps (writes_only K) (request s endpoint params).
Proof. unfold request. repeat writes_step K. Qed.

Lemma writes_DiscoverMovies (s : Service) (sched : list nat) (page : Z)
    (sortBy year : string) :
  steps (writes_only movie_page_key) (DiscoverMovies s sched page sortBy year).
Proof.
  unfold DiscoverMovies, getExistingMovieIDs, getExistingIDs, enrichMovie,
    resolveMovie.
  repeat first [ apply writes_request
               | apply writes_Set; right; by eexists
               | apply writes_SetWithTTL; by left
               | writes_step movie_page_key ].
Qed.

Lemma writes_DiscoverTV (s : Service) (sched : list nat) (page : Z)
    (sortBy year : string) :
  steps (writes_only show_page_key) (DiscoverTV s sched page sortBy year).
Proof.
  unfold DiscoverTV, getExistingSeriesIDs, getExistingIDs, enrichShow, resolveShow.
  repeat first [ apply writes_request
               | apply writes_Set; right; by eexists
               | apply writes_SetWithTTL; by left
               | writes_step show_page_key ].
Qed.

Lemma movieCacheKey_inj (a b : Z) : movieCacheKey a = movieCacheKey b → a = b.
Proof.
  unfold movieCacheKey, fmt_d. intros H.
  apply (inj (String.append "tmdb_movie_")) in H. by apply (inj pretty) in H.
Qed.

Lemma tvCacheKey_inj (a b : Z) : tvCacheKey a = tvCacheKey b → a = b.
Proof.
  unfold tvCacheKey, fmt_d. intros H.
  apply (inj (String.append "tmdb_tv_")) in H. by apply (inj pretty) in H.
Qed.

(** X20.  What a page writes in the cache, and why the entries of
    different items never meet.  A page of movies writes nothing but the
    movie library set and the entries of movies; a page of shows nothing
    but the series library set and the entries of shows.  The key of an
    item determines its TMDB id, the keys of movies, of shows, of the
    ratings and of the two library sets are pairwise different, so a page
    never changes a rating record, a page of movies never changes what is
    known of a show, and the entry of one item is never taken for
    another's. *)
Theorem X20_cache_footprint_of_a_page :
  (∀ (s : Service) (sched : list nat) (page : Z) (sortBy year : string)
     (w w' : World) (x : list MediaItem * Z * option error),
     DiscoverMovies s sched page sortBy year w = Ret x w' →
     (∀ key, key ≠ "existing_movies" → (∀ tmdbID, key ≠ movieCacheKey tmdbID) →
        cache.items (w_cache w') !! key = cache.items (w_cache w) !! key)
     ∧ (∀ title yr mediaType,
          cache.items (w_cache w') !! ratingsKey title yr mediaType
          = cache.items (w_cache w) !! ratingsKey title yr mediaType)
     ∧ (∀ tmdbID,
          cache.items (w_cache w') !! tvCacheKey tmdbID
          = cache.items (w_cache w) !! tvCacheKey tmdbID)
     ∧ cache.items (w_cache w') !! "existing_series"
       = cache.items (w_cache w) !! "existing_series")
  ∧ (∀ (s : Service) (sched : list nat) (page : Z) (sortBy year : string)
       (w w' : World) (x : list MediaItem * Z * option error),
       DiscoverTV s sched page sortBy year w = Ret x w' →
       (∀ key, key ≠ "existing_series" → (∀ tmdbID, key ≠ tvCacheKey tmdbID) →
          cache.items (w_cache w') !! key = cache.items (w_cache w) !! key)
       ∧ (∀ title yr mediaType,
            cache.items (w_cache w') !! ratingsKey title yr mediaType
            = cache.items (w_cache w) !! ratingsKey title yr mediaType)
       ∧ (∀ tmdbID,
            cache.items (w_cache w') !! movieCacheKey tmdbID
            = cache.items (w_cache w) !! movieCacheKey tmdbID)
       ∧ cache.items (w_cache w') !! "existing_movies"
         = cache.items (w_cache w) !! "existing_movies")
  ∧ (∀ a b : Z, movieCacheKey a = movieCacheKey b → a = b)
  ∧ (∀ a b : Z, tvCacheKey a = tvCacheKey b → a = b)
  ∧ (∀ a b : Z, movieCacheKey a ≠ tvCacheKey b).
Proof.
  split_and!.
  - intros s sched page sortBy year w w' x Hrun.
    pose proof (writes_DiscoverMovies _ _ _ _ _ _ _ _ Hrun) as Hw.
    split_and!.
    + intros key H1 H2. apply Hw. intros [? | [id ?]]; [done|by apply (H2 id)].
    + intros title yr mediaType. apply Hw. unfold ratingsKey, movieCacheKey.
      intros [H | [id H]]; simpl in H; discriminate.
    + intros tmdbID. apply Hw. unfold tvCacheKey, movieCacheKey.
      intros [H | [id H]]; simpl in H; discriminate.
    + apply Hw. unfold movieCacheKey.
      intros [H | [id H]]; simpl in H; discriminate.
  - intros s sched page sortBy year w w' x Hrun.
    pose proof (writes_DiscoverTV _ _ _ _ _ _ _ _ Hrun) as Hw.
    split_and!.
    + intros key H1 H2. apply Hw. intros [? | [id ?]]; [done|by apply (H2 id)].
    + intros title yr mediaType. apply Hw. unfold ratingsKey, tvCacheKey.
      intros [H | [id H]]; simpl in H; discriminate.
    + intros tmdbID. apply Hw. unfold tvCacheKey, movieCacheKey.
      intros [H | [id H]]; simpl in H; discriminate.
    + apply Hw. unfold tvCacheKey.
      intros [H | [id H]]; simpl in H; discriminate.
  - apply movieCacheKey_inj.
  - apply tvCacheKey_inj.
  - intros a b. unfold movieCacheKey, tvCacheKey. simpl. discriminate.
Qed.

Lemma X20_witness :
  cached_keys first_page = Some ["existing_movies"; "tmdb_movie_603"; "tmdb_movie_605"]
  ∧ ∃ x w',
      DiscoverMovies catalog [2; 0; 1]%nat 1 "popularity.desc" "" world0 = Ret x w'
      ∧ cache.items (w_cache w') !! tvCacheKey 603
        = cache.items (w_cache world0) !! tvCacheKey 603.
Proof.
  assert (cached_keys first_page
          = Some ["existing_movies"; "tmdb_movie_603"; "tmdb_movie_605"]) as Hkeys
    by (vm_compute; reflexivity).
  destruct first_page_returns as (x & w' & Hrun).
  destruct (proj1 X20_cache_footprint_of_a_page catalog [2; 0; 1]%nat 1
              "popularity.desc" "" world0 w' x Hrun) as (_ & _ & Htv & _).
  refine (conj Hkeys _). exists x, w'. exact (conj Hrun (Htv 603)).
Defined.

(** ** No entry outlives its TTL *)

Lemma stays_fresh_refl (w : World) : stays_fresh w w.
Proof. by intros H. Qed.

Lemma stays_fresh_trans (w1 w2 w3 : World) :
  stays_fresh w1 w2 → stays_fresh w2 w3 → stays_fresh w1 w3.
Proof. intros H12 H23 H. by apply H23, H12. Qed.

Lemma fresh_later (c : cache.Cache any) (now : Z) (l l' : list call) (d : N) :
  fresh (mkWorld c now l) → fresh (mkWorld c (now + Z.of_N d) l').
Proof.
  intros [Httl Hexp]. split; [done|]. intros key it Hit. simpl in *.
  specialize (Hexp key it Hit). lia.
Qed.

Lemma fresh_roundtrip (s : Service) (c : call) : steps stays_fresh (roundtrip s c).
Proof.
  intros [c0 now l] w' a [= _ <-] H. simpl. by eapply fresh_later.
Qed.

Lemma fresh_GetRequestedIDs (s : Service) (mediaType : string) :
  steps stays_fresh (GetRequestedIDs s mediaType).
Proof.
  intros [c0 now l] w' a. unfold GetRequestedIDs.
  destruct (db_Query _ _ _); intros [= _ <-] H; simpl; by eapply fresh_later.
Qed.

Lemma TTLs_ordered : existingTTL ≤ defaultTTL.
Proof. by vm_compute. Qed.

Lemma fresh_Set (key : string) (v : any) :
  is_library_key key = false → steps stays_fresh (cache_Set key v).
Proof.
  intros Hkey w w' a [= _ <-] [Httl Hexp]. split; [done|]. simpl.
  intros key' it. destruct (decide (key = key')) as [<- | Hne].
  - rewrite lookup_insert_eq. intros [= <-]. simpl. rewrite Hkey, Httl. lia.
  - rewrite lookup_insert_ne by done. apply Hexp.
Qed.

Lemma fresh_SetWithTTL (key : string) (v : any) :
  steps stays_fresh (cache_SetWithTTL key v existingTTL).
Proof.
  intros w w' a [= _ <-] [Httl Hexp]. split; [done|]. simpl.
  intros key' it. destruct (decide (key = key')) as [<- | Hne].
  - rewrite lookup_insert_eq. intros [= <-]. simpl.
    pose proof TTLs_ordered. destruct (is_library_key key); lia.
  - rewrite lookup_insert_ne by done. apply Hexp.
Qed.

Lemma fresh_cleanup (w : World) :
  fresh w →
  fresh (mkWorld (cache.cleanup (w_cache w) (w_now w)) (w_now w) (w_log w)).
Proof.
  intros [Httl Hexp]. split; [done|]. intros key it Hit.
  apply cleanup_lookup_Some in Hit as [Hit _]. by apply Hexp.
Qed.

Lemma ratingsKey_not_library (title year mediaType : string) :
  is_library_key (ratingsKey title year mediaType) = false.
Proof.
  unfold is_library_key, ratingsKey.
  rewrite !bool_decide_eq_false_2; [done|..]; simpl; discriminate.
Qed.

Lemma movieCacheKey_not_library (tmdbID : Z) :
  is_library_key (movieCacheKey tmdbID) = false.
Proof.
  unfold is_library_key, movieCacheKey.
  rewrite !bool_decide_eq_false_2; [done|..]; simpl; discriminate.
Qed.

Lemma tvCacheKey_not_library (tmdbID : Z) :
  is_library_key (tvCacheKey tmdbID) = false.
Proof.
  unfold is_library_key, tvCacheKey.
  rewrite !bool_decide_eq_false_2; [done|..]; simpl; discriminate.
Qed.

Ltac fresh_step :=
  first
    [ apply (steps_ret stays_fresh stays_fresh_refl)
    | apply steps_panic
    | apply (steps_must stays_fresh stays_fresh_refl)
    | apply (steps_Get stays_fresh stays_fresh_refl)
    | apply fresh_roundtrip
    | apply fresh_Set;
      first [ apply ratingsKey_not_library | apply movieCacheKey_not_library
            | apply tvCacheKey_not_library ]
    | apply fresh_SetWithTTL
    | apply fresh_GetRequestedIDs
    | apply (steps_fanOut stays_fresh stays_fresh_refl stays_fresh_trans)
    | apply (steps_bind stays_fresh stays_fresh_trans)
    | match goal with
      | |- steps stays_fresh (match ?x with _ => _ end) => destruct x
      | |- steps stays_fresh (if ?b then _ else _) => destruct b
      | |- ∀ _, _ => intros ?
      end ].

Lemma fresh_GetRatings (s : Service) (title year mediaType imdbID : string)
    (tmdbID : Z) :
  steps stays_fresh (GetRatings s title year mediaType imdbID tmdbID).
Proof.
  unfold GetRatings, primaryRatings, fallbackRatings, getMDBListRatings,
    mdblistLookup, getRTRatings, pickRTRatings.
  repeat fresh_step.
Qed.

Lemma fresh_request (s : Service) (endpoint : string) (params : gmap string string) :
  steps stays_fresh (request s endpoint params).
Proof. unfold request. repeat fresh_step. Qed.

Lemma fresh_enrichMovie (s : Service) (existingIDs requestedIDs : gmap Z bool)
    (movie : object) :
  steps stays_fresh (enrichMovie s existingIDs requestedIDs movie).
Proof.
  unfold enrichMovie, resolveMovie. repeat first [apply fresh_request | fresh_step].
Qed.

Lemma fresh_enrichShow (s : Service) (existingIDs requestedIDs : gmap Z bool)
    (show : object) :
  steps stays_fresh (enrichShow s existingIDs requestedIDs show).
Proof.
  unfold enrichShow, resolveShow. repeat first [apply fresh_request | fresh_step].
Qed.

Lemma fresh_getExistingIDs (s : Service) (urlSetting keySetting cacheKey path
    field : string) :
  steps stays_fresh (getExistingIDs s urlSetting keySetting cacheKey path field).
Proof. unfold getExistingIDs. repeat fresh_step. Qed.

Lemma fresh_DiscoverMovies (s : Service) (sched : list nat) (page : Z)
    (sortBy year : string) :
  steps stays_fresh (DiscoverMovies s sched page sortBy year).
Proof.
  unfold DiscoverMovies, getExistingMovieIDs.
  repeat first [apply fresh_request | apply fresh_getExistingIDs
               | apply fresh_enrichMovie | fresh_step].
Qed.

Lemma fresh_DiscoverTV (s : Service) (sched : list nat) (page : Z)
    (sortBy year : string) :
  steps stays_fresh (DiscoverTV s sched page sortBy year).
Proof.
  unfold DiscoverTV, getExistingSeriesIDs.
  repeat first [apply fresh_request | apply fresh_getExistingIDs
               | apply fresh_enrichShow | fresh_step].
Qed.

(** X21.  No entry of the cache outlives its TTL.  In every world the
    server can reach (started by [main.go] with a ten-minute cache, then
    any interleaving of waiting, sweeps, rating lookups and discovery
    calls), the default TTL is still ten minutes, every entry expires at
    most ten minutes from now and the two library sets at most two
    minutes from now.  So whatever [Get] returns was stored no longer ago
    than that. *)
Theorem X21_no_entry_outlives_its_ttl :
  ∀ (s : Service) (w : World),
    reachable s w →
    cache.ttl (w_cache w) = defaultTTL
    ∧ (∀ (key : string) (it : cache.item any),
         cache.items (w_cache w) !! key = Some it →
         cache.expiration it ≤ w_now w + defaultTTL
         ∧ (key = "existing_movies" ∨ key = "existing_series" →
            cache.expiration it ≤ w_now w + existingTTL)).
Proof.
  intros s w Hreach.
  assert (fresh w) as [Httl Hexp].
  { induction Hreach as [now|w d _ IH|w _ IH|w w' ? ? ? ? ? x _ IH Hrun
                         |w w' ? ? ? ? x _ IH Hrun|w w' ? ? ? ? x _ IH Hrun].
    - split; [done|]. intros key it H. simpl in H. by rewrite lookup_empty in H.
    - destruct w as [c now l]. by eapply fresh_later.
    - by apply fresh_cleanup.
    - by eapply (fresh_GetRatings _ _ _ _ _ _ _ _ _ Hrun).
    - by eapply (fresh_DiscoverMovies _ _ _ _ _ _ _ _ Hrun).
    - by eapply (fresh_DiscoverTV _ _ _ _ _ _ _ _ Hrun). }
  split; [done|]. intros key it Hit. specialize (Hexp key it Hit).
  pose proof TTLs_ordered. split.
  - destruct (is_library_key key); lia.
  - intros Hkey. unfold is_library_key in Hexp.
    destruct Hkey as [-> | ->]; simpl in Hexp; lia.
Qed.

Lemma X21_witness :
  (λ w, cache.expiration <$> cache.items (w_cache w) !! "existing_movies")
  <$> final first_page
  = Some (Some (2 + existingTTL))
  ∧ ∃ w',
      final first_page = Some w'
      ∧ reachable catalog w'
      ∧ cache.ttl (w_cache w') = defaultTTL
      ∧ ∀ key it, cache.items (w_cache w') !! key = Some it →
                  cache.expiration it ≤ w_now w' + defaultTTL.
Proof.
  assert ((λ w, cache.expiration <$> cache.items (w_cache w) !! "existing_movies")
          <$> final first_page
          = Some (Some (2 + existingTTL))) as Hlib by (vm_compute; reflexivity).
  destruct first_page_returns as (x & w' & Hrun).
  assert (final first_page = Some w') as Hfinal
    by (unfold first_page; rewrite Hrun; reflexivity).
  assert (reachable catalog w') as Hreach
    by exact (reach_movies catalog world0 w' _ _ _ _ x (reach_start catalog 0) Hrun).
  destruct (X21_no_entry_outlives_its_ttl catalog w' Hreach) as (Httl & Hexp).
  refine (conj Hlib _).
  exists w'. refine (conj Hfinal (conj Hreach (conj Httl _))).
  intros key it Hit. exact (proj1 (Hexp key it Hit)).
Defined.

(** ** The discovery endpoints *)




(** ** The ratings endpoint *)

(** X23.  Two facts about the ratings endpoint beyond its guard.  The
    endpoint never answers with the empty object it keeps for an error of
    the service: whenever it answers with a record, that record is the one
    the service returned with a nil error.  And since the guard rejects a
    request only when the TMDB id is 0, a request with no title, no IMDB
    id and a negative TMDB id is served: no provider is asked, and the
    answer is the empty record, which is cached like any other. *)
Theorem X23_ratings_endpoint_edges :
  ∀ (s : Service) (title year mediaType imdbID : string) (tmdbID : Z) (w : World),
    (∀ resp w',
       handlers.GetRatings s title year mediaType imdbID tmdbID w = Ret resp w' →
       resp ≠ handlers.jsonEmptyObject
       ∧ ∀ r, resp = handlers.jsonRatings r →
              GetRatings s title year mediaType imdbID tmdbID w = Ret (r, None) w')
    ∧ (tmdbID < 0 →
       cache.Get (w_cache w) (w_now w) (ratingsKey "" year mediaType) = None →
       handlers.GetRatings s "" year mediaType "" tmdbID w
       = Ret (handlers.jsonRatings emptyRatings)
             (after_Set (ratingsKey "" year mediaType) (AnyRatings emptyRatings) w)).
Proof.
  intros s title year mediaType imdbID tmdbID w. split.
  - intros resp w'. unfold handlers.GetRatings.
    destruct (is_empty title && is_empty imdbID && (tmdbID =? 0)).
    { intros [= <- _]. split; [done|]. by intros r [=]. }
    intros H. apply bind_inv in H as ([r e] & w1 & Hrun & H).
    pose proof (GetRatings_no_error _ _ _ _ _ _ _ _ _ _ Hrun) as ->.
    injection H as <- <-. split; [done|]. by intros r' [= <-].
  - intros Hneg Hmiss. unfold handlers.GetRatings. simpl.
    rewrite (proj2 (Z.eqb_neq tmdbID 0)) by lia.
    rewrite (bind_Ret _ _ _ _ _
               (GetRatings_miss s "" year mediaType "" tmdbID w w w
                  emptyRatings emptyRatings Hmiss
                  (primaryRatings_no_id s mediaType tmdbID w ltac:(lia))
                  eq_refl)).
    done.
Qed.

Lemma X23_witness :
  (-5 < 0)
  ∧ cache.Get (w_cache world0) (w_now world0) (ratingsKey "" "1999" "movie") = None
  ∧ handlers.GetRatings offline "" "1999" "movie" "" (-5) world0
    = Ret (handlers.jsonRatings emptyRatings)
          (after_Set (ratingsKey "" "1999" "movie") (AnyRatings emptyRatings) world0)
  ∧ calls (handlers.GetRatings offline "" "1999" "movie" "" (-5) world0) = [].
Proof.
  assert (-5 < 0) as Hneg by lia.
  assert (cache.Get (w_cache world0) (w_now world0) (ratingsKey "" "1999" "movie")
          = None) as Hmiss by reflexivity.
  pose proof (proj2 (X23_ratings_endpoint_edges offline "" "1999" "movie" "" (-5)
                       world0) Hneg Hmiss) as Hrun.
  refine (conj Hneg (conj Hmiss (conj Hrun _))). rewrite Hrun. reflexivity.
Defined.

(** ** The library, asked by the request flow *)

Lemma existsIn_spec (field : string) (id : Z) (existing : list object) :
  existsIn field id existing = true
  ↔ ∃ m v, m ∈ existing ∧ as_float64 (index m field) = Some v
           ∧ float_to_int v = id.
Proof.
  unfold existsIn. rewrite existsb_exists. split.
  - intros (m & Hm & H). destruct (as_float64 (index m field)) as [v|] eqn:E;
      [|discriminate].
    apply Z.eqb_eq in H. exists m, v. split_and!; [|done..].
    by apply list_elem_of_In.
  - intros (m & v & Hm & E & H). exists m. split; [by apply list_elem_of_In|].
    rewrite E. by apply Z.eqb_eq.
Qed.


Lemma is_2xx_range (status : Z) :
  (status <? 200) || (300 <=? status) = negb (is_2xx status).
Proof.
  unfold is_2xx.
  destruct (status <? 200) eqn:E1, (300 <=? status) eqn:E2,
    (200 <=? status) eqn:E3, (status <? 300) eqn:E4; try done;
    rewrite ?Z.ltb_lt, ?Z.ltb_ge, ?Z.leb_le, ?Z.leb_gt in *; lia.
Qed.

Lemma arrRequest_inv (s : Service) (name urlSetting keySetting endpoint : string)
    (w w' : World) (result : option json) (e : option error) :
  arrRequest s name urlSetting keySetting endpoint w = Ret (result, e) w' →
  (db_GetSetting s urlSetting = "" ∨ db_GetSetting s keySetting = "" →
   w' = w ∧ result = None ∧ e = Some (Errorf (name +:+ " not configured")))
  ∧ (db_GetSetting s urlSetting ≠ "" → db_GetSetting s keySetting ≠ "" →
     w' = after_call s
            (ArrGet (trimRightSlash (db_GetSetting s urlSetting)
                     +:+ "/api/v3/" +:+ endpoint)
                    (db_GetSetting s keySetting)) w
     ∧ (e = None
        ↔ ∃ status v,
            client_Do s (w_log w)
              (ArrGet (trimRightSlash (db_GetSetting s urlSetting)
                       +:+ "/api/v3/" +:+ endpoint)
                      (db_GetSetting s keySetting))
            = Response status (Some v)
            ∧ is_2xx status = true ∧ result = Some v)
     ∧ (e ≠ None → result = None)).
Proof.
  unfold arrRequest, is_empty. intros H. split.
  - intros Hun.
    assert (bool_decide (db_GetSetting s urlSetting = "")
            || bool_decide (db_GetSetting s keySetting = "") = true) as Hb.
    { destruct Hun as [-> | ->]; [done|]. by rewrite orb_true_r. }
    rewrite Hb in H. by injection H as <- <- <-.
  - intros Hurl Hkey. rewrite !bool_decide_eq_false_2 in H by done. simpl in H.
    rewrite bind_run, roundtrip_run in H.
    destruct (client_Do s (w_log w) _) as [|status body] eqn:E.
    { injection H as <- <- <-. split_and!; [done| |done].
      split; [done|]. by intros (? & ? & ? & _). }
    rewrite is_2xx_range in H.
    destruct (is_2xx status) eqn:Est; simpl in H.
    2: { injection H as <- <- <-. split_and!; [done| |done].
         split; [done|]. intros (? & ? & [= <- _] & ? & _). congruence. }
    destruct body as [v|].
    + injection H as <- <- <-. split_and!; [done| |done].
      split; [|done]. intros _. by exists status, v.
    + injection H as <- <- <-. split_and!; [done| |done].
      split; [done|]. by intros (? & ? & [= _ ?] & _).
Qed.

Lemma arrCheck_inv (s : Service) (name urlSetting keySetting endpoint field : string)
    (id : Z) (w w' : World) (r : bool) (e : option error) :
  (arrList s name urlSetting keySetting endpoint ≫= λ '(existing, err),
     match err with
     | Some e => mret (false, Some e)
     | None => mret (existsIn field id existing, None)
     end) w = Ret (r, e) w' →
  (db_GetSetting s urlSetting = "" ∨ db_GetSetting s keySetting = "" →
   w' = w ∧ r = false ∧ e = Some (Errorf (name +:+ " not configured")))
  ∧ (db_GetSetting s urlSetting ≠ "" → db_GetSetting s keySetting ≠ "" →
     w' = after_call s
            (ArrGet (trimRightSlash (db_GetSetting s urlSetting)
                     +:+ "/api/v3/" +:+ endpoint)
                    (db_GetSetting s keySetting)) w)
  ∧ (e ≠ None → r = false)
  ∧ (r = true
     → ∃ status arr entries m v,
         client_Do s (w_log w)
           (ArrGet (trimRightSlash (db_GetSetting s urlSetting)
                    +:+ "/api/v3/" +:+ endpoint)
                   (db_GetSetting s keySetting))
         = Response status (Some (JArr arr))
         ∧ is_2xx status = true
         ∧ mapM as_object arr = Some entries
         ∧ m ∈ entries ∧ as_float64 (index m field) = Some v
         ∧ float_to_int v = id).
Proof.
  intros H. apply bind_inv in H as ([existing err] & w1 & Hget & H).
  unfold arrList in Hget.
  apply bind_inv in Hget as ([result e0] & w0 & Hreq & Hget).
  pose proof (arrRequest_inv _ _ _ _ _ _ _ _ _ Hreq) as (Hun & Hcf).
  destruct e0 as [e0|].
  { injection Hget as <- <- <-. injection H as <- <- <-.
    split_and!; [| |done|done].
    - intros Hu. by destruct (Hun Hu) as (-> & _ & [= ->]).
    - intros Hurl Hkey. by destruct (Hcf Hurl Hkey) as (-> & _). }
  assert (db_GetSetting s urlSetting ≠ "" ∧ db_GetSetting s keySetting ≠ "")
    as [Hurl Hkey].
  { split; intros Hu.
    - by destruct (Hun (or_introl Hu)) as (_ & _ & ?).
    - by destruct (Hun (or_intror Hu)) as (_ & _ & ?). }
  destruct (Hcf Hurl Hkey) as (-> & Hok & _).
  destruct (proj1 Hok eq_refl) as (status & v & Hdo & Hst & ->). simpl in Hget.
  destruct (as_array v) as [arr|] eqn:Earr.
  - apply bind_inv in Hget as (items & w2 & Hitems & Hget).
    destruct (mapM as_object arr) as [entries|] eqn:Eent; [|discriminate].
    injection Hitems as <- <-. injection Hget as <- <- <-.
    injection H as <- <- <-.
    split_and!; [by intros [? | ?]|done|done|].
    intros Hr. apply existsIn_spec in Hr as (m & v' & Hm & Hv & Hid).
    destruct v; try discriminate. injection Earr as ->.
    by exists status, arr, entries, m, v'.
  - injection Hget as <- <- <-. injection H as <- <- <-.
    split_and!; [by intros [? | ?]|done|done|done].
Qed.

(** X24.  [CheckExists], the test the request flow makes before it
    accepts a request.  With no URL or no API key it asks nothing and
    fails with "not configured", where the discovery pages take the
    library to be empty.  Otherwise it makes one exchange, at the URL
    with its trailing slashes removed, and never looks at the cache.  It
    answers true only when the reply has a status from 200 to 299 and a
    body that is an array of objects one of which carries, in the id
    field, a number that truncates to the id asked for; with an error the
    answer is false. *)
Theorem X24_check_exists :
  ∀ (s : Service) (id : Z) (w w' : World) (r : bool) (e : option error),
    (radarr.CheckExists s id w = Ret (r, e) w' →
     (db_GetSetting s "radarr_url" = "" ∨ db_GetSetting s "radarr_api_key" = "" →
      w' = w ∧ r = false ∧ e = Some (Errorf "Radarr not configured"))
     ∧ (db_GetSetting s "radarr_url" ≠ "" → db_GetSetting s "radarr_api_key" ≠ "" →
        w' = after_call s (radarrCheck s) w)
     ∧ (e ≠ None → r = false)
     ∧ (r = true →
        ∃ status arr entries m v,
          client_Do s (w_log w) (radarrCheck s) = Response status (Some (JArr arr))
          ∧ is_2xx status = true
          ∧ mapM as_object arr = Some entries
          ∧ m ∈ entries ∧ as_float64 (index m "tmdbId") = Some v
          ∧ float_to_int v = id))
    ∧ (sonarr.CheckExists s id w = Ret (r, e) w' →
       (db_GetSetting s "sonarr_url" = "" ∨ db_GetSetting s "sonarr_api_key" = "" →
        w' = w ∧ r = false ∧ e = Some (Errorf "Sonarr not configured"))
       ∧ (db_GetSetting s "sonarr_url" ≠ "" → db_GetSetting s "sonarr_api_key" ≠ "" →
          w' = after_call s (sonarrCheck s) w)
       ∧ (e ≠ None → r = false)
       ∧ (r = true →
          ∃ status arr entries m v,
            client_Do s (w_log w) (sonarrCheck s) = Response status (Some (JArr arr))
            ∧ is_2xx status = true
            ∧ mapM as_object arr = Some entries
            ∧ m ∈ entries ∧ as_float64 (index m "tvdbId") = Some v
            ∧ float_to_int v = id)).
Proof.
  intros s id w w' r e. split; intros H.
  - by apply (arrCheck_inv s "Radarr" "radarr_url" "radarr_api_key" "movie" "tmdbId").
  - by apply (arrCheck_inv s "Sonarr" "sonarr_url" "sonarr_api_key" "series" "tvdbId").
Qed.

Lemma X24_witness :
  ∃ w',
    radarr.CheckExists catalog 603 world0 = Ret (true, None) w'
    ∧ w' = after_call catalog (radarrCheck catalog) world0
    ∧ endpoint_of (radarrCheck catalog) = "http://radarr:7878/api/v3/movie".
Proof.
  assert (∃ w', radarr.CheckExists catalog 603 world0 = Ret (true, None) w')
    as (w' & Hrun) by (vm_compute; eexists; reflexivity).
  destruct (proj1 (X24_check_exists catalog 603 world0 w' true None) Hrun)
    as (_ & Hw & _).
  exists w'. refine (conj Hrun (conj (Hw _ _) _)); [discriminate|discriminate|].
  vm_compute. reflexivity.
Defined.










(** ** The search endpoints *)





Lemma enhanceSeries_fields (existingIDs requestedIDs : gmap Z bool) (series : object) :
  search.mediaID (search.enhanceSeries existingIDs requestedIDs series)
  = getInt series "tvdbId"
  ∧ search.requestStatus (search.enhanceSeries existingIDs requestedIDs series)
    = search.status existingIDs requestedIDs (getInt series "tvdbId")
  ∧ search.poster (search.enhanceSeries existingIDs requestedIDs series)
    = (search.pickImages series).1
  ∧ search.fanart (search.enhanceSeries existingIDs requestedIDs series)
    = (search.pickImages series).2.
Proof. unfold search.enhanceSeries. by destruct (search.pickImages series). Qed.

Lemma enhanceMovie_fields (existingIDs requestedIDs : gmap Z bool) (movie : object) :
  search.mediaID (search.enhanceMovie existingIDs requestedIDs movie)
  = getInt movie "tmdbId"
  ∧ search.requestStatus (search.enhanceMovie existingIDs requestedIDs movie)
    = search.status existingIDs requestedIDs (getInt movie "tmdbId")
  ∧ search.poster (search.enhanceMovie existingIDs requestedIDs movie)
    = (search.pickImages movie).1
  ∧ search.fanart (search.enhanceMovie existingIDs requestedIDs movie)
    = (search.pickImages movie).2.
Proof. unfold search.enhanceMovie. by destruct (search.pickImages movie). Qed.

(** X27.  The status of a search result.  It is looked up under the id of
    the result, 0 when the result carries none: exists when the library
    set holds the id, else requested when the ledger set holds it, else
    available, the rule of the pages of movies.  For a series this is
    the status a discovery page would show whenever the id is positive;
    but the search makes no such test, so a result without a TVDB id is
    reported as existing or requested as soon as the id 0 is in the
    library or in the ledger, where a discovery page says available. *)
Theorem X27_status_of_a_search_result :
  ∀ (existingIDs requestedIDs : gmap Z bool) (m : object),
    (let r := search.enhanceSeries existingIDs requestedIDs m in
     search.mediaID r = getInt m "tvdbId"
     ∧ (as_float64 (index m "tvdbId") = None → search.mediaID r = 0)
     ∧ (search.requestStatus r = "exists" ↔ has existingIDs (search.mediaID r) = true)
     ∧ (search.requestStatus r = "requested"
        ↔ has existingIDs (search.mediaID r) = false
          ∧ has requestedIDs (search.mediaID r) = true)
     ∧ (0 < search.mediaID r →
        search.requestStatus r
        = seriesStatus existingIDs requestedIDs (search.mediaID r))
     ∧ (search.mediaID r ≤ 0 →
        seriesStatus existingIDs requestedIDs (search.mediaID r) = "available"))
    ∧ (let r := search.enhanceMovie existingIDs requestedIDs m in
       search.mediaID r = getInt m "tmdbId"
       ∧ search.requestStatus r
         = movieStatus existingIDs requestedIDs (search.mediaID r)).
Proof.
  intros existingIDs requestedIDs m. split.
  - destruct (enhanceSeries_fields existingIDs requestedIDs m) as (Hid & Hst & _).
    simpl. rewrite Hst, Hid. unfold search.status, seriesStatus. split_and!.
    + done.
    + intros Hnone. unfold getInt. by rewrite Hnone.
    + destruct (has existingIDs _); [done|]. by destruct (has requestedIDs _).
    + destruct (has existingIDs _); [by split; [|intros [? _]]|].
      destruct (has requestedIDs _); [done|]. by split; [|intros [_ ?]].
    + intros Hpos. apply Z.ltb_lt in Hpos. by rewrite Hpos.
    + intros Hneg. by rewrite (proj2 (Z.ltb_ge _ _) Hneg).
  - destruct (enhanceMovie_fields existingIDs requestedIDs m) as (Hid & Hst & _).
    simpl. by rewrite Hst, Hid.
Qed.

Lemma X27_witness :
  search.requestStatus (search.enhanceSeries example_zero ∅ example_result) = "exists"
  ∧ search.requestStatus (search.enhanceSeries ∅ example_zero example_result)
    = "requested"
  ∧ seriesStatus example_zero example_zero
      (search.mediaID (search.enhanceSeries example_zero ∅ example_result))
    = "available".
Proof.
  destruct (proj1 (X27_status_of_a_search_result example_zero ∅ example_result))
    as (_ & _ & Hex & _ & _ & _).
  destruct (proj1 (X27_status_of_a_search_result ∅ example_zero example_result))
    as (_ & _ & _ & Hrq & _ & _).
  destruct (proj1 (X27_status_of_a_search_result example_zero example_zero
                     example_result)) as (_ & _ & _ & _ & _ & Hav).
  refine (conj (proj2 Hex _) (conj (proj2 Hrq _) (Hav _))).
  - vm_compute. reflexivity.
  - split; vm_compute; reflexivity.
  - vm_compute. discriminate.
Defined.

Lemma pickImage_spec (poster fanart : string) (img : json) :
  search.pickImage (poster, fanart) img
  = (if is_empty poster then default "" (cover_url "poster" img) else poster,
     if is_empty fanart then default "" (cover_url "fanart" img) else fanart).
Proof.
  unfold search.pickImage, cover_url, is_empty.
  destruct (as_object img) as [imgMap|]; simpl.
  2: { repeat case_bool_decide; simpl; congruence. }
  repeat case_bool_decide; simpl; congruence.
Qed.

Lemma foldl_pickImage (images : list json) (poster fanart : string) :
  foldl search.pickImage (poster, fanart) images
  = (if is_empty poster then first_cover "poster" images else poster,
     if is_empty fanart then first_cover "fanart" images else fanart).
Proof.
  revert poster fanart. induction images as [|img images IH]; intros poster fanart.
  { unfold first_cover, is_empty. simpl. repeat case_bool_decide; congruence. }
  change (foldl search.pickImage (poster, fanart) (img :: images))
    with (foldl search.pickImage (search.pickImage (poster, fanart) img) images).
  rewrite pickImage_spec, IH. unfold first_cover. simpl.
  assert (∀ coverType acc,
            (if is_empty (if is_empty acc then default "" (cover_url coverType img)
                          else acc)
             then default "" (head (omap (cover_url coverType) images))
             else if is_empty acc then default "" (cover_url coverType img) else acc)
            = if is_empty acc
              then default "" (head (match cover_url coverType img with
                                     | Some y => y :: omap (cover_url coverType) images
                                     | None => omap (cover_url coverType) images
                                     end))
              else acc) as Hone.
  { intros coverType acc. unfold is_empty.
    destruct (decide (acc = "")) as [-> | Hacc].
    - rewrite (bool_decide_eq_true_2 ("" = "")) by done.
      destruct (cover_url coverType img) as [url|] eqn:E; simpl; [|done].
      rewrite bool_decide_eq_false_2; [done|].
      unfold cover_url in E. destruct (as_object img); [|done].
      destruct (_ && _) eqn:Hb; [|done]. injection E as <-.
      apply andb_true_iff in Hb as [_ Hb]. apply negb_true_iff in Hb.
      by apply bool_decide_eq_false in Hb.
    - by rewrite !(bool_decide_eq_false_2 (acc = "")) by done. }
  by rewrite !Hone.
Qed.

(** X28.  The images of a search result.  The poster is the address of
    the first image that is an object of cover type poster with a
    non-empty address, and the fan art likewise for the cover type
    fanart; each is empty when there is no such image, and when the
    result has no array of images.  Images that are not objects, images
    of other types and images without an address are passed over. *)
Theorem X28_images_of_a_search_result :
  ∀ (existingIDs requestedIDs : gmap Z bool) (m : object),
    (∀ images, index m "images" = JArr images →
       search.pickImages m = (first_cover "poster" images, first_cover "fanart" images))
    ∧ (as_array (index m "images") = None → search.pickImages m = ("", ""))
    ∧ search.poster (search.enhanceSeries existingIDs requestedIDs m)
      = (search.pickImages m).1
    ∧ search.fanart (search.enhanceSeries existingIDs requestedIDs m)
      = (search.pickImages m).2
    ∧ search.poster (search.enhanceMovie existingIDs requestedIDs m)
      = (search.pickImages m).1
    ∧ search.fanart (search.enhanceMovie existingIDs requestedIDs m)
      = (search.pickImages m).2.
Proof.
  intros existingIDs requestedIDs m.
  destruct (enhanceSeries_fields existingIDs requestedIDs m) as (_ & _ & Hp & Hf).
  destruct (enhanceMovie_fields existingIDs requestedIDs m) as (_ & _ & Hp' & Hf').
  split_and!; [| |done..].
  - intros images Himg. unfold search.pickImages. rewrite Himg. simpl.
    by rewrite foldl_pickImage.
  - intros Hnone. unfold search.pickImages. by rewrite Hnone.
Qed.

Lemma X28_witness :
  index example_result "images" = JArr example_images
  ∧ search.pickImages example_result = ("p1.jpg", "f1.jpg").
Proof.
  assert (index example_result "images" = JArr example_images) as Himg
    by reflexivity.
  refine (conj Himg _).
  rewrite (proj1 (X28_images_of_a_search_result ∅ ∅ example_result) _ Himg).
  vm_compute. reflexivity.
Defined.
